(** * LiteRT-LM runtime: executor bookkeeping, tokenizer, asset bundle,
    benchmark recorder and response container

  A shallow embedding of the parts of the runtime that keep state between
  calls:

  - [Responses] and [BenchmarkInfo] (runtime/engine/io_types.cc),
  - [ModelAssetBundleResources] (runtime/util/model_asset_bundle_resources.cc),
  - [HuggingFaceTokenizer] and [Tokenizer::IsIncompleteBpeSequence],
    [MergeTokenIds], [TokenIdsToTexts]
    (runtime/components/huggingface_tokenizer.cc, tokenizer.h),
  - [LlmLiteRtNpuCompiledModelExecutor]: Prefill, PrefillInternal, the
    two Decode overloads and WarmupInference, in [Executor] as they run
    when the calls into the tensor library succeed and in
    [ExecutorWithLibrary] with the error returns of these calls.

  Conventions.  C++ [int] values are integers of [Z]; functions returning
  [absl::Status] / [absl::StatusOr<T>] return [Status] / [StatusOr T];
  [std::map] and [absl::flat_hash_map] are [gmap]s; [std::vector] and
  tensor buffers are lists.  Readings of the wall clock ([absl::Now()]) are
  arguments of the operation that takes them. *)

From Stdlib Require Import ZArith String Ascii List Lia ZifyBool.
From stdpp Require Import base option list gmap strings pretty.

Open Scope Z_scope.

(* ================================================================== *)
(** * absl::Status *)
(* ================================================================== *)

Module Absl.

Inductive StatusCode : Type :=
| kOk
| kInvalidArgument
| kNotFound
| kInternal
| kDataLoss
| kUnimplemented.

#[global] Instance StatusCode_eq_dec : EqDecision StatusCode.
Proof. solve_decision. Defined.

Record Status : Type := MkStatus { code : StatusCode; message : string }.

Definition OkStatus : Status := MkStatus kOk EmptyString.
Definition InvalidArgumentError (msg : string) : Status := MkStatus kInvalidArgument msg.
Definition NotFoundError (msg : string) : Status := MkStatus kNotFound msg.
Definition InternalError (msg : string) : Status := MkStatus kInternal msg.
Definition DataLossError (msg : string) : Status := MkStatus kDataLoss msg.
Definition UnimplementedError (msg : string) : Status := MkStatus kUnimplemented msg.

(** [absl::StatusOr<T>]: a value, or a status that is not OK. *)
Inductive StatusOr (A : Type) : Type :=
| Value (a : A)
| Error (s : Status).
Arguments Value {A} a.
Arguments Error {A} s.

(** [StatusOr<T>::status()]. *)
Definition status {A} (r : StatusOr A) : Status :=
  match r with
  | Value _ => OkStatus
  | Error s => s
  end.

(** [StatusOr<T>::ok()]. *)
Definition ok {A} (r : StatusOr A) : bool :=
  match r with
  | Value _ => true
  | Error _ => false
  end.

(** [absl::StrJoin(parts, sep)]. *)
Fixpoint StrJoin (parts : list string) (sep : string) : string :=
  match parts with
  | [] => EmptyString
  | [p] => p
  | p :: rest => p +:+ sep +:+ StrJoin rest sep
  end.

(** [s] occurs in [t] as a contiguous piece. *)
Definition occurs_in (s t : string) : Prop :=
  exists pre post : string, t = pre +:+ s +:+ post.

End Absl.
Import Absl.

(* ================================================================== *)
(** * Responses (runtime/engine/io_types.cc) *)
(* ================================================================== *)

Module Responses.

(** A [float] is kept as its IEEE-754 binary32 bit pattern; the container
    only stores and returns scores. *)
Definition float : Type := Z.

(** [-std::numeric_limits<float>::infinity()]: sign 1, exponent all ones,
    mantissa 0. *)
Definition neg_infinity : float := 0xFF800000.

Record t : Type := Mk {
  num_output_candidates_ : Z;
  response_texts_ : list string;
  scores_ : list float
}.

(** [Responses::Responses(int num_output_candidates)].  The vector
    constructor takes a [size_t]; a negative count converts to a length
    no allocation can serve and the constructor throws: [None]. *)
Definition Responses (num_output_candidates : Z) : option t :=
  if num_output_candidates <? 0 then None
  else Some {| num_output_candidates_ := num_output_candidates;
               response_texts_ :=
                 replicate (Z.to_nat num_output_candidates) EmptyString;
               scores_ := [] |}.

Definition GetNumOutputCandidates (r : t) : Z := num_output_candidates_ r.

(** [response_texts_[index]] past the end of a vector the caller has
    shortened is an access out of bounds: [None]. *)
Definition GetResponseTextAt (r : t) (index : Z) : option (StatusOr string) :=
  if (index <? 0) || (index >=? num_output_candidates_ r) then
    Some (Error (InvalidArgumentError
                   ("Index " +:+ pretty index +:+ " is out of range [0, " +:+
                    pretty (num_output_candidates_ r) +:+ ").")))
  else Value <$> response_texts_ r !! Z.to_nat index.

Definition GetScoreAt (r : t) (index : Z) : StatusOr float :=
  match scores_ r with
  | [] => Error (InvalidArgumentError "Scores are not set.")
  | s0 :: _ =>
      if (index <? 0) || (index >=? Z.of_nat (length (scores_ r))) then
        Error (InvalidArgumentError
                 ("Index " +:+ pretty index +:+ " is out of range [0, " +:+
                  pretty (Z.of_nat (length (scores_ r))) +:+ ")."))
      else
        Value (nth (Z.to_nat index) (scores_ r) s0)
  end.

(** [GetMutableResponseTexts()] hands out a reference to the vector: the
    caller may replace its contents by anything. *)
Definition GetMutableResponseTexts (r : t) : list string := response_texts_ r.

Definition write_response_texts (texts : list string) (r : t) : t :=
  {| num_output_candidates_ := num_output_candidates_ r;
     response_texts_ := texts;
     scores_ := scores_ r |}.

(** [GetMutableScores()]: allocates the vector on first use, then returns
    the reference.  The object after the call; the vector handed out is
    its [scores_]. *)
Definition GetMutableScores (r : t) : t :=
  match scores_ r with
  | [] => {| num_output_candidates_ := num_output_candidates_ r;
             response_texts_ := response_texts_ r;
             scores_ := replicate (Z.to_nat (num_output_candidates_ r))
                                  neg_infinity |}
  | _ :: _ => r
  end.

(** Writing through the reference returned by [GetMutableScores]. *)
Definition write_scores (scores : list float) (r : t) : t :=
  {| num_output_candidates_ := num_output_candidates_ r;
     response_texts_ := response_texts_ r;
     scores_ := scores |}.

(** What a holder of a [Responses] object can do to it without writing
    to the scores vector. *)
Inductive Call : Type :=
| CallWriteResponseTexts (texts : list string)
| CallGetMutableScores.

Definition call (r : t) (c : Call) : t :=
  match c with
  | CallWriteResponseTexts texts => write_response_texts texts r
  | CallGetMutableScores => GetMutableScores r
  end.

Definition calls (cs : list Call) (r : t) : t := fold_left call cs r.

Definition is_text_write (c : Call) : bool :=
  match c with
  | CallWriteResponseTexts _ => true
  | CallGetMutableScores => false
  end.

End Responses.

(* ================================================================== *)
(** * BenchmarkInfo (runtime/engine/io_types.cc) *)
(* ================================================================== *)

Module BenchmarkInfo.

(** [absl::Time] and [absl::Duration] in a fixed unit. *)
Definition Time : Type := Z.
Definition Duration : Type := Z.

Record BenchmarkTurnData : Type := MkTurn {
  duration : Duration;
  num_tokens : Z
}.

Record t : Type := Mk {
  start_time_map_ : gmap string Time;
  mark_time_map_ : gmap string Time;
  prefill_turn_index_ : Z;
  decode_turn_index_ : Z;
  init_phases_ : gmap string Duration;
  mark_durations_ : gmap string Duration;
  prefill_turns_ : list BenchmarkTurnData;
  decode_turns_ : list BenchmarkTurnData
}.

(** The object right after construction. *)
Definition BenchmarkInfo : t :=
  {| start_time_map_ := ∅; mark_time_map_ := ∅;
     prefill_turn_index_ := 0; decode_turn_index_ := 0;
     init_phases_ := ∅; mark_durations_ := ∅;
     prefill_turns_ := []; decode_turns_ := [] |}.

Definition set_start_time (k : string) (v : Time) (b : t) : t :=
  {| start_time_map_ := <[k := v]> (start_time_map_ b);
     mark_time_map_ := mark_time_map_ b;
     prefill_turn_index_ := prefill_turn_index_ b;
     decode_turn_index_ := decode_turn_index_ b;
     init_phases_ := init_phases_ b;
     mark_durations_ := mark_durations_ b;
     prefill_turns_ := prefill_turns_ b;
     decode_turns_ := decode_turns_ b |}.

Definition set_init_phase (k : string) (v : Duration) (b : t) : t :=
  {| start_time_map_ := start_time_map_ b;
     mark_time_map_ := mark_time_map_ b;
     prefill_turn_index_ := prefill_turn_index_ b;
     decode_turn_index_ := decode_turn_index_ b;
     init_phases_ := <[k := v]> (init_phases_ b);
     mark_durations_ := mark_durations_ b;
     prefill_turns_ := prefill_turns_ b;
     decode_turns_ := decode_turns_ b |}.

Definition TimeInitPhaseStart (phase_name : string) (now : Time) (b : t)
  : Status * t :=
  match start_time_map_ b !! phase_name with
  | Some _ =>
      (InternalError ("Phase " +:+ phase_name +:+ " already started."), b)
  | None => (OkStatus, set_start_time phase_name now b)
  end.

Definition TimeInitPhaseEnd (phase_name : string) (now : Time) (b : t)
  : Status * t :=
  match start_time_map_ b !! phase_name with
  | None =>
      (InternalError ("Phase " +:+ phase_name +:+ " not started."), b)
  | Some started => (OkStatus, set_init_phase phase_name (now - started) b)
  end.

(** [TimeMarkDelta]: the two readings of the clock are [now1], [now2]. *)
Definition TimeMarkDelta (mark_name : string) (now1 now2 : Time) (b : t)
  : Status * t :=
  let durations :=
    match mark_time_map_ b !! mark_name with
    | Some marked => <[mark_name := now1 - marked]> (mark_durations_ b)
    | None => mark_durations_ b
    end in
  (OkStatus,
   {| start_time_map_ := start_time_map_ b;
      mark_time_map_ := <[mark_name := now2]> (mark_time_map_ b);
      prefill_turn_index_ := prefill_turn_index_ b;
      decode_turn_index_ := decode_turn_index_ b;
      init_phases_ := init_phases_ b;
      mark_durations_ := durations;
      prefill_turns_ := prefill_turns_ b;
      decode_turns_ := decode_turns_ b |}).

Definition prefill_phase_name (b : t) : string :=
  "prefill:" +:+ pretty (prefill_turn_index_ b).

Definition decode_phase_name (b : t) : string :=
  "decode:" +:+ pretty (decode_turn_index_ b).

Definition TimePrefillTurnStart (now : Time) (b : t) : Status * t :=
  let phase_name := prefill_phase_name b in
  match start_time_map_ b !! phase_name with
  | Some _ =>
      (InternalError ("Prefill turn " +:+ phase_name +:+ " already started."),
       b)
  | None => (OkStatus, set_start_time phase_name now b)
  end.

Definition TimePrefillTurnEnd (num_prefill_tokens : Z) (now : Time) (b : t)
  : Status * t :=
  let phase_name := prefill_phase_name b in
  match start_time_map_ b !! phase_name with
  | None =>
      (InternalError ("Prefill turn " +:+ phase_name +:+ " not started."), b)
  | Some started =>
      (OkStatus,
       {| start_time_map_ := start_time_map_ b;
          mark_time_map_ := mark_time_map_ b;
          prefill_turn_index_ := prefill_turn_index_ b + 1;
          decode_turn_index_ := decode_turn_index_ b;
          init_phases_ := init_phases_ b;
          mark_durations_ := mark_durations_ b;
          prefill_turns_ :=
            prefill_turns_ b ++ [MkTurn (now - started) num_prefill_tokens];
          decode_turns_ := decode_turns_ b |})
  end.

Definition TimeDecodeTurnStart (now : Time) (b : t) : Status * t :=
  let phase_name := decode_phase_name b in
  match start_time_map_ b !! phase_name with
  | Some _ =>
      (InternalError ("Decode turn " +:+ phase_name +:+ " already started."),
       b)
  | None => (OkStatus, set_start_time phase_name now b)
  end.

Definition TimeDecodeTurnEnd (num_decode_tokens : Z) (now : Time) (b : t)
  : Status * t :=
  let phase_name := decode_phase_name b in
  match start_time_map_ b !! phase_name with
  | None =>
      (InternalError ("Decode turn " +:+ phase_name +:+ " not started."), b)
  | Some started =>
      (OkStatus,
       {| start_time_map_ := start_time_map_ b;
          mark_time_map_ := mark_time_map_ b;
          prefill_turn_index_ := prefill_turn_index_ b;
          decode_turn_index_ := decode_turn_index_ b + 1;
          init_phases_ := init_phases_ b;
          mark_durations_ := mark_durations_ b;
          prefill_turns_ := prefill_turns_ b;
          decode_turns_ :=
            decode_turns_ b ++ [MkTurn (now - started) num_decode_tokens] |})
  end.

(** The recording methods, as calls with their arguments and the clock
    readings they take. *)
Inductive Call : Type :=
| CallInitPhaseStart (phase_name : string) (now : Time)
| CallInitPhaseEnd (phase_name : string) (now : Time)
| CallMarkDelta (mark_name : string) (now1 now2 : Time)
| CallPrefillTurnStart (now : Time)
| CallPrefillTurnEnd (num_prefill_tokens : Z) (now : Time)
| CallDecodeTurnStart (now : Time)
| CallDecodeTurnEnd (num_decode_tokens : Z) (now : Time).

Definition call (c : Call) (b : t) : Status * t :=
  match c with
  | CallInitPhaseStart n now => TimeInitPhaseStart n now b
  | CallInitPhaseEnd n now => TimeInitPhaseEnd n now b
  | CallMarkDelta n now1 now2 => TimeMarkDelta n now1 now2 b
  | CallPrefillTurnStart now => TimePrefillTurnStart now b
  | CallPrefillTurnEnd k now => TimePrefillTurnEnd k now b
  | CallDecodeTurnStart now => TimeDecodeTurnStart now b
  | CallDecodeTurnEnd k now => TimeDecodeTurnEnd k now b
  end.

(** The object after a sequence of calls, whatever each returned. *)
Definition calls (cs : list Call) (b : t) : t :=
  fold_left (fun b c => snd (call c b)) cs b.

(** The key a call looks up in [start_time_map_] to start a phase or a
    turn, in the object it is made on. *)
Definition start_key (c : Call) (b : t) : option string :=
  match c with
  | CallInitPhaseStart n _ => Some n
  | CallPrefillTurnStart _ => Some (prefill_phase_name b)
  | CallDecodeTurnStart _ => Some (decode_phase_name b)
  | _ => None
  end.

(** The keys started along a sequence of calls. *)
Fixpoint started_keys (cs : list Call) (b : t) : list string :=
  match cs with
  | [] => []
  | c :: cs' =>
      match start_key c b with
      | Some k => k :: started_keys cs' (snd (call c b))
      | None => started_keys cs' (snd (call c b))
      end
  end.

Definition is_init_phase_start (phase_name : string) (c : Call) : bool :=
  match c with
  | CallInitPhaseStart n _ => bool_decide (n = phase_name)
  | _ => false
  end.

(** *** Getters *)

Definition GetInitPhases (b : t) : gmap string Duration := init_phases_ b.

Definition GetMarkDurations (b : t) : gmap string Duration := mark_durations_ b.

Definition GetTotalPrefillTurns (b : t) : Z :=
  Z.of_nat (length (prefill_turns_ b)).

Definition GetTotalDecodeTurns (b : t) : Z :=
  Z.of_nat (length (decode_turns_ b)).

(** [prefill_turns_[turn_index]]: an index outside the vector (a negative
    one converts to a huge [size_t]) is an access out of bounds: [None]. *)
Definition GetPrefillTurn (b : t) (turn_index : Z) : option BenchmarkTurnData :=
  if turn_index <? 0 then None else prefill_turns_ b !! Z.to_nat turn_index.

Definition GetDecodeTurn (b : t) (turn_index : Z) : option BenchmarkTurnData :=
  if turn_index <? 0 then None else decode_turns_ b !! Z.to_nat turn_index.

(** *** Kinds of calls *)

Definition is_prefill_turn_end (c : Call) : bool :=
  match c with
  | CallPrefillTurnEnd _ _ => true
  | _ => false
  end.

Definition is_decode_turn_end (c : Call) : bool :=
  match c with
  | CallDecodeTurnEnd _ _ => true
  | _ => false
  end.

Definition is_mark_delta (mark_name : string) (c : Call) : bool :=
  match c with
  | CallMarkDelta n _ _ => bool_decide (n = mark_name)
  | _ => false
  end.

(** The turn indices count the recorded turns. *)
Definition turns_counted (b : t) : Prop :=
  prefill_turn_index_ b = Z.of_nat (length (prefill_turns_ b))
  /\ decode_turn_index_ b = Z.of_nat (length (decode_turns_ b)).

End BenchmarkInfo.

(* ================================================================== *)
(** * ModelAssetBundleResources
    (runtime/util/model_asset_bundle_resources.cc) *)
(* ================================================================== *)

Module ModelAssetBundleResources.

(** The object after [Create]: its tag and the index [files_] from file
    name to the bytes of the entry (a view into the mapped archive). *)
Record t : Type := Mk {
  tag_ : string;
  files_ : gmap string string
}.

(** The names in the order the iteration over [files_] meets them. *)
Definition ListFiles (b : t) : list string :=
  (map_to_list (files_ b)).*1.

Definition GetFile (b : t) (filename : string) : StatusOr string :=
  match files_ b !! filename with
  | Some contents => Value contents
  | None =>
      let files := ListFiles b in
      let all_files := StrJoin files ", " in
      Error (NotFoundError
               ("No file with name: " +:+ filename +:+
                ". All files in the model asset bundle are: " +:+
                all_files +:+ "."))
  end.

(** A bundle of two entries. *)
Definition two_files : t :=
  {| tag_ := "bundle";
     files_ := <["a.tflite" := "model"]> (<["b.json" := "{}"]> ∅) |}.

End ModelAssetBundleResources.

(* ================================================================== *)
(** * Tokenizer (runtime/components/tokenizer.h) and HuggingFaceTokenizer
    (runtime/components/huggingface_tokenizer.cc) *)
(* ================================================================== *)

Module Tokenizer.

Definition TokenIds : Type := list Z.

(** [Tokenizer::IsIncompleteBpeSequence]. *)
Definition IsIncompleteBpeSequence {A} (result : StatusOr A) : bool :=
  bool_decide (code (status result) = kDataLoss).

(** [Tokenizer::MergeTokenIds]. *)
Definition MergeTokenIds (previous_token_ids next_token_ids : list TokenIds)
  : StatusOr (list TokenIds) :=
  if bool_decide (length previous_token_ids = length next_token_ids) then
    Value (zip_with (fun p n => p ++ n) previous_token_ids next_token_ids)
  else
    Error (InvalidArgumentError
             "The previous and next token ids must have the same size.").

(** The pure virtual [TokenIdsToText] a concrete tokenizer supplies. *)
Class Subclass : Type := {
  TokenIdsToText : TokenIds -> StatusOr string
}.

(** The loop of [TokenIdsToTexts] over the rows: it returns the status of
    the first row that does not decode. *)
Fixpoint decode_rows {subclass : Subclass} (token_ids : list TokenIds)
    : StatusOr (list string) :=
  match token_ids with
  | [] => Value []
  | row :: rest =>
      match TokenIdsToText row with
      | Error s => Error s
      | Value text =>
          match decode_rows rest with
          | Error s => Error s
          | Value texts => Value (text :: texts)
          end
      end
  end.

(** The heap behind [std::vector]: whether a vector of that many empty
    strings can be allocated at the time of the call. *)
Class Heap : Type := {
  allocates : Z -> bool
}.

(** [Tokenizer::TokenIdsToTexts].  The vector of results is built with
    [batch_size] elements first, before the rows are counted: a negative
    size (a huge [size_t]) makes the constructor throw, and so does a size
    the heap cannot serve ([std::bad_alloc]): [None]. *)
Definition TokenIdsToTexts {subclass : Subclass} {heap : Heap}
    (batch_size : Z) (token_ids : list TokenIds)
    : option (StatusOr (list string)) :=
  if (batch_size <? 0) || negb (allocates batch_size) then None
  else if negb (Z.of_nat (length token_ids) =? batch_size) then
    Some (Error (InvalidArgumentError
                   ("The token ID vector must have the same number of rows as the batch " +:+
                    "size.")))
  else Some (decode_rows token_ids).

(** [s] is the error of the first row that does not decode. *)
Definition first_error {subclass : Subclass} (rows : list TokenIds)
    (s : Status) : Prop :=
  exists i row,
    rows !! i = Some row
    /\ TokenIdsToText row = Error s
    /\ forall j earlier,
         (j < i)%nat -> rows !! j = Some earlier ->
         ok (TokenIdsToText earlier) = true.

End Tokenizer.

Module HuggingFaceTokenizer.

(** Replacement character (U+FFFD) in UTF-8: the bytes EF BF BD. *)
Definition kReplacementCharacter : string :=
  String "239" (String "191" (String "189" EmptyString)).

(** [std::string::ends_with]. *)
Definition ends_with (s suffix : string) : bool :=
  let n := String.length suffix in
  let m := String.length s in
  (n <=? m)%nat && String.eqb (substring (m - n) n s) suffix.

Definition has_bpe_suffix (decoded : string) : bool :=
  ends_with decoded kReplacementCharacter.

(** The tokenizer of the tokenizers_cpp library behind [tokenizer_]. *)
Class TokenizersCpp : Type := {
  Encode : string -> list Z;
  Decode : list Z -> string
}.

Section WithTokenizer.
Context {tokenizer_ : TokenizersCpp}.

Definition TextToTokenIds (text : string) : StatusOr (list Z) :=
  Value (Encode text).

Definition TokenIdsToText (token_ids : list Z) : StatusOr string :=
  let decoded := Decode token_ids in
  if has_bpe_suffix decoded then
    Error (DataLossError
             ("The set of token IDs passed to the tokenizer is part of a BPE " +:+
              "sequence and needs more tokens to be decoded."))
  else Value decoded.

End WithTokenizer.

(** A tokenizer whose tokens are single bytes. *)
Definition byte_tokenizer : TokenizersCpp :=
  {| Encode := fun text =>
       map (fun c => Z.of_N (N_of_ascii c)) (list_ascii_of_string text);
     Decode := fun ids =>
       string_of_list_ascii (map (fun id => ascii_of_N (Z.to_N id)) ids) |}.

(** [HuggingFaceTokenizer] as a [Tokenizer]. *)
Definition as_Tokenizer (tokenizer_ : TokenizersCpp) : Tokenizer.Subclass :=
  {| Tokenizer.TokenIdsToText := TokenIdsToText (tokenizer_ := tokenizer_) |}.

(** A heap with room for a thousand strings and no more. *)
Definition small_heap : Tokenizer.Heap :=
  {| Tokenizer.allocates := fun n => n <=? 1000 |}.

End HuggingFaceTokenizer.

(* ================================================================== *)
(** * LlmLiteRtNpuCompiledModelExecutor: Prefill and Decode *)
(* ================================================================== *)

Module Executor.

Definition kPrefillSignature : string := "prefill_128".
Definition kPrefillSize : Z := 128.
Definition kDecodeSignature : string := "decode".

Module EmbedderSignatures.
Definition kPrefillEmbedder : string := "prefill_embedder_128".
Definition kDecodeEmbedder : string := "decode_embedder".
Definition kEmbedderInput : string := "tokens".
Definition kEmbedderOutput : string := "embeds".
End EmbedderSignatures.

Module MaskSignatures.
Definition kPrefillMask : string := "prefill_mask_128".
Definition kDecodeMask : string := "decode_mask".
Definition kMaskInputTimeStep : string := "time_step".
Definition kMaskInputTokens : string := "input_tokens".
End MaskSignatures.

Module RopeSignatures.
Definition kPrefillRope : string := "prefill_rope_128".
Definition kDecodeRope : string := "decode_rope".
Definition kInputPos : string := "input_pos".
End RopeSignatures.

Module LlmSignatures.
Definition kPrefillLlm : string := "prefill_128".
Definition kDecodeLlm : string := "decode".
Definition kInputEmbeddings : string := "input_embeds".
Definition kDecodeLogitsOutput : string := "logits".
End LlmSignatures.

Module CacheUpdateSignatures.
Definition kPrefillCacheUpdate : string := "prefill_cache_update_128".
Definition kDecodeCacheUpdate : string := "decode_cache_update".
Definition kInputPos : string := "input_pos".
End CacheUpdateSignatures.

(** ** Integers of the machine *)

Definition INT_MAX : Z := 2147483647.

(** [n - 1] computed in [size_t], as in [ids.size() - 1]: it wraps to the
    largest [size_t] when [n] is 0. *)
Definition size_minus_one (n : nat) : Z :=
  match n with
  | O => 2 ^ 64 - 1
  | S m => Z.of_nat m
  end.

(** An [int] converted to [size_t]: a negative one wraps. *)
Definition to_size_t (z : Z) : Z := if z <? 0 then z + 2 ^ 64 else z.

(** ** Tensors handed in by the caller *)

(** A host tensor of [int32] elements with its layout. *)
Record TensorBuffer : Type := MkTensor {
  Dimensions : list Z;
  elements : list Z
}.

(** [ExecutorInputs] (runtime/executor/llm_executor_io_types.h): of its
    parts the executor reads the text token ids only, which are present
    or not. *)
Definition ExecutorInputs : Type := option TensorBuffer.

(** [TensorBuffer::Size()], in bytes. *)
Definition Size (t : TensorBuffer) : Z := 4 * Z.of_nat (length (elements t)).

(** Modelled from the spec: [TensorBuffer::Write] belongs to the tensor
    library, which is outside the sources; "Write: bulk-overwrite from a
    host span" and "writes larger than the buffer fail with
    InvalidArgument". *)
Definition Write (buffer data : list Z) : StatusOr (list Z) :=
  if (length data <=? length buffer)%nat then
    Value (data ++ drop (length data) buffer)
  else Error (InvalidArgumentError "Write larger than the buffer.").

(** [ptr[idx] = v] on a locked buffer; past its end the store is an access
    out of bounds: [None]. *)
Definition store (buffer : list Z) (idx : nat) (v : Z) : option (list Z) :=
  if (idx <? length buffer)%nat then Some (<[idx := v]> buffer) else None.

(** [absl::Span::subspan(pos, len)]: [len] is cut to what is left; a
    [pos] past the end fails the range check and the call does not
    return. *)
Definition subspan (pos : Z) (len : option Z) (ids : list Z)
    : option (list Z) :=
  if pos <=? Z.of_nat (length ids) then
    let from_pos := drop (Z.to_nat pos) ids in
    Some (match len with
          | Some n =>
              take (Z.to_nat (Z.min (Z.of_nat (length ids) - pos) n)) from_pos
          | None => from_pos
          end)
  else None.

(** [subspan(pos)] leaves [len] at its default, all that is left. *)
Definition npos : option Z := None.

(** ** The compiled subgraphs and the helpers outside the sources *)

(** [Expected<void>] of the tensor library. *)
Inductive Expected : Type :=
| Done
| Unexpected (message : string).

(** A call [Run(signature, inputs, outputs)]: the signature and the host
    written input buffers of the input map, by name. *)
Definition RunCall : Type := (string * list (string * list Z))%type.

(** The accelerator behind the compiled models.  [Dev] is all the state
    on its side (KV cache, the buffers one stage hands to the next, the
    logits); [Run] executes one signature on the inputs bound to it and
    succeeds or fails; [logits] is the [int16] content of
    [decode_output_buffers["logits"]]. *)
Class CompiledModels : Type := {
  Dev : Type;
  Run : string -> list (string * list Z) -> Dev -> Expected * Dev;
  logits : Dev -> list Z
}.

(** [GetOptimizedPrefillWorkGroups]
    (runtime/executor/litert_compiled_model_executor_utils.h), which the
    sources use and do not define: from the sorted prefill signature map
    and the input length to the list of (signature, length) work groups. *)
Class ExecutorUtils : Type := {
  GetOptimizedPrefillWorkGroups :
    list (Z * string) -> Z -> StatusOr (list (string * Z))
}.

(** Modelled from the spec: the macros [RET_CHECK_EQ] and [RET_CHECK_GT]
    of runtime/util/status_macros.h are not among the sources.  The code
    of the status a failed check of an argument returns: "Fails with
    InvalidArgument on batch≠1 or N=0", "reject N>1 with
    InvalidArgument". *)
Definition RET_CHECK_argument_code : StatusCode := kInvalidArgument.

(** Modelled from the spec: the macro [RET_CHECK] of
    runtime/util/status_macros.h is not among the sources.  The code of
    the status a failed check of the result of a subgraph run returns:
    "Internal: ... subgraph Run failure". *)
Definition RET_CHECK_run_code : StatusCode := kInternal.

(** ** The state of the executor *)

(** The three host written input buffers of one phase.  [tokens] is the
    embedder input "tokens", the same storage as the mask input
    "input_tokens"; [input_pos] is the RoPE input "input_pos", the same
    storage as the cache update input "input_pos"; [time_step] is the mask
    input "time_step". *)
Record HostInputs : Type := MkHostInputs {
  tokens : list Z;
  input_pos : list Z;
  time_step : list Z
}.

(** Of [LatencyStats], the two counters of tokens.  The counters of
    microseconds, to which [PrefillInternal], [Prefill] and [Decode] add
    differences of clock readings, are not kept: no function of the
    executor reads them. *)
Record LatencyStats : Type := MkLatencyStats {
  prefill_num_tokens : Z;
  decode_num_tokens : Z
}.

Section WithCompiledModels.
Context {compiled_models : CompiledModels}.

Record State : Type := MkState {
  current_step_ : Z;
  next_input_token_id_ : Z;
  prefill_signature_map_ : list (Z * string);
  prefill_inputs : HostInputs;
  decode_inputs : HostInputs;
  latency_stats_ : LatencyStats;
  device : Dev;
  run_log : list RunCall
}.

Definition set_current_step (v : Z) (st : State) : State :=
  MkState v (next_input_token_id_ st) (prefill_signature_map_ st)
          (prefill_inputs st) (decode_inputs st) (latency_stats_ st)
          (device st) (run_log st).

Definition set_next_input_token_id (v : Z) (st : State) : State :=
  MkState (current_step_ st) v (prefill_signature_map_ st)
          (prefill_inputs st) (decode_inputs st) (latency_stats_ st)
          (device st) (run_log st).

Definition set_prefill_inputs (v : HostInputs) (st : State) : State :=
  MkState (current_step_ st) (next_input_token_id_ st)
          (prefill_signature_map_ st) v (decode_inputs st)
          (latency_stats_ st) (device st) (run_log st).

Definition set_decode_inputs (v : HostInputs) (st : State) : State :=
  MkState (current_step_ st) (next_input_token_id_ st)
          (prefill_signature_map_ st) (prefill_inputs st) v
          (latency_stats_ st) (device st) (run_log st).

Definition set_latency_stats (v : LatencyStats) (st : State) : State :=
  MkState (current_step_ st) (next_input_token_id_ st)
          (prefill_signature_map_ st) (prefill_inputs st) (decode_inputs st)
          v (device st) (run_log st).

(** The device after a run, and the call appended to the log. *)
Definition ran (call : RunCall) (dev : Dev) (st : State) : State :=
  MkState (current_step_ st) (next_input_token_id_ st)
          (prefill_signature_map_ st) (prefill_inputs st) (decode_inputs st)
          (latency_stats_ st) dev (run_log st ++ [call]).

(** ** Calls that return a status and change the executor *)

(** A member function on the executor: from the state before to the
    returned status or value and the state after; [None] when the call
    does not return (an access out of bounds, a signed overflow, a failed
    range check). *)
Definition M (A : Type) : Type := State -> option (StatusOr A * State).

Definition ret {A} (a : A) : M A := fun st => Some (Value a, st).

Definition fail {A} (s : Status) : M A := fun st => Some (Error s, st).

Definition bind {A B} (m : M A) (k : A -> M B) : M B :=
  fun st =>
    match m st with
    | None => None
    | Some (Error s, st') => Some (Error s, st')
    | Some (Value a, st') => k a st'
    end.

Definition undefined {A} : M A := fun _ => None.

End WithCompiledModels.

Arguments State : clear implicits.
Arguments State {compiled_models}.

Declare Scope exec_scope.
Delimit Scope exec_scope with exec.
Notation "x <- m ;; k" := (bind m (fun x => k))
  (at level 100, m at next level, right associativity) : exec_scope.
Notation "m ;;; k" := (bind m (fun _ => k))
  (at level 100, right associativity) : exec_scope.


Section Operations.
Context {compiled_models : CompiledModels} {utils : ExecutorUtils}.
Local Open Scope exec_scope.

(** [auto res = model.Run(signature, inputs, outputs); RET_CHECK(res) <<
    failure << res.Error().Message();] *)
Definition RunSignature (signature : string) (inputs : list (string * list Z))
    (failure : string) : M unit :=
  fun st =>
    let '(res, dev) := Run signature inputs (device st) in
    let st' := ran (signature, inputs) dev st in
    match res with
    | Done => Some (Value tt, st')
    | Unexpected msg =>
        Some (Error (MkStatus RET_CHECK_run_code (failure +:+ msg)), st')
    end.

(** The functions of this section are the executor as it runs when its
    calls into the tensor library ([Size], [TensorBufferScopedLock::Create],
    [TensorType], [ReferTensorBufferAsSpan], [CopyFromTensorBuffer]) succeed;
    [ExecutorWithLibrary] below has the same functions with the error
    returns of these calls. *)

(** *** PrefillInternal *)

(** The loop
    [for (int i = 0, input_idx = 0; i < ids.size() - 1;
          input_idx++, current_step_++)]
    from the iteration that starts with the given [i] and [input_idx].
    Every iteration either takes the pending token or advances [i], so
    [fuel] iterations are enough when [fuel] is above the number of ids
    (see [PrefillInternal_fill_total]). *)
Fixpoint PrefillInternal_fill (fuel : nat) (ids : list Z) (i input_idx : nat)
    (st : State) : option State :=
  if Z.of_nat i <? size_minus_one (length ids) then
    match fuel with
    | O => None
    | S fuel' =>
        let b := prefill_inputs st in
        '(token, i', next) ←
          (if negb (next_input_token_id_ st =? -1) then
             Some (next_input_token_id_ st, i, -1)
           else
             id ← ids !! i; Some (id, S i, next_input_token_id_ st));
        tokens' ← store (tokens b) input_idx token;
        input_pos' ← store (input_pos b) input_idx (current_step_ st);
        if current_step_ st <? INT_MAX then
          PrefillInternal_fill fuel' ids i' (S input_idx)
            (set_current_step (current_step_ st + 1)
               (set_next_input_token_id next
                  (set_prefill_inputs
                     (MkHostInputs tokens' input_pos' (time_step b)) st)))
        else None
    end
  else Some st.

(** The first part of [PrefillInternal]: the three buffers are locked and
    zeroed, the time step is written, the loop fills tokens and positions,
    and the last id is kept for the next call. *)
Definition PrefillInternal_prepare_inputs (ids : list Z) (st : State)
    : option State :=
  let b := prefill_inputs st in
  let start_step := current_step_ st in
  time_step' ← store (replicate (length (time_step b)) 0) 0%nat start_step;
  st1 ← PrefillInternal_fill (S (length ids)) ids 0 0
          (set_prefill_inputs
             (MkHostInputs (replicate (length (tokens b)) 0)
                           (replicate (length (input_pos b)) 0)
                           time_step') st);
  last_id ← ids !! Z.to_nat (size_minus_one (length ids));
  Some (set_next_input_token_id last_id st1).

(** The five runs of a prefill chunk, on the buffers as they are. *)
Definition PrefillInternal_run_stages : M unit :=
  fun st =>
    let b := prefill_inputs st in
    (RunSignature EmbedderSignatures.kPrefillEmbedder
       [(EmbedderSignatures.kEmbedderInput, tokens b)]
       "Failed to run embedder model." ;;;
     RunSignature RopeSignatures.kPrefillRope
       [(RopeSignatures.kInputPos, input_pos b)]
       "Failed to run RoPE model." ;;;
     RunSignature MaskSignatures.kPrefillMask
       [(MaskSignatures.kMaskInputTimeStep, time_step b);
        (MaskSignatures.kMaskInputTokens, tokens b)]
       "Failed to run compiled model." ;;;
     RunSignature LlmSignatures.kPrefillLlm []
       "Failed to run LLM model." ;;;
     RunSignature CacheUpdateSignatures.kPrefillCacheUpdate
       [(CacheUpdateSignatures.kInputPos, input_pos b)]
       "Failed to run cache update model.") st.

Definition PrefillInternal (prefill_signature : string) (ids : list Z)
    : M unit :=
  fun st =>
    st1 ← PrefillInternal_prepare_inputs ids st;
    PrefillInternal_run_stages st1.

(** *** Prefill *)

Definition add_prefill_num_tokens (n : Z) : M unit :=
  fun st =>
    let l := latency_stats_ st in
    Some (Value tt,
          set_latency_stats
            (MkLatencyStats (prefill_num_tokens l + n) (decode_num_tokens l))
            st).

(** The loop over the work groups; returns what is left of [ids]. *)
Fixpoint Prefill_work_groups (work_groups : list (string * Z)) (ids : list Z)
    : M (list Z) :=
  match work_groups with
  | [] => ret ids
  | (prefill_signature, prefill_length) :: rest =>
      match subspan 0 (Some (to_size_t prefill_length)) ids with
      | None => undefined
      | Some chunk =>
          PrefillInternal prefill_signature chunk ;;;
          match subspan (to_size_t prefill_length) npos ids with
          | None => undefined
          | Some ids' =>
              add_prefill_num_tokens kPrefillSize ;;;
              Prefill_work_groups rest ids'
          end
      end
  end.

Definition Prefill (inputs : ExecutorInputs) : M unit :=
  match inputs with
  | None => undefined
  | Some token_ids =>
      match Dimensions token_ids !! 0%nat with
      | None => undefined
      | Some batch =>
          if negb (batch =? 1) then
            fail (MkStatus RET_CHECK_argument_code EmptyString)
          else
            match Dimensions token_ids !! 1%nat with
            | None => undefined
            | Some num_tokens =>
                if negb (num_tokens >? 0) then
                  fail (MkStatus RET_CHECK_argument_code
                                 "Prefill token ids must be non-empty.")
                else
                  let ids := elements token_ids in
                  fun st =>
                    match GetOptimizedPrefillWorkGroups
                            (prefill_signature_map_ st)
                            (Z.of_nat (length ids)) with
                    | Error s => fail s st
                    | Value work_groups =>
                        (ids' <- Prefill_work_groups work_groups ids ;;
                         if negb (Z.of_nat (length ids') =? 0) then
                           fail (MkStatus kInternal
                                   "Work groups not covering the entire prefill input.")
                         else ret tt) st
                    end
            end
      end
  end.

(** *** Decode *)

(** [Decode(const ExecutorInputs& inputs, TensorBuffer& output_logits)].
    The body does not use [output_logits]: the LLM run leaves the logits
    in [decode_output_buffers["logits"]] on the device. *)
Definition Decode_with_inputs (inputs : ExecutorInputs) : M unit :=
  fun st =>
    let id := next_input_token_id_ st in
    let selected : StatusOr Z :=
      match inputs with
      | Some token_ids =>
          let input_tensor_size := Size token_ids in
          if negb (input_tensor_size =? 0) then
            if negb (input_tensor_size =? 1 * 4) then
              Error (MkStatus RET_CHECK_argument_code EmptyString)
            else
              match elements token_ids !! 0%nat with
              | Some id0 => Value id0
              | None => Value id
              end
          else Value id
      | None => Value id
      end in
    match selected with
    | Error s => Some (Error s, st)
    | Value id =>
        if id =? -1 then
          Some (Error (InvalidArgumentError "No id available to be decoded."),
                st)
        else
          let st := set_next_input_token_id (-1) st in
          let b := decode_inputs st in
          tokens' ← store (tokens b) 0%nat id;
          input_pos' ← store (input_pos b) 0%nat (current_step_ st);
          time_step' ← store (time_step b) 0%nat (current_step_ st);
          let st := set_decode_inputs
                      (MkHostInputs tokens' input_pos' time_step') st in
          (RunSignature EmbedderSignatures.kDecodeEmbedder
             [(EmbedderSignatures.kEmbedderInput, tokens')]
             "Failed to run embedder model." ;;;
           RunSignature RopeSignatures.kDecodeRope
             [(RopeSignatures.kInputPos, input_pos')]
             "Failed to run RoPE model." ;;;
           RunSignature MaskSignatures.kDecodeMask
             [(MaskSignatures.kMaskInputTimeStep, time_step');
              (MaskSignatures.kMaskInputTokens, tokens')]
             "Failed to run compiled model." ;;;
           RunSignature LlmSignatures.kDecodeLlm []
             "Failed to run LLM model." ;;;
           RunSignature CacheUpdateSignatures.kDecodeCacheUpdate
             [(CacheUpdateSignatures.kInputPos, input_pos')]
             "Failed to run cache update model." ;;;
           (fun st =>
              if current_step_ st <? INT_MAX then
                Some (Value tt, set_current_step (current_step_ st + 1) st)
              else None)) st
    end.

(** The loop [for (int i = 1; i < logits.size(); ++i)] of the greedy
    sampling, over the elements from index [i] on. *)
Fixpoint argmax_loop (rest : list Z) (i max_index : nat) (max_value : Z)
    : nat :=
  match rest with
  | [] => max_index
  | v :: rest' =>
      if v >? max_value then argmax_loop rest' (S i) i v
      else argmax_loop rest' (S i) max_index max_value
  end.

(** [max_index] after the loop; reading [logits[0]] of an empty buffer is
    an access out of bounds: [None]. *)
Definition argmax (logits_buffer_int16 : list Z) : option nat :=
  match logits_buffer_int16 with
  | [] => None
  | v0 :: rest => Some (argmax_loop rest 1 0 v0)
  end.

(** [Decode(TensorBuffer& output_tokens)]: the returned value is the
    content of the caller's buffer after the call. *)
Definition Decode (output_tokens : list Z) : M (list Z) :=
  fun st =>
    match Decode_with_inputs None st with
    | None => None
    | Some (Error s, st) => Some (Error s, st)
    | Some (Value _, st) =>
        let logits_buffer_int16 := logits (device st) in
        max_index ← argmax logits_buffer_int16;
        let st := set_next_input_token_id (Z.of_nat max_index) st in
        let output_tokens' :=
          match Write output_tokens [Z.of_nat max_index] with
          | Value written => written
          | Error _ => output_tokens
          end in
        let l := latency_stats_ st in
        Some (Value output_tokens',
              set_latency_stats
                (MkLatencyStats (prefill_num_tokens l)
                                (decode_num_tokens l + 1)) st)
    end.

End Operations.

(** ** What a prefill hands to the accelerator *)

(** A buffer of [capacity] elements that holds [written] from its start
    and zeros after. *)
Definition padded (capacity : nat) (written : list Z) : list Z :=
  written ++ replicate (capacity - length written) 0.

(** The five runs of one prefill chunk on the host inputs [b], in the order
    [PrefillInternal] makes them. *)
Definition prefill_chunk_calls (b : HostInputs) : list RunCall :=
  [ (EmbedderSignatures.kPrefillEmbedder,
     [(EmbedderSignatures.kEmbedderInput, tokens b)]);
    (RopeSignatures.kPrefillRope, [(RopeSignatures.kInputPos, input_pos b)]);
    (MaskSignatures.kPrefillMask,
     [(MaskSignatures.kMaskInputTimeStep, time_step b);
      (MaskSignatures.kMaskInputTokens, tokens b)]);
    (LlmSignatures.kPrefillLlm, []);
    (CacheUpdateSignatures.kPrefillCacheUpdate,
     [(CacheUpdateSignatures.kInputPos, input_pos b)]) ].

(** The runs of a prefill that absorbs the token segments [segments], one
    per chunk, from step [step] on, with buffers of the capacities of
    [caps]: each chunk runs on its segment, on the positions of its tokens
    and on the step it starts at. *)
Fixpoint prefill_calls (caps : HostInputs) (step : Z) (segments : list (list Z))
    : list RunCall :=
  match segments with
  | [] => []
  | segment :: rest =>
      prefill_chunk_calls
        {| tokens := padded (length (tokens caps)) segment;
           input_pos := padded (length (input_pos caps))
                               (seqZ step (Z.of_nat (length segment)));
           time_step := padded (length (time_step caps)) [step] |}
      ++ prefill_calls caps (step + Z.of_nat (length segment)) rest
  end.

(** What the loop of [PrefillInternal] writes for the chunk [ids] entered
    with the token [pending]: the pending token if there is one and the
    loop runs at all, then the ids of the chunk but the last. *)
Definition chunk_tokens (pending : Z) (ids : list Z) : list Z :=
  (if negb (pending =? -1) && (0 <? length ids - 1)%nat then [pending] else [])
  ++ take (length ids - 1) ids.

(** The work groups under which no token is lost between chunks, for the
    ids [ids] and the token [pending] carried into the first chunk: a
    chunk entered with a pending token has at least two ids (the loop of
    [PrefillInternal] writes the pending token only when it runs), and the
    id that ends a chunk which is not the last is not the sentinel -1. *)
Fixpoint carry_over_kept (pending : Z) (work_groups : list (string * Z))
    (ids : list Z) : bool :=
  match work_groups with
  | [] => true
  | (_, prefill_length) :: rest =>
      let c := Z.to_nat (to_size_t prefill_length) in
      ((pending =? -1) || (2 <=? c)%nat)
      && match rest with
         | [] => true
         | _ :: _ =>
             match ids !! (c - 1)%nat with
             | Some last_id =>
                 negb (last_id =? -1)
                 && carry_over_kept last_id rest (drop c ids)
             | None => false
             end
         end
  end.

(** The token a decode step is to take by the specification: the caller's
    id when the caller gives exactly one, the pending token when the caller
    gives none. *)
Definition selected_token {compiled_models : CompiledModels}
    (inputs : ExecutorInputs) (st : State) : option Z :=
  match inputs with
  | None => Some (next_input_token_id_ st)
  | Some token_ids =>
      match elements token_ids with
      | [] => Some (next_input_token_id_ st)
      | [id] => Some id
      | _ :: _ :: _ => None
      end
  end.

(** [st'] differs from [st] in the device and in the log of runs at
    most. *)
Definition same_bookkeeping {compiled_models : CompiledModels}
    (st st' : State) : Prop :=
  current_step_ st' = current_step_ st
  /\ next_input_token_id_ st' = next_input_token_id_ st
  /\ prefill_signature_map_ st' = prefill_signature_map_ st
  /\ prefill_inputs st' = prefill_inputs st
  /\ decode_inputs st' = decode_inputs st
  /\ latency_stats_ st' = latency_stats_ st.

(** [k] is the index of a largest element of [l], and the first such. *)
Definition first_maximum (l : list Z) (k : nat) : Prop :=
  exists v, l !! k = Some v
            /\ forall j w, l !! j = Some w -> w <= v /\ ((j < k)%nat -> w < v).

(** ** Warm-up and the runs of a decode step *)

Section Warmup.
Context {compiled_models : CompiledModels}.
Local Open Scope exec_scope.

(** [WarmupInference]: every signature of the LLM, RoPE, mask and cache
    update subgraphs is run once, on the buffers of the contexts as they
    are. *)
Definition WarmupInference : M unit :=
  fun st =>
    let p := prefill_inputs st in
    let d := decode_inputs st in
    (RunSignature LlmSignatures.kPrefillLlm []
       "Inference warmup run for Gemma3 (prefill) failed." ;;;
     RunSignature LlmSignatures.kDecodeLlm []
       "Inference warmup run for Gemma3 (decode) failed." ;;;
     RunSignature RopeSignatures.kPrefillRope
       [(RopeSignatures.kInputPos, input_pos p)]
       "Inference warmup run for RoPE signature (prefill) failed." ;;;
     RunSignature RopeSignatures.kDecodeRope
       [(RopeSignatures.kInputPos, input_pos d)]
       "Inference warmup run for RoPE signature (decode) failed." ;;;
     RunSignature MaskSignatures.kPrefillMask
       [(MaskSignatures.kMaskInputTimeStep, time_step p);
        (MaskSignatures.kMaskInputTokens, tokens p)]
       "Inference warmup run for mask signature (prefill) failed." ;;;
     RunSignature MaskSignatures.kDecodeMask
       [(MaskSignatures.kMaskInputTimeStep, time_step d);
        (MaskSignatures.kMaskInputTokens, tokens d)]
       "Inference warmup run for mask signature (decode) failed." ;;;
     RunSignature CacheUpdateSignatures.kPrefillCacheUpdate
       [(CacheUpdateSignatures.kInputPos, input_pos p)]
       "Inference warmup run for cache update signature (prefill) failed." ;;;
     RunSignature CacheUpdateSignatures.kDecodeCacheUpdate
       [(CacheUpdateSignatures.kInputPos, input_pos d)]
       "Inference warmup run for cache update signature (decode) failed.") st.

End Warmup.

(** The eight runs of the warm-up on the prefill inputs [p] and the decode
    inputs [d], in the order [WarmupInference] makes them. *)
Definition warmup_calls (p d : HostInputs) : list RunCall :=
  [ (LlmSignatures.kPrefillLlm, []);
    (LlmSignatures.kDecodeLlm, []);
    (RopeSignatures.kPrefillRope, [(RopeSignatures.kInputPos, input_pos p)]);
    (RopeSignatures.kDecodeRope, [(RopeSignatures.kInputPos, input_pos d)]);
    (MaskSignatures.kPrefillMask,
     [(MaskSignatures.kMaskInputTimeStep, time_step p);
      (MaskSignatures.kMaskInputTokens, tokens p)]);
    (MaskSignatures.kDecodeMask,
     [(MaskSignatures.kMaskInputTimeStep, time_step d);
      (MaskSignatures.kMaskInputTokens, tokens d)]);
    (CacheUpdateSignatures.kPrefillCacheUpdate,
     [(CacheUpdateSignatures.kInputPos, input_pos p)]);
    (CacheUpdateSignatures.kDecodeCacheUpdate,
     [(CacheUpdateSignatures.kInputPos, input_pos d)]) ].

(** The five runs of one decode step on the host inputs [b], in the order
    [Decode] makes them. *)
Definition decode_step_calls (b : HostInputs) : list RunCall :=
  [ (EmbedderSignatures.kDecodeEmbedder,
     [(EmbedderSignatures.kEmbedderInput, tokens b)]);
    (RopeSignatures.kDecodeRope, [(RopeSignatures.kInputPos, input_pos b)]);
    (MaskSignatures.kDecodeMask,
     [(MaskSignatures.kMaskInputTimeStep, time_step b);
      (MaskSignatures.kMaskInputTokens, tokens b)]);
    (LlmSignatures.kDecodeLlm, []);
    (CacheUpdateSignatures.kDecodeCacheUpdate,
     [(CacheUpdateSignatures.kInputPos, input_pos b)]) ].

(** The decode inputs after the token [id] and the step [step] are written
    at their first elements. *)
Definition decode_inputs_with (id step : Z) (b : HostInputs) : HostInputs :=
  MkHostInputs (<[0%nat := id]> (tokens b)) (<[0%nat := step]> (input_pos b))
               (<[0%nat := step]> (time_step b)).

(** Every run on the accelerator succeeds. *)
Definition always_runs (compiled_models : CompiledModels) : Prop :=
  forall signature inputs dev, fst (Run signature inputs dev) = Done.

(** The lengths of the work groups as [size_t]. *)
Definition work_group_lengths (work_groups : list (string * Z)) : list nat :=
  (fun wg => Z.to_nat (to_size_t (snd wg))) <$> work_groups.

(** What no call on the executor changes: the prefill signature map and
    the capacities of the host input buffers; and [current_step] does not
    go down. *)
Definition kept {compiled_models : CompiledModels} (st st' : State) : Prop :=
  prefill_signature_map_ st' = prefill_signature_map_ st
  /\ length (tokens (prefill_inputs st')) = length (tokens (prefill_inputs st))
  /\ length (input_pos (prefill_inputs st'))
     = length (input_pos (prefill_inputs st))
  /\ length (time_step (prefill_inputs st'))
     = length (time_step (prefill_inputs st))
  /\ length (tokens (decode_inputs st')) = length (tokens (decode_inputs st))
  /\ length (input_pos (decode_inputs st'))
     = length (input_pos (decode_inputs st))
  /\ length (time_step (decode_inputs st'))
     = length (time_step (decode_inputs st))
  /\ current_step_ st <= current_step_ st'.

(** ** The executor after Create, and concrete collaborators *)

(** The map [Create] installs: one prefill length. *)
Definition prefill_runner_set : list (Z * string) :=
  [(kPrefillSize, kPrefillSignature)].

(** The executor after [Create] on a device in state [dev]: nothing
    absorbed, no pending token, buffers of the sizes of the [_128]
    signatures, zeroed. *)
Definition Create {compiled_models : CompiledModels} (dev : Dev) : State :=
  {| current_step_ := 0;
     next_input_token_id_ := -1;
     prefill_signature_map_ := prefill_runner_set;
     prefill_inputs :=
       MkHostInputs (replicate 128 0) (replicate 128 0) (replicate 1 0);
     decode_inputs :=
       MkHostInputs (replicate 1 0) (replicate 1 0) (replicate 1 0);
     latency_stats_ := MkLatencyStats 0 0;
     device := dev;
     run_log := [] |}.

(** Modelled from the spec: [GetOptimizedPrefillWorkGroups] is not among
    the sources; "decompose N into a sequence of chunks where each chunk
    length is one of the available prefill lengths ... the greedy
    largest-first fit".  The lengths come largest first. *)
Fixpoint greedy_largest_first (runners : list (Z * string)) (n : Z)
    : list (string * Z) :=
  match runners with
  | [] => []
  | (len, signature) :: rest =>
      if 0 <? len then
        replicate (Z.to_nat (n / len)) (signature, len)
          ++ greedy_largest_first rest (n mod len)
      else greedy_largest_first rest n
  end.

Definition greedy_utils : ExecutorUtils :=
  {| GetOptimizedPrefillWorkGroups :=
       fun runners n => Value (greedy_largest_first runners n) |}.

(** A device on which every run succeeds and the logits never change. *)
Definition steady_device (logits_buffer : list Z) : CompiledModels :=
  {| Dev := unit;
     Run := fun _ _ dev => (Done, dev);
     logits := fun _ => logits_buffer |}.

(** A device on which the runs of one signature fail. *)
Definition faulty_device (bad_signature : string) (logits_buffer : list Z)
    : CompiledModels :=
  {| Dev := unit;
     Run := fun signature _ dev =>
              if String.eqb signature bad_signature
              then (Unexpected "device error", dev)
              else (Done, dev);
     logits := fun _ => logits_buffer |}.

(** A prompt of 256 token ids, and one in which the id that ends the
    first chunk of 128 is the sentinel -1. *)
Definition prompt_256 : list Z := seqZ 1000 256.

Definition prompt_with_sentinel : list Z :=
  seqZ 1000 127 ++ [-1] ++ seqZ 2000 128.

Definition token_tensor (ids : list Z) : TensorBuffer :=
  MkTensor [1; Z.of_nat (length ids)] ids.

(** A device that never fails, with logits 1 5 5 2, and the executor
    created on it. *)
Definition steady : CompiledModels := steady_device [1; 5; 5; 2].

Definition steady_executor : State (compiled_models := steady) :=
  Create (compiled_models := steady) tt.

(** A device whose RoPE prefill run fails, and the executor created on
    it. *)
Definition faulty_rope : CompiledModels :=
  faulty_device RopeSignatures.kPrefillRope [1; 5; 5; 2].

Definition faulty_rope_executor : State (compiled_models := faulty_rope) :=
  Create (compiled_models := faulty_rope) tt.

(** A device whose RoPE decode run fails, and the executor created on it
    with the token 9 pending. *)
Definition faulty_decode_rope : CompiledModels :=
  faulty_device RopeSignatures.kDecodeRope [1; 5; 5; 2].

Definition faulty_decode_rope_executor
    : State (compiled_models := faulty_decode_rope) :=
  set_next_input_token_id 9 (Create (compiled_models := faulty_decode_rope) tt).

End Executor.

(* ================================================================== *)
(** * The executor with the error returns of the tensor library *)
(* ================================================================== *)

Module ExecutorWithLibrary.
Import Executor.

(** The host buffers the executor locks to write its inputs. *)
Inductive HostBuffer : Type :=
| PrefillTokens
| PrefillInputPos
| PrefillTimeStep
| DecodeTokens
| DecodeInputPos
| DecodeTimeStep.

(** The calls into the tensor library whose result the executor tests:
    [Size()] and [TensorBufferScopedLock::Create] on a host buffer;
    [TensorType()], [Size()] and [ReferTensorBufferAsSpan<int32_t>] on the
    caller's tensor of token ids; [CopyFromTensorBuffer<int16_t>] on the
    logits. *)
Inductive LibraryCall : Type :=
| BufferSize (buffer : HostBuffer)
| ScopedLock (buffer : HostBuffer)
| InputTensorType (token_ids : TensorBuffer)
| InputSize (token_ids : TensorBuffer)
| InputAsSpan (token_ids : TensorBuffer)
| CopyLogits.

(** The tensor library.  [failure call dev] is the status that
    [LITERT_ASSIGN_OR_RETURN] returns when [call] fails with the device in
    state [dev], and [None] when the call succeeds.  A call into the library
    leaves the device as it is. *)
Class TensorLibrary {compiled_models : CompiledModels} : Type := {
  failure : LibraryCall -> Dev -> option Status
}.

(** No call into the library fails. *)
Definition library_succeeds {compiled_models : CompiledModels}
    (library : TensorLibrary) : Prop :=
  forall call dev, failure call dev = None.

Section Operations.
Context {compiled_models : CompiledModels} {utils : ExecutorUtils}
        {library : TensorLibrary}.
Local Open Scope exec_scope.

(** [LITERT_ASSIGN_OR_RETURN(auto x, call)]: the function returns the
    status of a failed call, with the executor as it is. *)
Definition ASSIGN_OR_RETURN (call : LibraryCall) : M unit :=
  fun st =>
    match failure call (device st) with
    | Some s => Some (Error s, st)
    | None => Some (Value tt, st)
    end.

(** [PrefillInternal]: the sizes and the locks of the three buffers are
    taken first, each with its error return; what follows, from the
    [memset]s on, is [Executor.PrefillInternal]. *)
Definition PrefillInternal (prefill_signature : string) (ids : list Z)
    : M unit :=
  ASSIGN_OR_RETURN (BufferSize PrefillTokens) ;;;
  ASSIGN_OR_RETURN (ScopedLock PrefillTokens) ;;;
  ASSIGN_OR_RETURN (BufferSize PrefillInputPos) ;;;
  ASSIGN_OR_RETURN (ScopedLock PrefillInputPos) ;;;
  ASSIGN_OR_RETURN (BufferSize PrefillTimeStep) ;;;
  ASSIGN_OR_RETURN (ScopedLock PrefillTimeStep) ;;;
  Executor.PrefillInternal prefill_signature ids.

(** The loop of [Prefill] over the work groups. *)
Fixpoint Prefill_work_groups (work_groups : list (string * Z)) (ids : list Z)
    : M (list Z) :=
  match work_groups with
  | [] => ret ids
  | (prefill_signature, prefill_length) :: rest =>
      match subspan 0 (Some (to_size_t prefill_length)) ids with
      | None => undefined
      | Some chunk =>
          PrefillInternal prefill_signature chunk ;;;
          match subspan (to_size_t prefill_length) npos ids with
          | None => undefined
          | Some ids' =>
              add_prefill_num_tokens kPrefillSize ;;;
              Prefill_work_groups rest ids'
          end
      end
  end.

(** [Prefill]. *)
Definition Prefill (inputs : ExecutorInputs) : M unit :=
  match inputs with
  | None => undefined
  | Some token_ids =>
      ASSIGN_OR_RETURN (InputTensorType token_ids) ;;;
      match Dimensions token_ids !! 0%nat with
      | None => undefined
      | Some batch =>
          if negb (batch =? 1) then
            fail (MkStatus RET_CHECK_argument_code EmptyString)
          else
            match Dimensions token_ids !! 1%nat with
            | None => undefined
            | Some num_tokens =>
                if negb (num_tokens >? 0) then
                  fail (MkStatus RET_CHECK_argument_code
                                 "Prefill token ids must be non-empty.")
                else
                  ASSIGN_OR_RETURN (InputAsSpan token_ids) ;;;
                  let ids := elements token_ids in
                  fun st =>
                    match GetOptimizedPrefillWorkGroups
                            (prefill_signature_map_ st)
                            (Z.of_nat (length ids)) with
                    | Error s => fail s st
                    | Value work_groups =>
                        (ids' <- Prefill_work_groups work_groups ids ;;
                         if negb (Z.of_nat (length ids') =? 0) then
                           fail (MkStatus kInternal
                                   "Work groups not covering the entire prefill input.")
                         else ret tt) st
                    end
            end
      end
  end.

(** The token a decode step takes: [if (input_tensor_size &&
    *input_tensor_size != 0)] passes over a caller tensor whose [Size()]
    fails; a failure of [ReferTensorBufferAsSpan] is returned. *)
Definition Decode_select (inputs : ExecutorInputs) (st : State)
    : StatusOr Z :=
  let id := next_input_token_id_ st in
  match inputs with
  | Some token_ids =>
      match failure (InputSize token_ids) (device st) with
      | Some _ => Value id
      | None =>
          let input_tensor_size := Size token_ids in
          if negb (input_tensor_size =? 0) then
            if negb (input_tensor_size =? 1 * 4) then
              Error (MkStatus RET_CHECK_argument_code EmptyString)
            else
              match failure (InputAsSpan token_ids) (device st) with
              | Some s => Error s
              | None =>
                  match elements token_ids !! 0%nat with
                  | Some id0 => Value id0
                  | None => Value id
                  end
              end
          else Value id
      end
  | None => Value id
  end.

(** [ptr[0] = v] on each of the locked decode buffers. *)
Definition write_decode_tokens (v : Z) : M unit :=
  fun st =>
    let b := decode_inputs st in
    tokens' ← store (tokens b) 0%nat v;
    Some (Value tt,
          set_decode_inputs (MkHostInputs tokens' (input_pos b) (time_step b))
                            st).

Definition write_decode_input_pos (v : Z) : M unit :=
  fun st =>
    let b := decode_inputs st in
    input_pos' ← store (input_pos b) 0%nat v;
    Some (Value tt,
          set_decode_inputs (MkHostInputs (tokens b) input_pos' (time_step b))
                            st).

Definition write_decode_time_step (v : Z) : M unit :=
  fun st =>
    let b := decode_inputs st in
    time_step' ← store (time_step b) 0%nat v;
    Some (Value tt,
          set_decode_inputs (MkHostInputs (tokens b) (input_pos b) time_step')
                            st).

(** The five runs of a decode step, on the buffers as they are, and the
    increment of [current_step_]. *)
Definition Decode_run_stages : M unit :=
  fun st =>
    let b := decode_inputs st in
    (RunSignature EmbedderSignatures.kDecodeEmbedder
       [(EmbedderSignatures.kEmbedderInput, tokens b)]
       "Failed to run embedder model." ;;;
     RunSignature RopeSignatures.kDecodeRope
       [(RopeSignatures.kInputPos, input_pos b)]
       "Failed to run RoPE model." ;;;
     RunSignature MaskSignatures.kDecodeMask
       [(MaskSignatures.kMaskInputTimeStep, time_step b);
        (MaskSignatures.kMaskInputTokens, tokens b)]
       "Failed to run compiled model." ;;;
     RunSignature LlmSignatures.kDecodeLlm []
       "Failed to run LLM model." ;;;
     RunSignature CacheUpdateSignatures.kDecodeCacheUpdate
       [(CacheUpdateSignatures.kInputPos, input_pos b)]
       "Failed to run cache update model." ;;;
     (fun st =>
        if current_step_ st <? INT_MAX then
          Some (Value tt, set_current_step (current_step_ st + 1) st)
        else None)) st.

(** [Decode(const ExecutorInputs& inputs, TensorBuffer& output_logits)]:
    after [next_input_token_id_] is invalidated, each of the three buffers
    is locked and written in its turn. *)
Definition Decode_with_inputs (inputs : ExecutorInputs) : M unit :=
  fun st =>
    match Decode_select inputs st with
    | Error s => Some (Error s, st)
    | Value id =>
        if id =? -1 then
          Some (Error (InvalidArgumentError "No id available to be decoded."),
                st)
        else
          let st := set_next_input_token_id (-1) st in
          (ASSIGN_OR_RETURN (ScopedLock DecodeTokens) ;;;
           write_decode_tokens id ;;;
           ASSIGN_OR_RETURN (ScopedLock DecodeInputPos) ;;;
           write_decode_input_pos (current_step_ st) ;;;
           ASSIGN_OR_RETURN (ScopedLock DecodeTimeStep) ;;;
           write_decode_time_step (current_step_ st) ;;;
           Decode_run_stages) st
    end.

(** [Decode(TensorBuffer& output_tokens)]. *)
Definition Decode (output_tokens : list Z) : M (list Z) :=
  fun st =>
    match Decode_with_inputs None st with
    | None => None
    | Some (Error s, st) => Some (Error s, st)
    | Some (Value _, st) =>
        match failure CopyLogits (device st) with
        | Some s => Some (Error s, st)
        | None =>
            let logits_buffer_int16 := logits (device st) in
            max_index ← argmax logits_buffer_int16;
            let st := set_next_input_token_id (Z.of_nat max_index) st in
            let output_tokens' :=
              match Write output_tokens [Z.of_nat max_index] with
              | Value written => written
              | Error _ => output_tokens
              end in
            let l := latency_stats_ st in
            Some (Value output_tokens',
                  set_latency_stats
                    (MkLatencyStats (prefill_num_tokens l)
                                    (decode_num_tokens l + 1)) st)
        end
    end.

End Operations.

(** A library none of whose calls fails, and one in which locking one
    buffer fails. *)
Definition reliable_library {compiled_models : CompiledModels}
    : TensorLibrary :=
  {| failure := fun _ _ => None |}.



End ExecutorWithLibrary.

(* ================================================================== *)
(** * Properties *)
(* ================================================================== *)

(** ** Strings *)

Module StringFacts.

#[local] Arguments String.append !_ _ / : simpl nomatch.

Lemma append_assoc (a b c : string) : (a +:+ b) +:+ c = a +:+ (b +:+ c).
Proof. induction a as [|x a IH]; simpl; [reflexivity | f_equal; exact IH]. Qed.

Lemma append_empty_r (a : string) : a +:+ EmptyString = a.
Proof. induction a as [|x a IH]; simpl; [reflexivity | f_equal; exact IH]. Qed.

Lemma length_append (a b : string) :
  String.length (a +:+ b) = (String.length a + String.length b)%nat.
Proof. induction a as [|x a IH]; simpl; [reflexivity | f_equal; exact IH]. Qed.

Lemma substring_all (s : string) : substring 0 (String.length s) s = s.
Proof. induction s as [|x s IH]; simpl; [reflexivity | f_equal; exact IH]. Qed.

Lemma substring_skip (p s : string) (n : nat) :
  substring (String.length p) n (p +:+ s) = substring 0 n s.
Proof. induction p as [|x p IH]; simpl; [reflexivity | exact IH]. Qed.

(** A string is its first [k] characters followed by the rest. *)
Lemma substring_split (s : string) (k : nat) :
  (k <= String.length s)%nat ->
  s = substring 0 k s +:+ substring k (String.length s - k) s.
Proof.
  revert k. induction s as [|x s IH]; intros k Hk; simpl in *.
  - destruct k; [reflexivity | lia].
  - destruct k as [|k]; simpl.
    + now rewrite substring_all.
    + f_equal. apply IH. lia.
Qed.

Lemma occurs_in_refl (s : string) : occurs_in s s.
Proof. exists EmptyString, EmptyString. simpl. now rewrite append_empty_r. Qed.

Lemma occurs_in_append_l (s t u : string) :
  occurs_in s t -> occurs_in s (u +:+ t).
Proof.
  intros (pre & post & ->). exists (u +:+ pre), post.
  now rewrite append_assoc.
Qed.

Lemma occurs_in_append_r (s t u : string) :
  occurs_in s t -> occurs_in s (t +:+ u).
Proof.
  intros (pre & post & ->). exists pre, (post +:+ u).
  now rewrite !append_assoc.
Qed.

(** Every part of a join occurs in it. *)
Lemma StrJoin_occurs (parts : list string) (sep f : string) :
  f ∈ parts -> occurs_in f (StrJoin parts sep).
Proof.
  induction parts as [|p rest IH]; intros Hin.
  - inversion Hin.
  - destruct rest as [|q rest'].
    + apply list_elem_of_singleton in Hin as ->. apply occurs_in_refl.
    + change (StrJoin (p :: q :: rest') sep)
        with (p +:+ sep +:+ StrJoin (q :: rest') sep).
      apply elem_of_cons in Hin as [-> | Hin].
      * apply occurs_in_append_r, occurs_in_refl.
      * apply occurs_in_append_l, occurs_in_append_l, IH, Hin.
Qed.

End StringFacts.

(** ** Responses *)

Module ResponsesFacts.
Import Responses.

(** Writing texts leaves the scores alone. *)
Lemma calls_text_writes (cs : list Call) (r : t) :
  forallb is_text_write cs = true ->
  scores_ (calls cs r) = scores_ r
  /\ num_output_candidates_ (calls cs r) = num_output_candidates_ r.
Proof.
  revert r. induction cs as [|c cs IH]; intros r Hcs; simpl in *.
  - split; reflexivity.
  - apply andb_prop in Hcs as [Hc Hcs].
    destruct c; [|discriminate].
    destruct (IH (write_response_texts texts r) Hcs) as [H1 H2].
    split; [exact H1 | exact H2].
Qed.

(** Once allocated and not written to, the scores stay as allocated. *)
Lemma calls_keep_allocated (cs : list Call) (r : t) (s0 : float) (ss : list float) :
  scores_ r = s0 :: ss ->
  scores_ (calls cs r) = s0 :: ss.
Proof.
  revert r. induction cs as [|c cs IH]; intros r Hr; simpl; [exact Hr|].
  apply IH. destruct c; simpl; [exact Hr|].
  unfold GetMutableScores. now rewrite Hr.
Qed.

Lemma GetScoreAt_replicate (r : t) (n : nat) (index : Z) :
  scores_ r = replicate n neg_infinity ->
  0 <= index < Z.of_nat n ->
  GetScoreAt r index = Value neg_infinity.
Proof.
  intros Hs Hi. unfold GetScoreAt. rewrite Hs.
  destruct n as [|n]; [lia|].
  change (replicate (S n) neg_infinity)
    with (neg_infinity :: replicate n neg_infinity).
  cbv beta iota.
  change (neg_infinity :: replicate n neg_infinity)
    with (replicate (S n) neg_infinity).
  rewrite length_replicate.
  replace (index <? 0) with false by lia.
  replace (index >=? Z.of_nat (S n)) with false by lia.
  cbv [orb]. f_equal. apply nth_lookup_Some with (d := neg_infinity).
  apply lookup_replicate_2. lia.
Qed.

(** C10.  For a [Responses] object constructed with a positive number of
    candidates: as long as [GetMutableScores] has not been called (texts may
    have been written), [GetScoreAt] returns InvalidArgument at every index,
    in range or not; after the first [GetMutableScores], as long as nothing
    is written to the scores vector (texts may be written and
    [GetMutableScores] called again), [GetScoreAt] returns negative infinity
    at every index from 0 below the number of candidates. *)
Theorem GetScoreAt_before_and_after_GetMutableScores :
  forall (num_candidates : Z) (r : t) (before after : list Call) (index : Z),
    0 < num_candidates ->
    Responses num_candidates = Some r ->
    forallb is_text_write before = true ->
    (exists msg,
        GetScoreAt (calls before r) index = Error (InvalidArgumentError msg))
    /\ (0 <= index < num_candidates ->
        GetScoreAt (calls after (GetMutableScores (calls before r))) index
        = Value neg_infinity).
Proof.
  intros n r before after index Hn Hr Hbefore.
  unfold Responses in Hr. destruct (n <? 0) eqn:En; [lia|].
  assert (Hsr : scores_ r = [] /\ num_output_candidates_ r = n)
    by (injection Hr as <-; split; reflexivity).
  destruct Hsr as [Hsr Hnr]. clear Hr.
  destruct (calls_text_writes before r Hbefore) as [Hs Hnum].
  rewrite Hsr in Hs. rewrite Hnr in Hnum. split.
  - unfold GetScoreAt. rewrite Hs. eexists. reflexivity.
  - intros Hi.
    assert (Halloc : scores_ (GetMutableScores (calls before r))
                     = replicate (Z.to_nat n) neg_infinity).
    { unfold GetMutableScores. rewrite Hs. simpl. now rewrite Hnum. }
    apply GetScoreAt_replicate with (n := Z.to_nat n); [|lia].
    destruct (Z.to_nat n) as [|k] eqn:Ek; [lia|].
    cbn [replicate] in *. now apply calls_keep_allocated.
Qed.

Lemma GetScoreAt_before_and_after_GetMutableScores_witness :
  (exists msg,
      GetScoreAt (calls [CallWriteResponseTexts ["a"; "b"]]
                    {| num_output_candidates_ := 2;
                       response_texts_ := [EmptyString; EmptyString];
                       scores_ := [] |}) 1
      = Error (InvalidArgumentError msg))
  /\ GetScoreAt
       (calls [CallGetMutableScores; CallWriteResponseTexts ["c"]]
          (GetMutableScores
             (calls [CallWriteResponseTexts ["a"; "b"]]
                {| num_output_candidates_ := 2;
                   response_texts_ := [EmptyString; EmptyString];
                   scores_ := [] |}))) 1
     = Value neg_infinity.
Proof.
  destruct (GetScoreAt_before_and_after_GetMutableScores 2
              {| num_output_candidates_ := 2;
                 response_texts_ := [EmptyString; EmptyString];
                 scores_ := [] |}
              [CallWriteResponseTexts ["a"; "b"]]
              [CallGetMutableScores; CallWriteResponseTexts ["c"]]
              1 ltac:(lia) eq_refl eq_refl) as [H1 H2].
  split; [exact H1 | apply H2; lia].
Defined.

End ResponsesFacts.

(** ** BenchmarkInfo *)

Module BenchmarkInfoFacts.
Import BenchmarkInfo.

(** A call leaves [start_time_map_] as it is, or inserts its start key. *)
Lemma call_start_time_map (c : Call) (b : t) :
  start_time_map_ (snd (call c b)) = start_time_map_ b
  \/ exists key now,
       start_key c b = Some key
       /\ start_time_map_ (snd (call c b)) = <[key := now]> (start_time_map_ b).
Proof.
  destruct c; simpl;
    unfold TimeInitPhaseStart, TimeInitPhaseEnd, TimeMarkDelta,
      TimePrefillTurnStart, TimePrefillTurnEnd, TimeDecodeTurnStart,
      TimeDecodeTurnEnd;
    try (destruct (start_time_map_ b !! _); simpl; eauto).
  left. reflexivity.
Qed.

(** No call removes a key of [start_time_map_]. *)
Lemma calls_keep_started (cs : list Call) (b : t) (k : string) :
  is_Some (start_time_map_ b !! k) ->
  is_Some (start_time_map_ (calls cs b) !! k).
Proof.
  revert b. induction cs as [|c cs IH]; intros b Hk; simpl; [exact Hk|].
  apply IH.
  destruct (call_start_time_map c b) as [-> | (key & now & _ & ->)];
    [exact Hk|].
  rewrite lookup_insert_is_Some. destruct (decide (key = k)); auto.
Qed.

(** A key that no call started is not in [start_time_map_]. *)
Lemma calls_not_started (cs : list Call) (b : t) (k : string) :
  start_time_map_ b !! k = None ->
  k ∉ started_keys cs b ->
  start_time_map_ (calls cs b) !! k = None.
Proof.
  revert b. induction cs as [|c cs IH]; intros b Hk Hcs; simpl; [exact Hk|].
  simpl in Hcs.
  destruct (call_start_time_map c b) as [E | (key & now & Hkey & E)].
  - apply IH; [now rewrite E|].
    destruct (start_key c b); [|exact Hcs].
    apply not_elem_of_cons in Hcs. tauto.
  - rewrite Hkey in Hcs. apply not_elem_of_cons in Hcs as [Hne Hcs].
    apply IH; [|exact Hcs]. rewrite E. now rewrite lookup_insert_ne.
Qed.

Lemma TimeInitPhaseStart_started (name : string) (now : Time) (b : t) :
  is_Some (start_time_map_ (snd (TimeInitPhaseStart name now b)) !! name).
Proof.
  unfold TimeInitPhaseStart.
  destruct (start_time_map_ b !! name) eqn:E; simpl.
  - rewrite E. eauto.
  - rewrite lookup_insert_eq. eauto.
Qed.

(** C9 (as amended).  A second [TimeInitPhaseStart(name)] after a first one
    returns Internal and leaves the recorder as it was, whatever calls were
    made before the first and between the two (so also when no
    [TimeInitPhaseEnd(name)] lies between them).  [TimeInitPhaseEnd(name)]
    on a recorder on which no call has started the key [name] (no
    [TimeInitPhaseStart(name)], and no prefill or decode turn start whose
    key "prefill:<i>" / "decode:<i>" is [name]) returns Internal and leaves
    the recorder as it was. *)
Theorem init_phase_start_end_errors :
  forall (before between : list Call) (phase_name : string) (now1 now2 : Time),
    (let b := calls between
                (snd (TimeInitPhaseStart phase_name now1
                        (calls before BenchmarkInfo))) in
     exists msg, TimeInitPhaseStart phase_name now2 b = (InternalError msg, b))
    /\ (phase_name ∉ started_keys before BenchmarkInfo ->
        let b := calls before BenchmarkInfo in
        exists msg, TimeInitPhaseEnd phase_name now2 b = (InternalError msg, b)).
Proof.
  intros before between name now1 now2. split.
  - intros b.
    assert (Hs : is_Some (start_time_map_ b !! name))
      by apply calls_keep_started, TimeInitPhaseStart_started.
    destruct Hs as [started Hs]. clearbody b.
    unfold TimeInitPhaseStart.
    destruct (start_time_map_ b !! name); [|discriminate Hs].
    eexists. reflexivity.
  - intros Hnot b.
    assert (Hn : start_time_map_ b !! name = None)
      by (apply calls_not_started; [reflexivity | exact Hnot]).
    clearbody b. unfold TimeInitPhaseEnd.
    destruct (start_time_map_ b !! name); [discriminate Hn|].
    eexists. reflexivity.
Qed.

Lemma init_phase_start_end_errors_witness :
  (exists msg,
      TimeInitPhaseStart "load" 40
        (calls [CallInitPhaseEnd "other" 30; CallMarkDelta "m" 31 32]
           (snd (TimeInitPhaseStart "load" 20
                   (calls [CallPrefillTurnStart 10] BenchmarkInfo))))
      = (InternalError msg,
         calls [CallInitPhaseEnd "other" 30; CallMarkDelta "m" 31 32]
           (snd (TimeInitPhaseStart "load" 20
                   (calls [CallPrefillTurnStart 10] BenchmarkInfo)))))
  /\ (exists msg,
         TimeInitPhaseEnd "load" 40 (calls [CallPrefillTurnStart 10] BenchmarkInfo)
         = (InternalError msg, calls [CallPrefillTurnStart 10] BenchmarkInfo)).
Proof.
  destruct (init_phase_start_end_errors
              [CallPrefillTurnStart 10]
              [CallInitPhaseEnd "other" 30; CallMarkDelta "m" 31 32]
              "load" 20 40) as [H1 H2].
  split.
  - apply H1.
  - apply H2. vm_compute. intros H.
    apply list_elem_of_singleton in H. discriminate H.
Defined.

(** The claim as stated fails: after [TimePrefillTurnStart()] on a fresh
    recorder, no [TimeInitPhaseStart("prefill:0")] has been made, and yet
    [TimeInitPhaseEnd("prefill:0")] returns OK and records an init phase. *)
Lemma TimeInitPhaseEnd_after_turn_start_counterexample :
  let history := [CallPrefillTurnStart 10] in
  let b := calls history BenchmarkInfo in
  existsb (is_init_phase_start "prefill:0") history = false
  /\ fst (TimeInitPhaseEnd "prefill:0" 25 b) = OkStatus
  /\ init_phases_ b !! "prefill:0" = None
  /\ init_phases_ (snd (TimeInitPhaseEnd "prefill:0" 25 b)) !! "prefill:0"
     = Some 15
  /\ ~ (exists msg, TimeInitPhaseEnd "prefill:0" 25 b = (InternalError msg, b)).
Proof.
  cbv zeta. repeat split; try (vm_compute; reflexivity).
  intros [msg H]. apply (f_equal fst) in H. vm_compute in H. discriminate H.
Qed.

End BenchmarkInfoFacts.

(** ** ModelAssetBundleResources *)

Module ModelAssetBundleResourcesFacts.
Import ModelAssetBundleResources StringFacts.

Lemma elem_of_ListFiles (b : t) (name : string) :
  name ∈ ListFiles b <-> is_Some (files_ b !! name).
Proof.
  unfold ListFiles. rewrite list_elem_of_fmap. split.
  - intros ([k v] & -> & Hin). apply elem_of_map_to_list in Hin.
    simpl. eauto.
  - intros [v Hv]. exists (name, v). split; [reflexivity|].
    now apply elem_of_map_to_list.
Qed.

(** C6.  [GetFile(name)] succeeds exactly for the names [ListFiles()]
    returns, and then gives the entry stored under the name; for any other
    name it returns NotFound with a message in which every file name of the
    bundle occurs. *)
Theorem GetFile_succeeds_exactly_on_ListFiles :
  forall (b : t) (name : string),
    (ok (GetFile b name) = true <-> name ∈ ListFiles b)
    /\ (forall contents,
           GetFile b name = Value contents <-> files_ b !! name = Some contents)
    /\ (name ∉ ListFiles b ->
        exists msg,
          GetFile b name = Error (NotFoundError msg)
          /\ forall f, f ∈ ListFiles b -> occurs_in f msg).
Proof.
  intros b name. rewrite elem_of_ListFiles. unfold GetFile.
  destruct (files_ b !! name) as [contents|] eqn:E; simpl.
  - split; [|split].
    + split; eauto.
    + intros c. split; congruence.
    + intros H. exfalso. apply H. eauto.
  - split; [|split].
    + split; [discriminate | intros [? ?]; discriminate].
    + intros c. split; discriminate.
    + intros _. eexists. split; [reflexivity|].
      intros f Hf. do 3 apply occurs_in_append_l.
      apply occurs_in_append_r, StrJoin_occurs, Hf.
Qed.

Lemma GetFile_succeeds_exactly_on_ListFiles_witness :
  ListFiles two_files = ["a.tflite"; "b.json"]
  /\ GetFile two_files "b.json" = Value "{}"
  /\ exists msg,
       GetFile two_files "nope.bin" = Error (NotFoundError msg)
       /\ occurs_in "a.tflite" msg /\ occurs_in "b.json" msg.
Proof.
  destruct (GetFile_succeeds_exactly_on_ListFiles two_files "nope.bin")
    as (_ & _ & H).
  destruct (GetFile_succeeds_exactly_on_ListFiles two_files "b.json")
    as (_ & Hb & _).
  split; [vm_compute; reflexivity|].
  split; [apply Hb; vm_compute; reflexivity|].
  destruct H as (msg & Hmsg & Hall).
  - vm_compute. intros Hin.
    repeat (apply elem_of_cons in Hin as [Hin | Hin]; [discriminate Hin|]).
    inversion Hin.
  - exists msg. split; [exact Hmsg|].
    split; apply Hall; vm_compute.
    + apply list_elem_of_here.
    + apply list_elem_of_further, list_elem_of_here.
Defined.

End ModelAssetBundleResourcesFacts.

(** ** HuggingFaceTokenizer *)

Module HuggingFaceTokenizerFacts.
Import Tokenizer HuggingFaceTokenizer StringFacts.

(** [ends_with] holds exactly of the strings that are a prefix followed by
    the suffix. *)
Lemma ends_with_spec (s suffix : string) :
  ends_with s suffix = true <-> exists prefix, s = prefix +:+ suffix.
Proof.
  unfold ends_with. rewrite andb_true_iff, String.eqb_eq. split.
  - intros [Hle Hsub].
    exists (substring 0 (String.length s - String.length suffix) s).
    pose proof (substring_split s
                  (String.length s - String.length suffix) ltac:(lia)) as Hs.
    replace (String.length s - (String.length s - String.length suffix))%nat
      with (String.length suffix) in Hs by lia.
    rewrite Hsub in Hs. exact Hs.
  - intros [prefix ->]. rewrite length_append. split; [lia|].
    replace (String.length prefix + String.length suffix
             - String.length suffix)%nat
      with (String.length prefix) by lia.
    rewrite substring_skip. apply substring_all.
Qed.

(** C7.  [TokenIdsToText] returns the error that
    [IsIncompleteBpeSequence] recognises if and only if the decoded string
    ends with the bytes of U+FFFD; otherwise it returns the decoded
    string. *)
Theorem TokenIdsToText_incomplete_bpe_iff :
  forall (tokenizer_ : TokenizersCpp) (token_ids : list Z),
    (IsIncompleteBpeSequence (TokenIdsToText token_ids) = true
     <-> exists prefix, Decode token_ids = prefix +:+ kReplacementCharacter)
    /\ ((~ exists prefix, Decode token_ids = prefix +:+ kReplacementCharacter)
        -> TokenIdsToText token_ids = Value (Decode token_ids)).
Proof.
  intros tk ids. rewrite <- ends_with_spec.
  unfold TokenIdsToText, has_bpe_suffix, IsIncompleteBpeSequence.
  destruct (ends_with (Decode ids) kReplacementCharacter); simpl.
  - split; [split; reflexivity | intros H; exfalso; apply H; reflexivity].
  - split; [split; discriminate | reflexivity].
Qed.

Lemma TokenIdsToText_incomplete_bpe_iff_witness :
  IsIncompleteBpeSequence
    (TokenIdsToText (tokenizer_ := byte_tokenizer) [72; 239; 191; 189]) = true
  /\ TokenIdsToText (tokenizer_ := byte_tokenizer) [72; 105] = Value "Hi".
Proof.
  destruct (TokenIdsToText_incomplete_bpe_iff byte_tokenizer [72; 239; 191; 189])
    as [H1 _].
  destruct (TokenIdsToText_incomplete_bpe_iff byte_tokenizer [72; 105])
    as [_ H2].
  split.
  - apply H1. exists "H". vm_compute. reflexivity.
  - apply H2. rewrite <- ends_with_spec. vm_compute. discriminate.
Defined.

End HuggingFaceTokenizerFacts.

(** ** Executor *)

Module ExecutorFacts.
Import Executor.
#[local] Open Scope exec_scope.

Section WithCollaborators.
Context {compiled_models : CompiledModels} {utils : ExecutorUtils}.

(** *** Runs *)

Lemma same_bookkeeping_refl (st : State) : same_bookkeeping st st.
Proof. repeat split. Qed.

Lemma same_bookkeeping_trans (st1 st2 st3 : State) :
  same_bookkeeping st1 st2 -> same_bookkeeping st2 st3 ->
  same_bookkeeping st1 st3.
Proof.
  unfold same_bookkeeping. intros (?&?&?&?&?&?) (?&?&?&?&?&?).
  repeat split; congruence.
Qed.

(** A run always returns; it changes the device and the log only. *)
Lemma RunSignature_inv (signature : string) (inputs : list (string * list Z))
    (failure : string) (st : State) :
  exists res dev,
    RunSignature signature inputs failure st
    = Some (match res with
            | Done => Value tt
            | Unexpected msg =>
                Error (MkStatus RET_CHECK_run_code (failure +:+ msg))
            end, ran (signature, inputs) dev st).
Proof.
  unfold RunSignature. destruct (Run signature inputs (device st)) as [res dev].
  exists res, dev. destruct res; reflexivity.
Qed.

Ltac step_run :=
  match goal with
  | |- context [RunSignature ?s ?i ?f ?st] =>
      let res := fresh "res" in
      let dev := fresh "dev" in
      let E := fresh "E" in
      destruct (RunSignature_inv s i f st) as (res & dev & E);
      rewrite E; clear E; destruct res; cbv beta iota
  end.

(** The five runs of a prefill chunk always return, change the device and
    the log only, and when all succeed the log has grown by the five calls
    on the buffers as they were. *)
Lemma PrefillInternal_run_stages_spec (st : State) :
  exists r st',
    PrefillInternal_run_stages st = Some (r, st')
    /\ same_bookkeeping st st'
    /\ (r = Value tt ->
        run_log st' = run_log st ++ prefill_chunk_calls (prefill_inputs st)).
Proof.
  unfold PrefillInternal_run_stages, bind.
  repeat step_run;
    (eexists; eexists; split; [reflexivity|];
     split; [repeat split | try discriminate]).
  intros _. cbn [run_log ran prefill_chunk_calls].
  rewrite <- !app_assoc. reflexivity.
Qed.

(** *** Prefill: the shape check *)


(** *** Decode *)

Lemma store_Some (buffer : list Z) (idx : nat) (v : Z) (buffer' : list Z) :
  store buffer idx v = Some buffer' ->
  (idx < length buffer)%nat /\ buffer' = <[idx := v]> buffer.
Proof.
  unfold store. destruct (idx <? length buffer)%nat eqn:E; [|discriminate].
  intros [= <-]. split; [lia | reflexivity].
Qed.

(** A decode step that takes the token [id]. *)
Lemma Decode_with_inputs_selected (inputs : ExecutorInputs) (st : State)
    (id : Z) (r : StatusOr unit) (st' : State) :
  selected_token inputs st = Some id ->
  id <> -1 ->
  Decode_with_inputs inputs st = Some (r, st') ->
  next_input_token_id_ st' = -1
  /\ latency_stats_ st' = latency_stats_ st
  /\ (exists toks later,
         toks !! 0%nat = Some id
         /\ tokens (decode_inputs st') = toks
         /\ run_log st'
            = run_log st
              ++ (EmbedderSignatures.kDecodeEmbedder,
                  [(EmbedderSignatures.kEmbedderInput, toks)]) :: later)
  /\ (r = Value tt -> current_step_ st' = current_step_ st + 1).
Proof.
  intros Hsel Hid. unfold Decode_with_inputs.
  assert (Hselected :
    match inputs with
    | Some token_ids =>
        let input_tensor_size := Size token_ids in
        if negb (input_tensor_size =? 0) then
          if negb (input_tensor_size =? 1 * 4) then
            Error (MkStatus RET_CHECK_argument_code EmptyString)
          else
            match elements token_ids !! 0%nat with
            | Some id0 => Value id0
            | None => Value (next_input_token_id_ st)
            end
        else Value (next_input_token_id_ st)
    | None => Value (next_input_token_id_ st)
    end = Value id).
  { unfold selected_token in Hsel. destruct inputs as [t|].
    - unfold Size. destruct (elements t) as [|x [|y l]];
        cbn [length lookup list_lookup] in *.
      + change (4 * Z.of_nat 0 =? 0) with true. cbn. congruence.
      + change (4 * Z.of_nat 1 =? 0) with false.
        change (4 * Z.of_nat 1 =? 1 * 4) with true. cbn. congruence.
      + discriminate.
    - congruence. }
  cbv zeta in Hselected |- *. rewrite Hselected. clear Hselected.
  replace (id =? -1) with false by lia.
  destruct (store (tokens (decode_inputs (set_next_input_token_id (-1) st)))
              0 id) as [toks|] eqn:Et; [|discriminate].
  cbn [mbind option_bind].
  destruct (store (input_pos (decode_inputs (set_next_input_token_id (-1) st)))
              0 _) as [pos|] eqn:Ep; [|discriminate].
  cbn [mbind option_bind].
  destruct (store (time_step (decode_inputs (set_next_input_token_id (-1) st)))
              0 _) as [ts|] eqn:Es; [|discriminate].
  cbn [mbind option_bind].
  apply store_Some in Et as [Hlen ->].
  unfold bind.
  repeat step_run;
    try (destruct (_ <? INT_MAX) eqn:Eo; [|discriminate]);
    intros [= <- <-]; cbn;
    (split; [reflexivity|]); (split; [reflexivity|]);
    (split;
     [ eexists; eexists; split;
       [ apply list_lookup_insert_eq; exact Hlen
       | split; [reflexivity | rewrite <- ?app_assoc; reflexivity] ]
     | try discriminate; reflexivity ]).
Qed.


(** *** Greedy sampling *)

(** The loop keeps the first maximum of what it has seen. *)
Lemma argmax_loop_first_maximum (rest seen : list Z) (max_index : nat)
    (max_value : Z) :
  first_maximum seen max_index ->
  seen !! max_index = Some max_value ->
  first_maximum (seen ++ rest)
                (argmax_loop rest (length seen) max_index max_value).
Proof.
  revert seen max_index max_value.
  induction rest as [|v rest IH]; intros seen mi mv Hmax Hmi; cbn [argmax_loop].
  - now rewrite app_nil_r.
  - replace (seen ++ v :: rest) with ((seen ++ [v]) ++ rest)
      by (rewrite <- app_assoc; reflexivity).
    replace (S (length seen)) with (length (seen ++ [v]))
      by (rewrite length_app; simpl; lia).
    destruct Hmax as (mv' & Hmv' & Hall).
    assert (mv' = mv) as -> by congruence.
    destruct (v >? mv) eqn:Ev.
    + apply IH.
      * exists v. split; [now apply list_lookup_middle|].
        intros j w Hj.
        destruct (decide (j < length seen)%nat) as [Hlt | Hge].
        { rewrite lookup_app_l in Hj by exact Hlt.
          destruct (Hall j w Hj). split; intros; lia. }
        { rewrite lookup_app_r in Hj by lia.
          destruct (j - length seen)%nat eqn:Ej; cbn in Hj; [|discriminate].
          injection Hj as <-. split; [lia | intros; lia]. }
      * now apply list_lookup_middle.
    + assert (Hlt : (mi < length seen)%nat)
        by (apply lookup_lt_is_Some; eauto).
      apply IH.
      * exists mv. split; [now rewrite lookup_app_l|].
        intros j w Hj.
        destruct (decide (j < length seen)%nat) as [Hj' | Hge].
        { rewrite lookup_app_l in Hj by exact Hj'. exact (Hall j w Hj). }
        { rewrite lookup_app_r in Hj by lia.
          destruct (j - length seen)%nat eqn:Ej; cbn in Hj; [|discriminate].
          injection Hj as <-. split; [lia | intros; lia]. }
      * now rewrite lookup_app_l.
Qed.

Lemma argmax_first_maximum (logits_buffer : list Z) (max_index : nat) :
  argmax logits_buffer = Some max_index ->
  first_maximum logits_buffer max_index.
Proof.
  destruct logits_buffer as [|v0 rest]; [discriminate|].
  intros [= <-].
  apply (argmax_loop_first_maximum rest [v0] 0 v0); [|reflexivity].
  exists v0. split; [reflexivity|].
  intros [|j] w Hj; cbn in Hj; [|discriminate].
  injection Hj as <-. split; [lia | intros; lia].
Qed.

(** The first maximum is unique. *)
Lemma first_maximum_unique (l : list Z) (k1 k2 : nat) :
  first_maximum l k1 -> first_maximum l k2 -> k1 = k2.
Proof.
  intros (v1 & H1 & A1) (v2 & H2 & A2).
  destruct (A1 k2 v2 H2) as [L1 S1]. destruct (A2 k1 v1 H1) as [L2 S2].
  destruct (lt_eq_lt_dec k1 k2) as [[Hlt | Heq] | Hgt];
    [ specialize (S2 Hlt); lia | exact Heq | specialize (S1 Hgt); lia ].
Qed.

(** X27.  After a successful [Decode]: the emitted token is the index of
    the largest logit, the lowest such index; it is the new
    [next_input_token_id]; [current_step] has grown by exactly 1 (and the
    decode token counter by 1); and the token is the first element of the
    caller's buffer when that buffer can hold one id, while a buffer
    without room is left as it was. *)
Theorem Decode_emits_first_maximum :
  forall (st st' : State) (output_tokens output_tokens' : list Z),
  Decode output_tokens st = Some (Value output_tokens', st') ->
  exists token : nat,
    first_maximum (logits (device st')) token
    /\ next_input_token_id_ st' = Z.of_nat token
    /\ current_step_ st' = current_step_ st + 1
    /\ decode_num_tokens (latency_stats_ st')
       = decode_num_tokens (latency_stats_ st) + 1
    /\ ((1 <= length output_tokens)%nat ->
        output_tokens' !! 0%nat = Some (Z.of_nat token))
    /\ (length output_tokens = 0%nat -> output_tokens' = output_tokens).
Proof.
  intros st st' output_tokens output_tokens' Hdec. unfold Decode in Hdec.
  destruct (Decode_with_inputs None st) as [[[[] | e] st1]|] eqn:Hinner;
    [|discriminate|discriminate].
  destruct (argmax (logits (device st1))) as [k|] eqn:Hk;
    cbn [mbind option_bind] in Hdec; [|discriminate].
  injection Hdec as <- <-.
  assert (Hid : next_input_token_id_ st <> -1).
  { intros Hnone. unfold Decode_with_inputs in Hinner. cbv zeta in Hinner.
    rewrite Hnone in Hinner. cbn in Hinner. discriminate. }
  destruct (Decode_with_inputs_selected None st _ _ _ eq_refl Hid Hinner)
    as (_ & Hlat & _ & Hstep).
  exists k. cbn.
  split; [apply argmax_first_maximum, Hk|].
  split; [reflexivity|].
  split; [apply Hstep; reflexivity|].
  split; [now rewrite Hlat|].
  unfold Write. cbn [length]. split; intros Hcap.
  - replace (1 <=? length output_tokens)%nat with true by lia. reflexivity.
  - replace (1 <=? length output_tokens)%nat with false by lia. reflexivity.
Qed.

(** *** PrefillInternal *)

(** Writing [v] at [idx] extends the written stretch by one. *)
Lemma splice_store (t : list Z) (idx : nat) (v : Z) (w : list Z) (k : nat) :
  (idx < length t)%nat ->
  take (S idx) (<[idx := v]> t) ++ w ++ drop (S idx + k) (<[idx := v]> t)
  = take idx t ++ (v :: w) ++ drop (idx + S k) t.
Proof.
  intros H.
  rewrite (take_S_r _ _ v) by (now apply list_lookup_insert_eq).
  rewrite take_insert_ge by lia.
  rewrite drop_insert_lt by lia.
  rewrite <- app_assoc. cbn [app].
  replace (idx + S k)%nat with (S idx + k)%nat by lia.
  reflexivity.
Qed.

Lemma size_minus_one_nonempty (ids : list Z) :
  ids <> [] -> size_minus_one (length ids) = Z.of_nat (length ids - 1).
Proof.
  destruct ids as [|x l]; [congruence|]. intros _. cbn [length size_minus_one].
  lia.
Qed.

Lemma PrefillInternal_fill_spec (fuel : nat) (ids : list Z) :
  ids <> [] ->
  forall (i idx : nat) (st st1 : State),
    (i <= length ids - 1)%nat ->
    PrefillInternal_fill fuel ids i idx st = Some st1 ->
    let carried :=
      if negb (next_input_token_id_ st =? -1) && (i <? length ids - 1)%nat
      then [next_input_token_id_ st] else [] in
    let w := carried ++ take (length ids - 1 - i) (drop i ids) in
    tokens (prefill_inputs st1)
       = take idx (tokens (prefill_inputs st)) ++ w
         ++ drop (idx + length w) (tokens (prefill_inputs st))
    /\ input_pos (prefill_inputs st1)
       = take idx (input_pos (prefill_inputs st))
         ++ seqZ (current_step_ st) (Z.of_nat (length w))
         ++ drop (idx + length w) (input_pos (prefill_inputs st))
    /\ length (tokens (prefill_inputs st1))
       = length (tokens (prefill_inputs st))
    /\ length (input_pos (prefill_inputs st1))
       = length (input_pos (prefill_inputs st))
    /\ time_step (prefill_inputs st1) = time_step (prefill_inputs st)
    /\ current_step_ st1 = current_step_ st + Z.of_nat (length w)
    /\ next_input_token_id_ st1
       = (if (i <? length ids - 1)%nat then -1 else next_input_token_id_ st)
    /\ prefill_signature_map_ st1 = prefill_signature_map_ st
    /\ decode_inputs st1 = decode_inputs st
    /\ latency_stats_ st1 = latency_stats_ st
    /\ device st1 = device st
    /\ run_log st1 = run_log st.
Proof.
  intros Hne. pose proof (size_minus_one_nonempty ids Hne) as Hsz.
  induction fuel as [|fuel IH]; intros i idx st st1 Hi Hfill;
    cbn [PrefillInternal_fill] in Hfill; rewrite Hsz in Hfill;
    destruct (Z.of_nat i <? Z.of_nat (length ids - 1)) eqn:Ec;
    try discriminate.
  1,3: (injection Hfill as <-; cbv zeta;
    replace (i <? length ids - 1)%nat with false by lia;
    rewrite Bool.andb_false_r;
    replace (length ids - 1 - i)%nat with 0%nat by lia;
    rewrite take_0; cbn [app length]; rewrite Nat.add_0_r, !take_drop;
    change (Z.of_nat 0) with 0; rewrite Z.add_0_r;
    change (seqZ (current_step_ st) 0) with (@nil Z); cbn [app];
    rewrite take_drop; repeat split; reflexivity).
  (* one more iteration *)
  assert (Hlt : (i < length ids - 1)%nat) by lia.
  set (b := prefill_inputs st) in *.
  destruct (if negb (next_input_token_id_ st =? -1)
            then Some (next_input_token_id_ st, i, -1)
            else id ← ids !! i; Some (id, S i, next_input_token_id_ st))
    as [[[token i'] next]|] eqn:Etok; cbn [mbind option_bind] in Hfill;
    [|discriminate].
  destruct (store (tokens b) idx token) as [T2|] eqn:ET;
    cbn [mbind option_bind] in Hfill; [|discriminate].
  destruct (store (input_pos b) idx (current_step_ st)) as [P2|] eqn:EP;
    cbn [mbind option_bind] in Hfill; [|discriminate].
  destruct (current_step_ st <? INT_MAX) eqn:Eo; [|discriminate].
  apply store_Some in ET as [HT ->]. apply store_Some in EP as [HP ->].
  assert (Hshape :
    next = -1 /\ (i' <= length ids - 1)%nat
    /\ (if negb (next_input_token_id_ st =? -1) && (i <? length ids - 1)%nat
        then [next_input_token_id_ st] else [])
       ++ take (length ids - 1 - i) (drop i ids)
       = token :: take (length ids - 1 - i') (drop i' ids)).
  { replace (i <? length ids - 1)%nat with true by lia.
    rewrite Bool.andb_true_r.
    destruct (next_input_token_id_ st =? -1) eqn:En; cbn [negb] in *.
    - destruct (ids !! i) as [id|] eqn:Eid; cbn in Etok; [|discriminate].
      injection Etok as <- <- <-. split; [lia|]. split; [lia|].
      cbn [app]. rewrite (drop_S _ _ _ Eid).
      replace (length ids - 1 - i)%nat with (S (length ids - 1 - S i)) by lia.
      reflexivity.
    - injection Etok as <- <- <-. split; [reflexivity|]. split; [lia|].
      reflexivity. }
  destruct Hshape as (-> & Hi' & Hw).
  specialize (IH i' (S idx) _ st1 Hi' Hfill). cbv zeta in IH |- *.
  cbn [next_input_token_id_ set_current_step set_next_input_token_id
       set_prefill_inputs prefill_inputs tokens input_pos time_step
       current_step_ prefill_signature_map_ decode_inputs latency_stats_
       device run_log] in IH.
  change (negb (-1 =? -1)) with false in IH. cbn [andb app] in IH.
  rewrite Hw. set (w' := take (length ids - 1 - i') (drop i' ids)) in *.
  destruct IH as (HT1 & HP1 & HlT & HlP & Hts & Hstep & Hnext & Hrest).
  rewrite length_insert in HlT, HlP.
  replace (i <? length ids - 1)%nat with true by lia.
  split; [rewrite HT1; apply splice_store; exact HT|].
  split.
  { rewrite HP1. cbn [length].
    rewrite (seqZ_cons (current_step_ st)) by lia.
    replace (Z.pred (Z.of_nat (S (length w')))) with (Z.of_nat (length w'))
      by lia.
    replace (Z.succ (current_step_ st)) with (current_step_ st + 1) by lia.
    apply splice_store; exact HP. }
  split; [exact HlT|]. split; [exact HlP|].
  split; [exact Hts|].
  split; [rewrite Hstep; cbn [length]; lia|].
  split; [rewrite Hnext; destruct (i' <? length ids - 1)%nat; reflexivity|].
  exact Hrest.
Qed.

(** The loop returns when the buffers have room for what it writes and
    the step counter stays in range: the fuel is enough. *)
Lemma PrefillInternal_fill_total (fuel : nat) (ids : list Z) :
  ids <> [] ->
  forall (i idx : nat) (st : State),
    (i <= length ids - 1)%nat ->
    let need :=
      ((length ids - 1 - i)
       + (if negb (next_input_token_id_ st =? -1)%Z && (i <? length ids - 1)
          then 1 else 0))%nat in
    (need <= fuel)%nat ->
    (idx + need <= length (tokens (prefill_inputs st)))%nat ->
    (idx + need <= length (input_pos (prefill_inputs st)))%nat ->
    current_step_ st + Z.of_nat need <= INT_MAX ->
    is_Some (PrefillInternal_fill fuel ids i idx st).
Proof.
  intros Hne. pose proof (size_minus_one_nonempty ids Hne) as Hsz.
  induction fuel as [|fuel IH]; intros i idx st Hi need Hfuel HT HP Hmax;
    cbn [PrefillInternal_fill]; rewrite Hsz;
    destruct (Z.of_nat i <? Z.of_nat (length ids - 1)) eqn:Ec;
    try (eexists; reflexivity).
  - exfalso. subst need. lia.
  - subst need. replace (i <? length ids - 1)%nat with true in * by lia.
    rewrite Bool.andb_true_r in *.
    unfold store.
    destruct (next_input_token_id_ st =? -1) eqn:En; cbn [negb] in *.
    + destruct (lookup_lt_is_Some_2 ids i ltac:(lia)) as [id Hid].
      rewrite Hid. cbn [mbind option_bind].
      replace (idx <? length (tokens (prefill_inputs st)))%nat with true by lia.
      cbn [mbind option_bind].
      replace (idx <? length (input_pos (prefill_inputs st)))%nat
        with true by lia.
      cbn [mbind option_bind].
      replace (current_step_ st <? INT_MAX) with true by lia.
      apply IH; cbn; rewrite ?length_insert; rewrite ?En; cbn; lia.
    + cbn [mbind option_bind].
      replace (idx <? length (tokens (prefill_inputs st)))%nat with true by lia.
      cbn [mbind option_bind].
      replace (idx <? length (input_pos (prefill_inputs st)))%nat
        with true by lia.
      cbn [mbind option_bind].
      replace (current_step_ st <? INT_MAX) with true by lia.
      apply IH; cbn; rewrite ?length_insert; cbn; lia.
Qed.

(** The prepared chunk: the buffers hold what the loop wrote and zeros
    after, the step has advanced by the number of tokens written, the last
    id is pending; nothing else has changed. *)
Lemma PrefillInternal_prepare_inputs_spec (ids : list Z) (st st1 : State) :
  PrefillInternal_prepare_inputs ids st = Some st1 ->
  let w := chunk_tokens (next_input_token_id_ st) ids in
  ids <> []
  /\ prefill_inputs st1
     = {| tokens := padded (length (tokens (prefill_inputs st))) w;
          input_pos := padded (length (input_pos (prefill_inputs st)))
                              (seqZ (current_step_ st) (Z.of_nat (length w)));
          time_step := padded (length (time_step (prefill_inputs st)))
                              [current_step_ st] |}
  /\ length (tokens (prefill_inputs st1))
     = length (tokens (prefill_inputs st))
  /\ length (input_pos (prefill_inputs st1))
     = length (input_pos (prefill_inputs st))
  /\ length (time_step (prefill_inputs st1))
     = length (time_step (prefill_inputs st))
  /\ current_step_ st1 = current_step_ st + Z.of_nat (length w)
  /\ ids !! (length ids - 1)%nat = Some (next_input_token_id_ st1)
  /\ prefill_signature_map_ st1 = prefill_signature_map_ st
  /\ decode_inputs st1 = decode_inputs st
  /\ latency_stats_ st1 = latency_stats_ st
  /\ device st1 = device st
  /\ run_log st1 = run_log st.
Proof.
  unfold PrefillInternal_prepare_inputs. intros H.
  destruct (store (replicate (length (time_step (prefill_inputs st))) 0) 0
              (current_step_ st)) as [ts|] eqn:Ets;
    cbn [mbind option_bind] in H; [|discriminate].
  match type of H with
  | context [PrefillInternal_fill ?f ?l ?i ?x ?s] =>
      destruct (PrefillInternal_fill f l i x s) as [st2|] eqn:Efill
  end; cbn [mbind option_bind] in H; [|discriminate].
  destruct (ids !! Z.to_nat (size_minus_one (length ids))) as [last_id|] eqn:El;
    cbn [mbind option_bind] in H; [|discriminate].
  injection H as <-.
  assert (Hne : ids <> []) by (intros ->; discriminate El).
  rewrite (size_minus_one_nonempty ids Hne), Nat2Z.id in El.
  apply store_Some in Ets as [Hts ->]. rewrite length_replicate in Hts.
  pose proof (PrefillInternal_fill_spec _ ids Hne 0 0 _ st2 ltac:(lia) Efill)
    as Hspec.
  cbv zeta in Hspec.
  cbn [next_input_token_id_ set_prefill_inputs prefill_inputs tokens
       input_pos time_step current_step_ prefill_signature_map_
       decode_inputs latency_stats_ device run_log] in Hspec.
  rewrite Nat.sub_0_r, drop_0, !take_0, !length_replicate in Hspec.
  cbn [app Nat.add] in Hspec. rewrite !drop_replicate in Hspec.
  fold (chunk_tokens (next_input_token_id_ st) ids) in Hspec.
  destruct Hspec as (HT & HP & HlT & HlP & HTS & Hstep & _ & Hrest).
  cbv zeta. cbn [set_next_input_token_id prefill_inputs current_step_
                 next_input_token_id_ prefill_signature_map_ decode_inputs
                 latency_stats_ device run_log].
  split; [exact Hne|].
  split.
  { destruct (prefill_inputs st2) as [T P TS]. cbn in *. subst T P TS.
    unfold padded. rewrite length_seqZ, Nat2Z.id. f_equal.
    destruct (length (time_step (prefill_inputs st))); [lia|].
    cbn. rewrite Nat.sub_0_r. reflexivity. }
  split; [exact HlT|]. split; [exact HlP|].
  split; [rewrite HTS, length_insert, length_replicate; reflexivity|].
  split; [exact Hstep|]. split; [exact El|]. exact Hrest.
Qed.

(** Preparing a chunk returns whenever the chunk is not empty, the buffers
    have room for its tokens and the step counter stays in range. *)
Lemma PrefillInternal_prepare_inputs_total (ids : list Z) (st : State) :
  ids <> [] ->
  let need := length (chunk_tokens (next_input_token_id_ st) ids) in
  (need <= length (tokens (prefill_inputs st)))%nat ->
  (need <= length (input_pos (prefill_inputs st)))%nat ->
  (1 <= length (time_step (prefill_inputs st)))%nat ->
  current_step_ st + Z.of_nat need <= INT_MAX ->
  is_Some (PrefillInternal_prepare_inputs ids st).
Proof.
  intros Hne need HT HP HS Hmax. subst need.
  unfold chunk_tokens in *. rewrite length_app, length_take_le in * by lia.
  unfold PrefillInternal_prepare_inputs, store.
  rewrite length_replicate.
  replace (0 <? length (time_step (prefill_inputs st)))%nat with true by lia.
  cbn [mbind option_bind].
  match goal with
  | |- context [PrefillInternal_fill ?f ?l ?i ?x ?s] =>
      destruct (PrefillInternal_fill_total f l Hne i x s) as [st1 ->]
  end;
    cbn [next_input_token_id_ set_prefill_inputs prefill_inputs tokens
         input_pos current_step_];
    rewrite ?length_replicate;
    try (destruct (negb (next_input_token_id_ st =? -1)
                   && (0 <? length ids - 1)%nat);
         cbn [length] in *; lia).
  cbn [mbind option_bind].
  rewrite (size_minus_one_nonempty ids Hne), Nat2Z.id.
  destruct (lookup_lt_is_Some_2 ids (length ids - 1)) as [last_id ->].
  - destruct ids; [congruence | cbn [length]; lia].
  - eexists. reflexivity.
Qed.

(** A chunk: the inputs are prepared, then the five stages run on them. *)
Lemma PrefillInternal_inv (prefill_signature : string) (ids : list Z)
    (st : State) (r : StatusOr unit) (st' : State) :
  PrefillInternal prefill_signature ids st = Some (r, st') ->
  exists st1,
    PrefillInternal_prepare_inputs ids st = Some st1
    /\ PrefillInternal_run_stages st1 = Some (r, st')
    /\ same_bookkeeping st1 st'
    /\ (r = Value tt ->
        run_log st' = run_log st1 ++ prefill_chunk_calls (prefill_inputs st1)).
Proof.
  unfold PrefillInternal. intros H.
  destruct (PrefillInternal_prepare_inputs ids st) as [st1|];
    cbn [mbind option_bind] in H; [|discriminate].
  exists st1. split; [reflexivity|]. split; [exact H|].
  destruct (PrefillInternal_run_stages_spec st1) as (r0 & st0 & E & Hb & Hl).
  rewrite E in H. injection H as <- <-. split; assumption.
Qed.


(** C2 (as amended).  A prefill chunk is not undone when one of its five
    stages fails: after the failed call [current_step] has advanced by the
    number of tokens the chunk wrote into the input buffers (the ids of the
    chunk but the last, and before them the pending token when there was
    one and the chunk has at least two ids), [next_input_token_id] is the
    last id of the chunk, and the token buffer holds what was written. *)
Theorem PrefillInternal_failure_keeps_prepared_state :
  forall (prefill_signature : string) (ids : list Z) (st st' : State)
         (e : Status),
    PrefillInternal prefill_signature ids st = Some (Error e, st') ->
    current_step_ st'
    = current_step_ st
      + Z.of_nat (length (chunk_tokens (next_input_token_id_ st) ids))
    /\ last ids = Some (next_input_token_id_ st')
    /\ tokens (prefill_inputs st')
       = padded (length (tokens (prefill_inputs st)))
                (chunk_tokens (next_input_token_id_ st) ids).
Proof.
  intros sig ids st st' e H.
  destruct (PrefillInternal_inv _ _ _ _ _ H) as (st1 & Hprep & _ & Hb & _).
  destruct (PrefillInternal_prepare_inputs_spec _ _ _ Hprep)
    as (_ & Hbuf & _ & _ & _ & Hstep & Hlast & _).
  destruct Hb as (Hs & Hn & _ & Hp & _).
  rewrite Hs, Hn, Hp, Hbuf, last_lookup.
  replace (Nat.pred (length ids)) with (length ids - 1)%nat by lia.
  split; [exact Hstep|]. split; [exact Hlast | reflexivity].
Qed.

Lemma subspan_chunk (c : Z) (ids chunk rest : list Z) :
  subspan 0 (Some c) ids = Some chunk ->
  chunk <> [] ->
  subspan c npos ids = Some rest ->
  (1 <= Z.to_nat c <= length ids)%nat
  /\ chunk = take (Z.to_nat c) ids
  /\ rest = drop (Z.to_nat c) ids.
Proof.
  unfold subspan, npos. intros Hc Hne Hr.
  destruct (c <=? Z.of_nat (length ids)) eqn:E; [|discriminate].
  injection Hr as <-.
  destruct (0 <=? Z.of_nat (length ids)); [|discriminate].
  injection Hc as <-. cbn [Z.to_nat drop] in *. rewrite Z.sub_0_r in *.
  replace (Z.min (Z.of_nat (length ids)) c) with c in * by lia.
  split; [|split; reflexivity].
  split; [|lia]. destruct (Z.to_nat c) eqn:Ec; [|lia].
  exfalso. apply Hne. apply take_0.
Qed.

(** One turn of the loop over the work groups. *)
Lemma Prefill_work_groups_cons (prefill_signature : string)
    (prefill_length : Z) (work_groups : list (string * Z)) (ids : list Z)
    (st : State) (rest : list Z) (st' : State) :
  Prefill_work_groups ((prefill_signature, prefill_length) :: work_groups)
    ids st = Some (Value rest, st') ->
  let c := Z.to_nat (to_size_t prefill_length) in
  exists st1 st2,
    (1 <= c <= length ids)%nat
    /\ PrefillInternal prefill_signature (take c ids) st = Some (Value tt, st1)
    /\ st2 = set_latency_stats
               (MkLatencyStats
                  (prefill_num_tokens (latency_stats_ st1) + kPrefillSize)
                  (decode_num_tokens (latency_stats_ st1))) st1
    /\ Prefill_work_groups work_groups (drop c ids) st2
       = Some (Value rest, st').
Proof.
  cbn [Prefill_work_groups]. intros H.
  destruct (subspan 0 (Some (to_size_t prefill_length)) ids)
    as [chunk|] eqn:Ec; [|discriminate].
  unfold bind in H.
  destruct (PrefillInternal prefill_signature chunk st)
    as [[[[]|e] st1]|] eqn:Ep; try discriminate.
  destruct (subspan (to_size_t prefill_length) npos ids)
    as [ids'|] eqn:Er; [|discriminate].
  assert (Hne : chunk <> []).
  { destruct (PrefillInternal_inv _ _ _ _ _ Ep) as (s1 & Hprep & _).
    now destruct (PrefillInternal_prepare_inputs_spec _ _ _ Hprep). }
  destruct (subspan_chunk _ _ _ _ Ec Hne Er) as (Hc & -> & ->).
  unfold add_prefill_num_tokens in H.
  eexists; eexists. split; [exact Hc|]. split; [exact Ep|].
  split; [reflexivity|]. exact H.
Qed.

Lemma PrefillInternal_frame (prefill_signature : string) (ids : list Z)
    (st : State) (r : StatusOr unit) (st' : State) :
  PrefillInternal prefill_signature ids st = Some (r, st') ->
  latency_stats_ st' = latency_stats_ st
  /\ prefill_signature_map_ st' = prefill_signature_map_ st
  /\ decode_inputs st' = decode_inputs st.
Proof.
  intros H.
  destruct (PrefillInternal_inv _ _ _ _ _ H) as (st1 & Hprep & _ & Hb & _).
  destruct (PrefillInternal_prepare_inputs_spec _ _ _ Hprep)
    as (_ & _ & _ & _ & _ & _ & _ & Hm & Hd & Hl & _).
  destruct Hb as (_ & _ & Hm' & _ & Hd' & Hl').
  repeat split; congruence.
Qed.

(** The token counter grows by [kPrefillSize] for every work group. *)
Lemma Prefill_work_groups_counts (work_groups : list (string * Z)) :
  forall (ids : list Z) (st : State) (rest : list Z) (st' : State),
    Prefill_work_groups work_groups ids st = Some (Value rest, st') ->
    prefill_num_tokens (latency_stats_ st')
    = prefill_num_tokens (latency_stats_ st)
      + kPrefillSize * Z.of_nat (length work_groups).
Proof.
  induction work_groups as [|[sig len] wgs IH]; intros ids st rest st' H.
  - injection H as <- <-. cbn [length]. lia.
  - destruct (Prefill_work_groups_cons _ _ _ _ _ _ _ H)
      as (st1 & st2 & _ & Hp & -> & Hloop).
    rewrite (IH _ _ _ _ Hloop). cbn [latency_stats_ set_latency_stats
                                     prefill_num_tokens length].
    destruct (PrefillInternal_frame _ _ _ _ _ Hp) as (-> & _). lia.
Qed.

(** C8.  A successful [Prefill] whose input was decomposed into the work
    groups [work_groups] has added exactly 128 ([kPrefillSize]) to
    [prefill_num_tokens] for each work group, whatever the lengths of the
    work groups: 128 times their number in all. *)
Theorem Prefill_counts_kPrefillSize_per_work_group :
  forall (st st' : State) (token_ids : TensorBuffer)
         (work_groups : list (string * Z)),
    GetOptimizedPrefillWorkGroups (prefill_signature_map_ st)
      (Z.of_nat (length (elements token_ids))) = Value work_groups ->
    Prefill (Some token_ids) st = Some (Value tt, st') ->
    prefill_num_tokens (latency_stats_ st')
    = prefill_num_tokens (latency_stats_ st)
      + 128 * Z.of_nat (length work_groups).
Proof.
  intros st st' t wgs Hwg H. unfold Prefill in H.
  destruct (Dimensions t !! 0%nat) as [batch|]; [|discriminate].
  destruct (negb (batch =? 1)); [discriminate|].
  destruct (Dimensions t !! 1%nat) as [n|]; [|discriminate].
  destruct (negb (n >? 0)); [discriminate|].
  rewrite Hwg in H. unfold bind in H.
  destruct (Prefill_work_groups wgs (elements t) st)
    as [[[rest|e] st1]|] eqn:Eloop; try discriminate.
  destruct (negb (Z.of_nat (length rest) =? 0)); [discriminate|].
  injection H as <-.
  exact (Prefill_work_groups_counts _ _ _ _ _ Eloop).
Qed.


(** The runs of a prefill depend on the capacities of the buffers only. *)
Lemma prefill_calls_caps (caps caps' : HostInputs) (step : Z)
    (segments : list (list Z)) :
  length (tokens caps') = length (tokens caps) ->
  length (input_pos caps') = length (input_pos caps) ->
  length (time_step caps') = length (time_step caps) ->
  prefill_calls caps' step segments = prefill_calls caps step segments.
Proof.
  intros HT HP HS. revert step.
  induction segments as [|seg segs IH]; intros step; cbn [prefill_calls];
    [reflexivity|].
  now rewrite HT, HP, HS, IH.
Qed.

Lemma chunk_tokens_kept (pending : Z) (c : nat) (ids : list Z) :
  (1 <= c <= length ids)%nat ->
  (pending =? -1) || (2 <=? c)%nat = true ->
  chunk_tokens pending (take c ids)
  = (if negb (pending =? -1) then [pending] else []) ++ take (c - 1) ids.
Proof.
  intros Hc Hk. unfold chunk_tokens.
  rewrite length_take_le by lia. rewrite take_take.
  replace ((c - 1) `min` c)%nat with (c - 1)%nat by lia.
  destruct (pending =? -1); cbn [negb andb orb] in *; [reflexivity|].
  replace (0 <? c - 1)%nat with true by lia. reflexivity.
Qed.

(** The loop over the work groups, when no token is lost between chunks:
    the chunks absorb, in order and without gap, the pending token (if any)
    and the ids consumed but the last, which is left pending. *)
Lemma Prefill_work_groups_spec (work_groups : list (string * Z)) :
  forall (ids : list Z) (st : State) (rest : list Z) (st' : State),
    Prefill_work_groups work_groups ids st = Some (Value rest, st') ->
    carry_over_kept (next_input_token_id_ st) work_groups ids = true ->
    exists (segments : list (list Z)) (consumed : nat),
      length segments = length work_groups
      /\ (consumed <= length ids)%nat
      /\ rest = drop consumed ids
      /\ run_log st'
         = run_log st
           ++ prefill_calls (prefill_inputs st) (current_step_ st) segments
      /\ current_step_ st'
         = current_step_ st + Z.of_nat (length (concat segments))
      /\ length (tokens (prefill_inputs st'))
         = length (tokens (prefill_inputs st))
      /\ length (input_pos (prefill_inputs st'))
         = length (input_pos (prefill_inputs st))
      /\ length (time_step (prefill_inputs st'))
         = length (time_step (prefill_inputs st))
      /\ (work_groups <> [] ->
          (1 <= consumed)%nat
          /\ concat segments
             = (if negb (next_input_token_id_ st =? -1)
                then [next_input_token_id_ st] else [])
               ++ take (consumed - 1) ids
          /\ ids !! (consumed - 1)%nat = Some (next_input_token_id_ st')).
Proof.
  induction work_groups as [|[sig len] wgs IH]; intros ids st rest st' H Hkept.
  - injection H as <- <-. exists [], 0%nat.
    cbn [prefill_calls concat length]. rewrite app_nil_r, drop_0, Z.add_0_r.
    repeat split; try reflexivity; try lia; congruence.
  - destruct (Prefill_work_groups_cons _ _ _ _ _ _ _ H)
      as (st1 & st2 & Hc & Hp & Hst2 & Hloop).
    cbn [carry_over_kept] in Hkept.
    set (c := Z.to_nat (to_size_t len)) in *.
    apply andb_prop in Hkept as [Hfirst Hkept].
    destruct (PrefillInternal_inv _ _ _ _ _ Hp) as (s1 & Hprep & _ & Hb & Hlog).
    specialize (Hlog eq_refl).
    destruct (PrefillInternal_prepare_inputs_spec _ _ _ Hprep)
      as (_ & Hbuf & HlT & HlP & HlS & Hstep & Hlast & _ & _ & _ & _ & Hl).
    rewrite (chunk_tokens_kept _ _ _ Hc Hfirst) in Hbuf, Hstep.
    rewrite length_take_le, lookup_take_lt in Hlast by lia.
    set (w := (if negb (next_input_token_id_ st =? -1)
               then [next_input_token_id_ st] else [])
              ++ take (c - 1) ids) in *.
    destruct Hb as (Hs1 & Hn1 & _ & Hp1 & _).
    assert (Hs2 : current_step_ st2 = current_step_ st + Z.of_nat (length w))
      by (subst st2; cbn; congruence).
    assert (Hn2 : ids !! (c - 1)%nat = Some (next_input_token_id_ st2))
      by (subst st2; cbn; congruence).
    assert (Hp2 : prefill_inputs st2 = prefill_inputs s1)
      by (subst st2; cbn; congruence).
    assert (Hl2 : run_log st2
                  = run_log st
                    ++ prefill_calls (prefill_inputs st) (current_step_ st) [w]).
    { subst st2. cbn [run_log set_latency_stats]. rewrite Hlog, Hl, Hbuf.
      cbn [prefill_calls]. now rewrite app_nil_r. }
    clear Hst2 Hp Hprep Hlog.
    destruct wgs as [|wg wgs'].
    + injection Hloop as <- <-. exists [w], c.
      cbn [concat length]. rewrite app_nil_r.
      rewrite Hp2, HlT, HlP, HlS.
      repeat split; try reflexivity; try lia; assumption.
    + rewrite Hn2 in Hkept.
      apply andb_prop in Hkept as [Hlast_ne Hkept'].
      destruct (IH _ _ _ _ Hloop Hkept')
        as (segs & consumed & Hlen & Hcons & Hrest & Hlog' & Hstep' & HT' & HP'
            & HS' & Hlater).
      destruct (Hlater ltac:(congruence)) as (Hc1 & Hconcat & Hnext').
      rewrite length_drop in Hcons.
      exists (w :: segs), (c + consumed)%nat.
      split; [cbn [length]; now rewrite Hlen|].
      split; [lia|].
      split; [rewrite Hrest, drop_drop; reflexivity|].
      split.
      { rewrite Hlog', Hl2, <- app_assoc. f_equal.
        cbn [prefill_calls]. rewrite app_nil_r. f_equal.
        rewrite Hs2. apply prefill_calls_caps; rewrite Hp2; assumption. }
      split.
      { rewrite Hstep', Hs2. cbn [concat]. rewrite length_app. lia. }
      split; [rewrite HT', Hp2; exact HlT|].
      split; [rewrite HP', Hp2; exact HlP|].
      split; [rewrite HS', Hp2; exact HlS|].
      intros _. split; [lia|]. split.
      { cbn [concat]. rewrite Hconcat. subst w.
        replace (negb (next_input_token_id_ st2 =? -1)) with true by lia.
        rewrite <- app_assoc. f_equal.
        rewrite app_assoc, <- (take_S_r _ _ _ Hn2).
        replace (S (c - 1)) with c by lia.
        rewrite take_take_drop. f_equal. lia. }
      { rewrite lookup_drop in Hnext'. rewrite <- Hnext'. f_equal. lia. }
Qed.


(** Whatever the work groups, the loop ends on the last id it consumed:
    that id is pending. *)
Lemma Prefill_work_groups_last (work_groups : list (string * Z)) :
  forall (ids : list Z) (st : State) (rest : list Z) (st' : State),
    Prefill_work_groups work_groups ids st = Some (Value rest, st') ->
    work_groups <> [] ->
    exists consumed : nat,
      (1 <= consumed <= length ids)%nat
      /\ rest = drop consumed ids
      /\ ids !! (consumed - 1)%nat = Some (next_input_token_id_ st').
Proof.
  induction work_groups as [|[sig len] wgs IH]; intros ids st rest st' H Hne;
    [congruence|].
  destruct (Prefill_work_groups_cons _ _ _ _ _ _ _ H)
    as (st1 & st2 & Hc & Hp & Hst2 & Hloop).
  set (c := Z.to_nat (to_size_t len)) in *.
  destruct (PrefillInternal_inv _ _ _ _ _ Hp) as (s1 & Hprep & _ & Hb & _).
  destruct (PrefillInternal_prepare_inputs_spec _ _ _ Hprep)
    as (_ & _ & _ & _ & _ & _ & Hlast & _).
  rewrite length_take_le, lookup_take_lt in Hlast by lia.
  destruct Hb as (_ & Hn1 & _).
  assert (Hn2 : ids !! (c - 1)%nat = Some (next_input_token_id_ st2))
    by (subst st2; cbn; congruence).
  destruct wgs as [|wg wgs'].
  - injection Hloop as <- <-. exists c. split; [lia|]. split; [reflexivity|].
    exact Hn2.
  - destruct (IH _ _ _ _ Hloop ltac:(congruence))
      as (consumed & Hcons & Hrest & Hnext).
    rewrite length_drop in Hcons. exists (c + consumed)%nat.
    split; [lia|]. split; [rewrite Hrest, drop_drop; reflexivity|].
    rewrite lookup_drop in Hnext. rewrite <- Hnext. f_equal. lia.
Qed.

(** C1 (as amended).  A successful [Prefill] of a [1, N] tensor, N >= 1,
    entered without pending token.  [next_input_token_id] is the last id of
    the input, hence not -1 when no id is -1.  When the work groups lose no
    token between chunks ([carry_over_kept]: every chunk after the first
    has at least two ids and no id that ends a chunk before the last is -1;
    every prefill of a single chunk is such), the chunks run on token
    segments that are, joined, exactly the first N-1 ids, at the positions
    from the old [current_step] on, and [current_step] has grown by exactly
    N-1. *)
Theorem Prefill_defers_last_token :
  forall (st st' : State) (ids : list Z) (work_groups : list (string * Z)),
    (1 <= length ids)%nat ->
    next_input_token_id_ st = -1 ->
    GetOptimizedPrefillWorkGroups (prefill_signature_map_ st)
      (Z.of_nat (length ids)) = Value work_groups ->
    Prefill (Some (MkTensor [1; Z.of_nat (length ids)] ids)) st
    = Some (Value tt, st') ->
    last ids = Some (next_input_token_id_ st')
    /\ (Forall (fun id => id <> -1) ids -> next_input_token_id_ st' <> -1)
    /\ (carry_over_kept (-1) work_groups ids = true ->
        exists segments : list (list Z),
          length segments = length work_groups
          /\ concat segments = take (length ids - 1) ids
          /\ run_log st'
             = run_log st
               ++ prefill_calls (prefill_inputs st) (current_step_ st) segments
          /\ current_step_ st'
             = current_step_ st + (Z.of_nat (length ids) - 1)).
Proof.
  intros st st' ids wgs Hn Hnext Hwg H. unfold Prefill in H.
  cbn [Dimensions elements lookup list_lookup] in H.
  change (negb (1 =? 1)) with false in H. cbv iota in H.
  replace (negb (Z.of_nat (length ids) >? 0)) with false in H by lia.
  cbv iota in H. rewrite Hwg in H. unfold bind in H.
  destruct (Prefill_work_groups wgs ids st) as [[[rest|e] st1]|] eqn:Eloop;
    try discriminate.
  destruct (negb (Z.of_nat (length rest) =? 0)) eqn:Erest; [discriminate|].
  injection H as <-.
  assert (Hwgs : wgs <> []).
  { intros ->. injection Eloop as <- <-. lia. }
  assert (Hl : last ids = Some (next_input_token_id_ st1)).
  { destruct (Prefill_work_groups_last _ _ _ _ _ Eloop Hwgs)
      as (consumed & Hcons & Hrest & Hlast).
    assert (consumed = length ids) as ->.
    { subst rest. rewrite length_drop in Erest. lia. }
    rewrite last_lookup.
    replace (Nat.pred (length ids)) with (length ids - 1)%nat by lia.
    exact Hlast. }
  split; [exact Hl|]. split.
  { intros Hall Hbad. rewrite last_lookup, Forall_lookup in *.
    exact (Hall _ _ Hl Hbad). }
  intros Hkept. rewrite <- Hnext in Hkept.
  destruct (Prefill_work_groups_spec _ _ _ _ _ Eloop Hkept)
    as (segs & consumed & Hlen & Hcons & Hrest & Hlog & Hstep & _ & _ & _
        & Hlater).
  destruct (Hlater Hwgs) as (Hc1 & Hconcat & _).
  assert (consumed = length ids) as ->.
  { subst rest. rewrite length_drop in Erest. lia. }
  rewrite Hnext in Hconcat.
  change (negb (-1 =? -1)) with false in Hconcat. cbn [app] in Hconcat.
  exists segs. split; [exact Hlen|]. split; [exact Hconcat|].
  split; [exact Hlog|].
  rewrite Hstep, Hconcat, length_take_le; lia.
Qed.

End WithCollaborators.

(** *** The theorems at concrete inputs *)



Lemma Decode_emits_first_maximum_witness :
  exists st',
    Decode (compiled_models := steady) [0]
      (set_next_input_token_id 9 steady_executor) = Some (Value [1], st')
    /\ first_maximum [1; 5; 5; 2] 1
    /\ next_input_token_id_ st' = 1
    /\ current_step_ st' = 1.
Proof.
  assert (E : exists st',
             Decode (compiled_models := steady) [0]
               (set_next_input_token_id 9 steady_executor)
             = Some (Value [1], st')
             /\ logits (device st') = [1; 5; 5; 2])
    by (vm_compute; eexists; split; reflexivity).
  destruct E as (st' & E & Hl). exists st'. split; [exact E|].
  destruct (@Decode_emits_first_maximum steady _ _ _ _ E)
    as (token & Hmax & Hnext & Hstep & _ & Hout & _).
  specialize (Hout ltac:(cbn; lia)). injection Hout as Hout.
  rewrite Hl in Hmax.
  assert (token = 1%nat) as -> by lia.
  split; [exact Hmax|]. split; [exact Hnext | exact Hstep].
Defined.

(** C3 (the failing input).  [Decode] into a buffer without room for an
    id, on the executor with the token 9 pending and the logits 1 5 5 2:
    the call returns OK, the sampled token 1 (the first maximum) is pending
    and [current_step] has grown by 1, but the caller's buffer is as it was
    and holds no token: [output_tokens.Write] fails, and its status is not
    tested. *)
Lemma Decode_returns_OK_without_writing :
  exists st',
    Decode (compiled_models := steady) []
      (set_next_input_token_id 9 steady_executor) = Some (Value [], st')
    /\ first_maximum (logits (device st')) 1
    /\ next_input_token_id_ st' = 1
    /\ current_step_ st'
       = current_step_ (set_next_input_token_id 9 steady_executor) + 1
    /\ ok (Write [] [1]) = false
    /\ ([] : list Z) !! 0%nat <> Some 1.
Proof.
  assert (E : exists st',
             Decode (compiled_models := steady) []
               (set_next_input_token_id 9 steady_executor)
             = Some (Value [], st')
             /\ logits (device st') = [1; 5; 5; 2]
             /\ next_input_token_id_ st' = 1
             /\ current_step_ st' = 1)
    by (vm_compute; eexists; repeat split).
  destruct E as (st' & E & Hl & Hnext & Hstep). exists st'.
  split; [exact E|]. split.
  { rewrite Hl. apply (argmax_first_maximum [1; 5; 5; 2] 1). reflexivity. }
  split; [exact Hnext|]. split; [exact Hstep|].
  split; [reflexivity | discriminate].
Qed.

Lemma Prefill_counts_kPrefillSize_per_work_group_witness :
  exists st',
    Prefill (compiled_models := steady) (utils := greedy_utils)
      (Some (token_tensor prompt_256)) steady_executor = Some (Value tt, st')
    /\ prefill_num_tokens (latency_stats_ st') = 0 + 128 * 2.
Proof.
  assert (E : exists st',
             Prefill (compiled_models := steady) (utils := greedy_utils)
               (Some (token_tensor prompt_256)) steady_executor
             = Some (Value tt, st'))
    by (vm_compute; eexists; reflexivity).
  destruct E as [st' E]. exists st'. split; [exact E|].
  apply (@Prefill_counts_kPrefillSize_per_work_group steady greedy_utils
           steady_executor st' (token_tensor prompt_256)
           [(kPrefillSignature, 128); (kPrefillSignature, 128)]
           eq_refl E).
Defined.

Lemma Prefill_defers_last_token_witness :
  (exists st' segments,
      Prefill (compiled_models := steady) (utils := greedy_utils)
        (Some (token_tensor prompt_256)) steady_executor = Some (Value tt, st')
      /\ last prompt_256 = Some (next_input_token_id_ st')
      /\ length segments = 2%nat
      /\ concat segments = take 255 prompt_256
      /\ current_step_ st' = 0 + (256 - 1))
  /\ (exists st',
         Prefill (compiled_models := steady) (utils := greedy_utils)
           (Some (token_tensor prompt_with_sentinel)) steady_executor
         = Some (Value tt, st')
         /\ last prompt_with_sentinel = Some (next_input_token_id_ st')).
Proof.
  split.
  - assert (E : exists st',
               Prefill (compiled_models := steady) (utils := greedy_utils)
                 (Some (token_tensor prompt_256)) steady_executor
               = Some (Value tt, st'))
      by (vm_compute; eexists; reflexivity).
    destruct E as [st' E]. exists st'.
    destruct (@Prefill_defers_last_token steady greedy_utils steady_executor
                st' prompt_256
                [(kPrefillSignature, 128); (kPrefillSignature, 128)]
                ltac:(vm_compute; lia) eq_refl eq_refl E)
      as (Hlast & _ & Hsegments).
    destruct (Hsegments eq_refl) as (segments & Hlen & Hconcat & _ & Hstep).
    exists segments. repeat split; assumption.
  - assert (E : exists st',
               Prefill (compiled_models := steady) (utils := greedy_utils)
                 (Some (token_tensor prompt_with_sentinel)) steady_executor
               = Some (Value tt, st'))
      by (vm_compute; eexists; reflexivity).
    destruct E as [st' E]. exists st'. split; [exact E|].
    destruct (@Prefill_defers_last_token steady greedy_utils steady_executor
                st' prompt_with_sentinel
                [(kPrefillSignature, 128); (kPrefillSignature, 128)]
                ltac:(vm_compute; lia) eq_refl eq_refl E)
      as (Hlast & _).
    exact Hlast.
Defined.


Lemma PrefillInternal_failure_keeps_prepared_state_witness :
  exists e st',
    PrefillInternal (compiled_models := faulty_rope) kPrefillSignature
      [7; 8; 9] faulty_rope_executor = Some (Error e, st')
    /\ current_step_ st' = 0 + 2
    /\ last [7; 8; 9] = Some (next_input_token_id_ st').
Proof.
  assert (E : exists e st',
             PrefillInternal (compiled_models := faulty_rope)
               kPrefillSignature [7; 8; 9] faulty_rope_executor
             = Some (Error e, st'))
    by (vm_compute; eexists; eexists; reflexivity).
  destruct E as (e & st' & E). exists e, st'. split; [exact E|].
  destruct (@PrefillInternal_failure_keeps_prepared_state faulty_rope
              _ _ _ _ _ E) as (Hstep & Hlast & _).
  split; [exact Hstep | exact Hlast].
Defined.

(** The claim of a chunk that is undone on failure does not hold: the
    RoPE run of the chunk 7 8 9 fails on a fresh executor, and the call
    returns with [current_step] moved from 0 to 2 and
    [next_input_token_id] from -1 to 9. *)
Lemma PrefillInternal_failure_not_rolled_back_counterexample :
  exists e st',
    PrefillInternal (compiled_models := faulty_rope) kPrefillSignature
      [7; 8; 9] faulty_rope_executor = Some (Error e, st')
    /\ current_step_ faulty_rope_executor = 0
    /\ next_input_token_id_ faulty_rope_executor = -1
    /\ current_step_ st' = 2
    /\ next_input_token_id_ st' = 9
    /\ current_step_ st' <> current_step_ faulty_rope_executor
    /\ next_input_token_id_ st' <> next_input_token_id_ faulty_rope_executor.
Proof.
  vm_compute. eexists. eexists.
  repeat split; try reflexivity; discriminate.
Qed.

(** A chunk of a single id entered with a pending token: the loop does not
    run, the pending token 7 is overwritten by the id 5 and reaches no
    buffer. *)
Example PrefillInternal_single_id_chunk_drops_pending :
  exists st',
    PrefillInternal (compiled_models := steady) kPrefillSignature [5]
      (set_next_input_token_id 7 steady_executor) = Some (Value tt, st')
    /\ chunk_tokens 7 [5] = []
    /\ tokens (prefill_inputs st') = replicate 128 0
    /\ current_step_ st' = 0
    /\ next_input_token_id_ st' = 5.
Proof. vm_compute. eexists. repeat split. Qed.

(** The claim as stated does not hold for every prompt: 256 ids of which
    the 128th, the last of the first chunk, is -1, are prefilled with
    success from a fresh executor, and [current_step] grows by 254, not by
    255: the deferred -1 is taken for "no pending token" by the second
    chunk and is never written. *)
Lemma Prefill_sentinel_at_chunk_end_counterexample :
  exists st',
    (1 <= length prompt_with_sentinel)%nat
    /\ next_input_token_id_ steady_executor = -1
    /\ Prefill (compiled_models := steady) (utils := greedy_utils)
         (Some (token_tensor prompt_with_sentinel)) steady_executor
       = Some (Value tt, st')
    /\ current_step_ st' = 254
    /\ current_step_ st'
       <> current_step_ steady_executor
          + (Z.of_nat (length prompt_with_sentinel) - 1).
Proof.
  assert (E : exists st',
             Prefill (compiled_models := steady) (utils := greedy_utils)
               (Some (token_tensor prompt_with_sentinel)) steady_executor
             = Some (Value tt, st')
             /\ current_step_ st' = 254)
    by (vm_compute; eexists; split; reflexivity).
  destruct E as (st' & E & Hstep). exists st'.
  split; [vm_compute; lia|]. split; [reflexivity|]. split; [exact E|].
  split; [exact Hstep|]. rewrite Hstep. vm_compute. discriminate.
Qed.

End ExecutorFacts.

(* ================================================================== *)
(** * Further properties: round trips, invariants, liveness *)
(* ================================================================== *)

Module ResponsesProperties.
Import Responses ResponsesFacts.

(** X1.  The bounds of [GetResponseTextAt] are those of the candidate
    count given to the constructor, not those of the vector of texts: an
    index below 0 or not below the count is rejected with InvalidArgument
    whatever the caller wrote through [GetMutableResponseTexts]; an index
    in range returns the empty text on a fresh object and, after the
    caller replaced the texts, the text at that index, when there is one
    (the read is out of bounds when the caller left fewer texts). *)
Theorem GetResponseTextAt_bounds_and_texts :
  forall (num_candidates : Z) (r : t) (texts : list string) (index : Z),
    Responses num_candidates = Some r ->
    ((index < 0 \/ num_candidates <= index) ->
     exists msg,
       GetResponseTextAt (write_response_texts texts r) index
       = Some (Error (InvalidArgumentError msg)))
    /\ (0 <= index < num_candidates ->
        GetResponseTextAt r index = Some (Value EmptyString)
        /\ GetResponseTextAt (write_response_texts texts r) index
           = Value <$> texts !! Z.to_nat index).
Proof.
  intros n r texts index Hr. unfold Responses in Hr.
  destruct (n <? 0) eqn:En; [discriminate|]. injection Hr as <-.
  unfold GetResponseTextAt. cbn [num_output_candidates_ write_response_texts
                                 response_texts_].
  split.
  - intros Hout.
    replace ((index <? 0) || (index >=? n)) with true by lia.
    eexists. reflexivity.
  - intros Hin.
    replace ((index <? 0) || (index >=? n)) with false by lia.
    split; [|reflexivity].
    rewrite lookup_replicate_2 by lia. reflexivity.
Qed.

Lemma GetResponseTextAt_bounds_and_texts_witness :
  (exists msg,
      GetResponseTextAt
        (write_response_texts ["a"; "b"]
           {| num_output_candidates_ := 2;
              response_texts_ := [EmptyString; EmptyString];
              scores_ := [] |}) 2
      = Some (Error (InvalidArgumentError msg)))
  /\ GetResponseTextAt
       (write_response_texts ["a"; "b"]
          {| num_output_candidates_ := 2;
             response_texts_ := [EmptyString; EmptyString];
             scores_ := [] |}) 1
     = Some (Value "b")
  /\ GetResponseTextAt
       (write_response_texts ["a"]
          {| num_output_candidates_ := 2;
             response_texts_ := [EmptyString; EmptyString];
             scores_ := [] |}) 1
     = None.
Proof.
  destruct (GetResponseTextAt_bounds_and_texts 2
              {| num_output_candidates_ := 2;
                 response_texts_ := [EmptyString; EmptyString];
                 scores_ := [] |} ["a"; "b"] 2 eq_refl) as [H1 _].
  destruct (GetResponseTextAt_bounds_and_texts 2
              {| num_output_candidates_ := 2;
                 response_texts_ := [EmptyString; EmptyString];
                 scores_ := [] |} ["a"; "b"] 1 eq_refl) as [_ H2].
  destruct (GetResponseTextAt_bounds_and_texts 2
              {| num_output_candidates_ := 2;
                 response_texts_ := [EmptyString; EmptyString];
                 scores_ := [] |} ["a"] 1 eq_refl) as [_ H3].
  split; [apply H1; lia|].
  split; [apply H2; lia | apply H3; lia].
Defined.

Lemma calls_no_candidates (cs : list Call) (r : t) :
  num_output_candidates_ r = 0 -> scores_ r = [] ->
  num_output_candidates_ (calls cs r) = 0 /\ scores_ (calls cs r) = [].
Proof.
  revert r. induction cs as [|c cs IH]; intros r Hn Hs; [split; assumption|].
  apply IH; destruct c; cbn; try assumption.
  - unfold GetMutableScores. now rewrite Hs.
  - unfold GetMutableScores. rewrite Hs, Hn. reflexivity.
Qed.

(** X2.  A [Responses] object made for 0 candidates never has scores:
    after any sequence of [GetMutableScores] calls and writes to the texts,
    [GetScoreAt] fails with "Scores are not set." for every index (the
    vector [GetMutableScores] allocates is empty, so the next call
    allocates again). *)
Theorem GetScoreAt_no_candidates :
  forall (r : t) (cs : list Call) (index : Z),
    Responses 0 = Some r ->
    GetScoreAt (calls cs r) index
    = Error (InvalidArgumentError "Scores are not set.").
Proof.
  intros r cs index Hr.
  assert (H0 : num_output_candidates_ r = 0 /\ scores_ r = [])
    by (injection Hr as <-; split; reflexivity).
  destruct H0 as [Hn Hs0].
  destruct (calls_no_candidates cs r Hn Hs0) as [_ Hs].
  unfold GetScoreAt. now rewrite Hs.
Qed.

Lemma GetScoreAt_no_candidates_witness :
  GetScoreAt
    (calls [CallGetMutableScores; CallWriteResponseTexts ["x"];
            CallGetMutableScores]
       {| num_output_candidates_ := 0; response_texts_ := [];
          scores_ := [] |}) 0
  = Error (InvalidArgumentError "Scores are not set.").
Proof.
  apply (GetScoreAt_no_candidates
           {| num_output_candidates_ := 0; response_texts_ := [];
              scores_ := [] |}
           [CallGetMutableScores; CallWriteResponseTexts ["x"];
            CallGetMutableScores] 0 eq_refl).
Defined.

End ResponsesProperties.

Module BenchmarkInfoProperties.
Import BenchmarkInfo BenchmarkInfoFacts.

Ltac unfold_calls :=
  unfold TimeInitPhaseStart, TimeInitPhaseEnd, TimeMarkDelta,
    TimePrefillTurnStart, TimePrefillTurnEnd, TimeDecodeTurnStart,
    TimeDecodeTurnEnd.

(** A call inserts into [start_time_map_] only under a key that is not
    there yet. *)
Lemma call_start_time_map_fresh (c : Call) (b : t) :
  start_time_map_ (snd (call c b)) = start_time_map_ b
  \/ exists key now,
       start_time_map_ b !! key = None
       /\ start_time_map_ (snd (call c b)) = <[key := now]> (start_time_map_ b).
Proof.
  destruct c; simpl; unfold_calls;
    try (match goal with
         | |- context [start_time_map_ b !! ?k] =>
             destruct (start_time_map_ b !! k) eqn:E
         end; simpl; eauto).
  left. reflexivity.
Qed.

Lemma calls_keep_start_time (cs : list Call) (b : t) (k : string) (started : Time) :
  start_time_map_ b !! k = Some started ->
  start_time_map_ (calls cs b) !! k = Some started.
Proof.
  revert b. induction cs as [|c cs IH]; intros b Hk; simpl; [exact Hk|].
  apply IH.
  destruct (call_start_time_map_fresh c b) as [-> | (key & now & Hnone & ->)];
    [exact Hk|].
  rewrite lookup_insert_ne; [exact Hk | congruence].
Qed.

(** X3.  A start time is never overwritten or erased: once a key of
    [start_time_map_] has a time, it has that same time after any further
    sequence of recording calls. *)
Theorem start_time_is_kept :
  forall (before later : list Call) (key : string) (started : Time),
    start_time_map_ (calls before BenchmarkInfo) !! key = Some started ->
    start_time_map_ (calls later (calls before BenchmarkInfo)) !! key
    = Some started.
Proof. intros before later key started. apply calls_keep_start_time. Qed.

Lemma start_time_is_kept_witness :
  start_time_map_
    (calls [CallInitPhaseEnd "load" 50; CallInitPhaseStart "load" 60;
            CallPrefillTurnStart 70]
       (calls [CallInitPhaseStart "load" 20] BenchmarkInfo))
  !! "load" = Some 20.
Proof.
  apply (start_time_is_kept [CallInitPhaseStart "load" 20]
           [CallInitPhaseEnd "load" 50; CallInitPhaseStart "load" 60;
            CallPrefillTurnStart 70] "load" 20).
  reflexivity.
Defined.

(** X4.  When [TimeInitPhaseStart] of a phase returned OK at clock reading
    [now1], then after any calls in between [TimeInitPhaseEnd] of that phase
    at reading [now2] returns OK and records [now2 - now1] for it, which
    [GetInitPhases] then shows. *)
Theorem init_phase_duration_recorded :
  forall (b0 : t) (between : list Call) (phase_name : string)
         (now1 now2 : Time),
    fst (TimeInitPhaseStart phase_name now1 b0) = OkStatus ->
    let b := calls between (snd (TimeInitPhaseStart phase_name now1 b0)) in
    TimeInitPhaseEnd phase_name now2 b
    = (OkStatus, set_init_phase phase_name (now2 - now1) b)
    /\ GetInitPhases (snd (TimeInitPhaseEnd phase_name now2 b)) !! phase_name
       = Some (now2 - now1).
Proof.
  intros b0 between name now1 now2 Hok b.
  assert (Hs : start_time_map_ b !! name = Some now1).
  { apply calls_keep_start_time. unfold TimeInitPhaseStart in *.
    destruct (start_time_map_ b0 !! name); [discriminate Hok|].
    cbn. apply lookup_insert_eq. }
  clearbody b. unfold TimeInitPhaseEnd, Time, Duration in *. rewrite Hs.
  split; [reflexivity|]. cbn. apply lookup_insert_eq.
Qed.

Lemma init_phase_duration_recorded_witness :
  GetInitPhases
    (snd (TimeInitPhaseEnd "load" 70
            (calls [CallPrefillTurnStart 30; CallInitPhaseStart "load" 40;
                    CallInitPhaseEnd "load" 50]
               (snd (TimeInitPhaseStart "load" 20 BenchmarkInfo)))))
  !! "load" = Some (70 - 20).
Proof.
  apply (init_phase_duration_recorded BenchmarkInfo
           [CallPrefillTurnStart 30; CallInitPhaseStart "load" 40;
            CallInitPhaseEnd "load" 50] "load" 20 70 eq_refl).
Defined.

Lemma call_turns_counted (c : Call) (b : t) :
  turns_counted b -> turns_counted (snd (call c b)).
Proof.
  unfold turns_counted. intros [Hp Hd].
  destruct c; simpl; unfold_calls;
    try (match goal with
         | |- context [start_time_map_ b !! ?k] =>
             destruct (start_time_map_ b !! k)
         end); simpl; rewrite ?length_app; simpl; split; lia.
Qed.

Lemma calls_turns_counted (cs : list Call) (b : t) :
  turns_counted b -> turns_counted (calls cs b).
Proof.
  revert b. induction cs as [|c cs IH]; intros b Hb; simpl; [exact Hb|].
  apply IH, call_turns_counted, Hb.
Qed.

(** X5.  From construction on and after any sequence of recording calls,
    the prefill and decode turn indices equal the numbers of recorded turns
    ([GetTotalPrefillTurns], [GetTotalDecodeTurns]), so the turn at the
    current index does not exist yet. *)
Theorem turn_index_counts_turns :
  forall (cs : list Call),
    let b := calls cs BenchmarkInfo in
    prefill_turn_index_ b = GetTotalPrefillTurns b
    /\ decode_turn_index_ b = GetTotalDecodeTurns b
    /\ GetPrefillTurn b (prefill_turn_index_ b) = None
    /\ GetDecodeTurn b (decode_turn_index_ b) = None.
Proof.
  intros cs b.
  destruct (calls_turns_counted cs BenchmarkInfo) as [Hp Hd];
    [split; reflexivity|].
  fold b in Hp, Hd. clearbody b.
  unfold GetTotalPrefillTurns, GetTotalDecodeTurns, GetPrefillTurn,
    GetDecodeTurn.
  rewrite Hp, Hd.
  replace (Z.of_nat (length (prefill_turns_ b)) <? 0) with false by lia.
  replace (Z.of_nat (length (decode_turns_ b)) <? 0) with false by lia.
  rewrite !Nat2Z.id.
  repeat split; apply lookup_ge_None_2; lia.
Qed.

(** Calls that end no prefill turn keep the prefill turns. *)
Lemma calls_keep_prefill_turns (cs : list Call) (b : t) :
  forallb (fun c => negb (is_prefill_turn_end c)) cs = true ->
  prefill_turn_index_ (calls cs b) = prefill_turn_index_ b
  /\ prefill_turns_ (calls cs b) = prefill_turns_ b.
Proof.
  revert b. induction cs as [|c cs IH]; intros b Hcs; simpl in *;
    [split; reflexivity|].
  apply andb_prop in Hcs as [Hc Hcs].
  destruct (IH (snd (call c b)) Hcs) as [-> ->].
  destruct c; try discriminate; simpl; unfold_calls;
    try (match goal with
         | |- context [start_time_map_ b !! ?k] =>
             destruct (start_time_map_ b !! k)
         end); simpl; split; reflexivity.
Qed.

Lemma calls_keep_decode_turns (cs : list Call) (b : t) :
  forallb (fun c => negb (is_decode_turn_end c)) cs = true ->
  decode_turn_index_ (calls cs b) = decode_turn_index_ b
  /\ decode_turns_ (calls cs b) = decode_turns_ b.
Proof.
  revert b. induction cs as [|c cs IH]; intros b Hcs; simpl in *;
    [split; reflexivity|].
  apply andb_prop in Hcs as [Hc Hcs].
  destruct (IH (snd (call c b)) Hcs) as [-> ->].
  destruct c; try discriminate; simpl; unfold_calls;
    try (match goal with
         | |- context [start_time_map_ b !! ?k] =>
             destruct (start_time_map_ b !! k)
         end); simpl; split; reflexivity.
Qed.

(** X6.  A prefill turn started with OK at reading [now1] and ended at
    [now2], with no other prefill turn end in between, is appended as the
    turn of the index it was started under, with duration [now2 - now1] and
    the given token count; the number of turns and the index grow by 1. *)
Theorem prefill_turn_recorded :
  forall (before between : list Call) (num_prefill_tokens : Z)
         (now1 now2 : Time),
    let b0 := calls before BenchmarkInfo in
    fst (TimePrefillTurnStart now1 b0) = OkStatus ->
    forallb (fun c => negb (is_prefill_turn_end c)) between = true ->
    let b := calls between (snd (TimePrefillTurnStart now1 b0)) in
    exists b',
      TimePrefillTurnEnd num_prefill_tokens now2 b = (OkStatus, b')
      /\ GetPrefillTurn b' (prefill_turn_index_ b0)
         = Some (MkTurn (now2 - now1) num_prefill_tokens)
      /\ GetTotalPrefillTurns b' = GetTotalPrefillTurns b0 + 1
      /\ prefill_turn_index_ b' = prefill_turn_index_ b0 + 1.
Proof.
  intros before between n now1 now2 b0 Hok Hbetween b.
  destruct (calls_turns_counted before BenchmarkInfo) as [Hcount _];
    [split; reflexivity|].
  fold b0 in Hcount.
  assert (Hb1 : prefill_turn_index_ (snd (TimePrefillTurnStart now1 b0))
                = prefill_turn_index_ b0
                /\ prefill_turns_ (snd (TimePrefillTurnStart now1 b0))
                   = prefill_turns_ b0
                /\ start_time_map_ (snd (TimePrefillTurnStart now1 b0))
                   !! prefill_phase_name b0 = Some now1).
  { unfold TimePrefillTurnStart in *.
    destruct (start_time_map_ b0 !! prefill_phase_name b0);
      [discriminate Hok|].
    cbn. repeat split. apply lookup_insert_eq. }
  destruct Hb1 as (Hi1 & Ht1 & Hs1).
  destruct (calls_keep_prefill_turns between
              (snd (TimePrefillTurnStart now1 b0)) Hbetween) as [Hi Ht].
  fold b in Hi, Ht. rewrite Hi1 in Hi. rewrite Ht1 in Ht.
  pose proof (calls_keep_start_time between _ _ _ Hs1) as Hs. fold b in Hs.
  clearbody b b0.
  unfold TimePrefillTurnEnd, prefill_phase_name, Time, Duration in *.
  rewrite Hi, Hs.
  eexists. split; [reflexivity|].
  unfold GetPrefillTurn, GetTotalPrefillTurns. cbn. rewrite Ht, Hcount.
  replace (Z.of_nat (length (prefill_turns_ b0)) <? 0) with false by lia.
  rewrite Nat2Z.id, length_app. cbn.
  split; [now apply list_lookup_middle|]. split; lia.
Qed.

Lemma prefill_turn_recorded_witness :
  exists b',
    TimePrefillTurnEnd 12 90
      (calls [CallDecodeTurnStart 50; CallMarkDelta "m" 60 61]
         (snd (TimePrefillTurnStart 40
                 (calls [CallPrefillTurnStart 10; CallPrefillTurnEnd 5 30]
                    BenchmarkInfo))))
    = (OkStatus, b')
    /\ GetPrefillTurn b' 1 = Some (MkTurn (90 - 40) 12)
    /\ GetTotalPrefillTurns b' = 1 + 1.
Proof.
  destruct (prefill_turn_recorded
              [CallPrefillTurnStart 10; CallPrefillTurnEnd 5 30]
              [CallDecodeTurnStart 50; CallMarkDelta "m" 60 61]
              12 40 90 eq_refl eq_refl) as (b' & H1 & H2 & H3 & _).
  exists b'. split; [exact H1|]. split; [exact H2 | exact H3].
Defined.

(** X7.  The same for a decode turn: started with OK at [now1] and ended
    at [now2] with no other decode turn end in between, it is appended at
    the index it was started under with duration [now2 - now1] and the
    given token count. *)
Theorem decode_turn_recorded :
  forall (before between : list Call) (num_decode_tokens : Z)
         (now1 now2 : Time),
    let b0 := calls before BenchmarkInfo in
    fst (TimeDecodeTurnStart now1 b0) = OkStatus ->
    forallb (fun c => negb (is_decode_turn_end c)) between = true ->
    let b := calls between (snd (TimeDecodeTurnStart now1 b0)) in
    exists b',
      TimeDecodeTurnEnd num_decode_tokens now2 b = (OkStatus, b')
      /\ GetDecodeTurn b' (decode_turn_index_ b0)
         = Some (MkTurn (now2 - now1) num_decode_tokens)
      /\ GetTotalDecodeTurns b' = GetTotalDecodeTurns b0 + 1
      /\ decode_turn_index_ b' = decode_turn_index_ b0 + 1.
Proof.
  intros before between n now1 now2 b0 Hok Hbetween b.
  destruct (calls_turns_counted before BenchmarkInfo) as [_ Hcount];
    [split; reflexivity|].
  fold b0 in Hcount.
  assert (Hb1 : decode_turn_index_ (snd (TimeDecodeTurnStart now1 b0))
                = decode_turn_index_ b0
                /\ decode_turns_ (snd (TimeDecodeTurnStart now1 b0))
                   = decode_turns_ b0
                /\ start_time_map_ (snd (TimeDecodeTurnStart now1 b0))
                   !! decode_phase_name b0 = Some now1).
  { unfold TimeDecodeTurnStart in *.
    destruct (start_time_map_ b0 !! decode_phase_name b0);
      [discriminate Hok|].
    cbn. repeat split. apply lookup_insert_eq. }
  destruct Hb1 as (Hi1 & Ht1 & Hs1).
  destruct (calls_keep_decode_turns between
              (snd (TimeDecodeTurnStart now1 b0)) Hbetween) as [Hi Ht].
  fold b in Hi, Ht. rewrite Hi1 in Hi. rewrite Ht1 in Ht.
  pose proof (calls_keep_start_time between _ _ _ Hs1) as Hs. fold b in Hs.
  clearbody b b0.
  unfold TimeDecodeTurnEnd, decode_phase_name, Time, Duration in *.
  rewrite Hi, Hs.
  eexists. split; [reflexivity|].
  unfold GetDecodeTurn, GetTotalDecodeTurns. cbn. rewrite Ht, Hcount.
  replace (Z.of_nat (length (decode_turns_ b0)) <? 0) with false by lia.
  rewrite Nat2Z.id, length_app. cbn.
  split; [now apply list_lookup_middle|]. split; lia.
Qed.

Lemma decode_turn_recorded_witness :
  exists b',
    TimeDecodeTurnEnd 12 90
      (calls [CallPrefillTurnStart 50; CallMarkDelta "m" 60 61]
         (snd (TimeDecodeTurnStart 40
                 (calls [CallDecodeTurnStart 10; CallDecodeTurnEnd 5 30]
                    BenchmarkInfo))))
    = (OkStatus, b')
    /\ GetDecodeTurn b' 1 = Some (MkTurn (90 - 40) 12)
    /\ GetTotalDecodeTurns b' = 1 + 1.
Proof.
  destruct (decode_turn_recorded
              [CallDecodeTurnStart 10; CallDecodeTurnEnd 5 30]
              [CallPrefillTurnStart 50; CallMarkDelta "m" 60 61]
              12 40 90 eq_refl eq_refl) as (b' & H1 & H2 & H3 & _).
  exists b'. split; [exact H1|]. split; [exact H2 | exact H3].
Defined.

(** X9.  Starting a prefill (decode) turn a second time before a prefill
    (decode) turn end fails with an internal error and changes nothing,
    whatever the first start returned and whatever other calls lie
    between. *)
Theorem turn_start_twice :
  forall (b0 : t) (between : list Call) (now1 now2 : Time),
    (forallb (fun c => negb (is_prefill_turn_end c)) between = true ->
     let b := calls between (snd (TimePrefillTurnStart now1 b0)) in
     exists msg, TimePrefillTurnStart now2 b = (InternalError msg, b))
    /\ (forallb (fun c => negb (is_decode_turn_end c)) between = true ->
        let b := calls between (snd (TimeDecodeTurnStart now1 b0)) in
        exists msg, TimeDecodeTurnStart now2 b = (InternalError msg, b)).
Proof.
  intros b0 between now1 now2. split; intros Hbetween b.
  - assert (H1 : prefill_turn_index_ (snd (TimePrefillTurnStart now1 b0))
                 = prefill_turn_index_ b0
                 /\ is_Some (start_time_map_
                               (snd (TimePrefillTurnStart now1 b0))
                             !! prefill_phase_name b0)).
    { unfold TimePrefillTurnStart.
      destruct (start_time_map_ b0 !! prefill_phase_name b0) eqn:E; cbn.
      - split; [reflexivity|]. rewrite E. eauto.
      - split; [reflexivity|]. rewrite lookup_insert_eq. eauto. }
    destruct H1 as [Hi1 Hs1].
    destruct (calls_keep_prefill_turns between
                (snd (TimePrefillTurnStart now1 b0)) Hbetween) as [Hi _].
    fold b in Hi. rewrite Hi1 in Hi.
    pose proof (calls_keep_started between _ _ Hs1) as [started Hs].
    fold b in Hs. clearbody b.
    unfold TimePrefillTurnStart, prefill_phase_name, Time in *.
    rewrite Hi, Hs. eexists. reflexivity.
  - assert (H1 : decode_turn_index_ (snd (TimeDecodeTurnStart now1 b0))
                 = decode_turn_index_ b0
                 /\ is_Some (start_time_map_
                               (snd (TimeDecodeTurnStart now1 b0))
                             !! decode_phase_name b0)).
    { unfold TimeDecodeTurnStart.
      destruct (start_time_map_ b0 !! decode_phase_name b0) eqn:E; cbn.
      - split; [reflexivity|]. rewrite E. eauto.
      - split; [reflexivity|]. rewrite lookup_insert_eq. eauto. }
    destruct H1 as [Hi1 Hs1].
    destruct (calls_keep_decode_turns between
                (snd (TimeDecodeTurnStart now1 b0)) Hbetween) as [Hi _].
    fold b in Hi. rewrite Hi1 in Hi.
    pose proof (calls_keep_started between _ _ Hs1) as [started Hs].
    fold b in Hs. clearbody b.
    unfold TimeDecodeTurnStart, decode_phase_name, Time in *.
    rewrite Hi, Hs. eexists. reflexivity.
Qed.

Lemma turn_start_twice_witness :
  (exists msg,
      TimePrefillTurnStart 30
        (calls [CallDecodeTurnStart 20; CallDecodeTurnEnd 1 25]
           (snd (TimePrefillTurnStart 10 BenchmarkInfo)))
      = (InternalError msg,
         calls [CallDecodeTurnStart 20; CallDecodeTurnEnd 1 25]
           (snd (TimePrefillTurnStart 10 BenchmarkInfo))))
  /\ (exists msg,
         TimeDecodeTurnStart 30
           (calls [CallPrefillTurnStart 20; CallPrefillTurnEnd 1 25]
              (snd (TimeDecodeTurnStart 10 BenchmarkInfo)))
         = (InternalError msg,
            calls [CallPrefillTurnStart 20; CallPrefillTurnEnd 1 25]
              (snd (TimeDecodeTurnStart 10 BenchmarkInfo)))).
Proof.
  destruct (turn_start_twice BenchmarkInfo
              [CallDecodeTurnStart 20; CallDecodeTurnEnd 1 25] 10 30)
    as [H1 _].
  destruct (turn_start_twice BenchmarkInfo
              [CallPrefillTurnStart 20; CallPrefillTurnEnd 1 25] 10 30)
    as [_ H2].
  split; [apply H1 | apply H2]; reflexivity.
Defined.

(** Calls that are not a mark of [name] keep what is recorded for it. *)
Lemma calls_keep_mark (cs : list Call) (b : t) (name : string) :
  forallb (fun c => negb (is_mark_delta name c)) cs = true ->
  mark_time_map_ (calls cs b) !! name = mark_time_map_ b !! name
  /\ mark_durations_ (calls cs b) !! name = mark_durations_ b !! name.
Proof.
  revert b. induction cs as [|c cs IH]; intros b Hcs; simpl in *;
    [split; reflexivity|].
  apply andb_prop in Hcs as [Hc Hcs].
  destruct (IH (snd (call c b)) Hcs) as [-> ->].
  destruct c; simpl in *; unfold_calls;
    try (match goal with
         | |- context [start_time_map_ b !! ?k] =>
             destruct (start_time_map_ b !! k)
         end; simpl; split; reflexivity).
  apply negb_true_iff, bool_decide_eq_false in Hc. cbn.
  split; [now rewrite lookup_insert_ne|].
  destruct (mark_time_map_ b !! mark_name); [|reflexivity].
  now rewrite lookup_insert_ne.
Qed.

(** X8.  [TimeMarkDelta] always returns OK.  The second mark of a name
    records the time from the last clock reading of the first mark to the
    first reading of the second, whatever calls on other names lie between;
    the first mark of a name records no duration. *)
Theorem mark_delta_recorded :
  forall (b0 : t) (between : list Call) (mark_name : string)
         (now0 now1 now2 now3 : Time),
    forallb (fun c => negb (is_mark_delta mark_name c)) between = true ->
    let b1 := snd (TimeMarkDelta mark_name now0 now1 b0) in
    let b := calls between b1 in
    fst (TimeMarkDelta mark_name now2 now3 b) = OkStatus
    /\ GetMarkDurations (snd (TimeMarkDelta mark_name now2 now3 b)) !! mark_name
       = Some (now2 - now1)
    /\ (mark_time_map_ b0 !! mark_name = None ->
        GetMarkDurations b1 !! mark_name
        = GetMarkDurations b0 !! mark_name).
Proof.
  intros b0 between name now0 now1 now2 now3 Hbetween b1 b.
  destruct (calls_keep_mark between b1 name Hbetween) as [Hm _].
  fold b in Hm.
  assert (Hm1 : mark_time_map_ b1 !! name = Some now1)
    by (subst b1; cbn; apply lookup_insert_eq).
  rewrite Hm1 in Hm. split; [reflexivity|]. split.
  - unfold GetMarkDurations, TimeMarkDelta, Time, Duration in *. cbn.
    rewrite Hm. apply lookup_insert_eq.
  - intros Hnone. subst b1. unfold GetMarkDurations, TimeMarkDelta. cbn.
    destruct (mark_time_map_ b0 !! name); [discriminate Hnone | reflexivity].
Qed.

Lemma mark_delta_recorded_witness :
  GetMarkDurations
    (snd (TimeMarkDelta "sampling" 70 71
            (calls [CallMarkDelta "other" 30 31; CallInitPhaseStart "x" 40]
               (snd (TimeMarkDelta "sampling" 10 11 BenchmarkInfo)))))
  !! "sampling" = Some (70 - 11)
  /\ GetMarkDurations (snd (TimeMarkDelta "sampling" 10 11 BenchmarkInfo))
     !! "sampling" = None.
Proof.
  destruct (mark_delta_recorded BenchmarkInfo
              [CallMarkDelta "other" 30 31; CallInitPhaseStart "x" 40]
              "sampling" 10 11 70 71 eq_refl) as (_ & H2 & H3).
  split; [exact H2 | apply H3; reflexivity].
Defined.

End BenchmarkInfoProperties.

Module ModelAssetBundleResourcesProperties.
Import ModelAssetBundleResources.

(** X10.  [ListFiles] names every entry of the bundle once: the list has no
    duplicate and as many names as [files_] has entries. *)
Theorem ListFiles_each_name_once :
  forall (b : t),
    NoDup (ListFiles b) /\ length (ListFiles b) = size (files_ b).
Proof.
  intros b. unfold ListFiles. split.
  - apply NoDup_fst_map_to_list.
  - rewrite length_fmap. apply length_map_to_list.
Qed.

End ModelAssetBundleResourcesProperties.

Module TokenizerProperties.
Import Tokenizer HuggingFaceTokenizer StringFacts HuggingFaceTokenizerFacts.

(** X11.  [MergeTokenIds] fails with InvalidArgument when the two batches
    differ in their number of rows; otherwise it returns as many rows as
    the batches have, and row [i] is row [i] of the previous ids followed
    by row [i] of the next ids. *)
Theorem MergeTokenIds_rows :
  forall (previous_token_ids next_token_ids : list TokenIds),
    (length previous_token_ids <> length next_token_ids ->
     exists msg,
       MergeTokenIds previous_token_ids next_token_ids
       = Error (InvalidArgumentError msg))
    /\ (length previous_token_ids = length next_token_ids ->
        exists merged,
          MergeTokenIds previous_token_ids next_token_ids = Value merged
          /\ length merged = length next_token_ids
          /\ forall i p n,
               previous_token_ids !! i = Some p ->
               next_token_ids !! i = Some n ->
               merged !! i = Some (p ++ n)).
Proof.
  intros prev next. unfold MergeTokenIds, TokenIds in *. split; intros H.
  - rewrite bool_decide_eq_false_2 by exact H. eexists. reflexivity.
  - rewrite bool_decide_eq_true_2 by exact H. eexists.
    split; [reflexivity|]. split.
    + rewrite length_zip_with. lia.
    + intros i p n Hp Hn. rewrite lookup_zip_with, Hp. cbn. rewrite Hn.
      reflexivity.
Qed.

Lemma MergeTokenIds_rows_witness :
  (exists msg,
      MergeTokenIds [[1; 2]] [[3]; [4]] = Error (InvalidArgumentError msg))
  /\ exists merged,
       MergeTokenIds [[1; 2]; []] [[3]; [4]] = Value merged
       /\ merged !! 0%nat = Some [1; 2; 3]
       /\ merged !! 1%nat = Some [4].
Proof.
  destruct (MergeTokenIds_rows [[1; 2]] [[3]; [4]]) as [H1 _].
  destruct (MergeTokenIds_rows [[1; 2]; []] [[3]; [4]]) as [_ H2].
  split; [apply H1; cbn; lia|].
  destruct (H2 eq_refl) as (merged & Hm & _ & Hrows).
  exists merged. split; [exact Hm|].
  split; [apply (Hrows 0%nat [1; 2] [3]) | apply (Hrows 1%nat [] [4])];
    reflexivity.
Defined.

Lemma zip_with_app_assoc (a b c : list TokenIds) :
  zip_with app (zip_with app a b) c = zip_with app a (zip_with app b c).
Proof.
  revert b c. induction a as [|x a IH]; intros [|y b] [|z c]; cbn;
    try reflexivity.
  now rewrite IH, app_assoc.
Qed.

(** X12.  Merging is associative: for three batches with the same number
    of rows, merging the first two and then the third gives the same rows
    as merging the first with the merge of the last two, and all four
    merges succeed. *)
Theorem MergeTokenIds_assoc :
  forall (a b c : list TokenIds),
    length a = length b -> length b = length c ->
    exists ab bc abc,
      MergeTokenIds a b = Value ab
      /\ MergeTokenIds b c = Value bc
      /\ MergeTokenIds ab c = Value abc
      /\ MergeTokenIds a bc = Value abc.
Proof.
  intros a b c Hab Hbc. unfold MergeTokenIds, TokenIds in *.
  exists (zip_with app a b), (zip_with app b c),
    (zip_with app (zip_with app a b) c).
  rewrite !bool_decide_eq_true_2;
    rewrite ?length_zip_with; try lia.
  repeat split; try reflexivity.
  now rewrite zip_with_app_assoc.
Qed.

Lemma MergeTokenIds_assoc_witness :
  exists ab bc abc,
    MergeTokenIds [[1]; [2]] [[3]; []] = Value ab
    /\ MergeTokenIds [[3]; []] [[5]; [6]] = Value bc
    /\ MergeTokenIds ab [[5]; [6]] = Value abc
    /\ MergeTokenIds [[1]; [2]] bc = Value abc.
Proof.
  apply (MergeTokenIds_assoc [[1]; [2]] [[3]; []] [[5]; [6]]); reflexivity.
Defined.

Section WithSubclass.
Context {subclass : Subclass} {heap : Heap}.

(** The rows decode to [texts], row by row. *)
Lemma decode_rows_Value (rows : list TokenIds) (texts : list string) :
  decode_rows rows = Value texts
  <-> Forall2 (fun row text => Tokenizer.TokenIdsToText row = Value text) rows texts.
Proof.
  revert texts. induction rows as [|row rows IH]; intros texts; cbn.
  - split.
    + intros [= <-]. constructor.
    + intros H. inversion H. reflexivity.
  - destruct (Tokenizer.TokenIdsToText row) as [text|s] eqn:Er.
    + destruct (decode_rows rows) as [texts'|s] eqn:Ed.
      * split.
        { intros [= <-]. constructor; [exact Er | now apply IH]. }
        { intros H. inversion H as [|? t ? ts Ht Hts]; subst.
          apply IH in Hts. congruence. }
      * split; [discriminate|].
        intros H. inversion H as [|? t ? ts Ht Hts]; subst.
        apply IH in Hts. discriminate.
    + split; [discriminate|].
      intros H. inversion H; subst. congruence.
Qed.

Lemma first_error_cons (row : TokenIds) (rows : list TokenIds) (s : Status) :
  first_error (row :: rows) s
  <-> Tokenizer.TokenIdsToText row = Error s
      \/ (ok (Tokenizer.TokenIdsToText row) = true /\ first_error rows s).
Proof.
  split.
  - intros (i & r & Hi & Hr & Hbefore). destruct i as [|i]; cbn in Hi.
    + left. congruence.
    + right. split; [apply (Hbefore 0%nat row); [lia | reflexivity]|].
      exists i, r. split; [exact Hi|]. split; [exact Hr|].
      intros j e Hj He. apply (Hbefore (S j) e); [lia | exact He].
  - intros [Hr | (Hok & i & r & Hi & Hr & Hbefore)].
    + exists 0%nat, row. split; [reflexivity|]. split; [exact Hr|].
      intros j e Hj. lia.
    + exists (S i), r. split; [exact Hi|]. split; [exact Hr|].
      intros [|j] e Hj He; cbn in He.
      * congruence.
      * apply (Hbefore j e); [lia | exact He].
Qed.

(** The error of the rows is the error of the first row that does not
    decode. *)
Lemma decode_rows_Error (rows : list TokenIds) (s : Status) :
  decode_rows rows = Error s <-> first_error rows s.
Proof.
  induction rows as [|row rows IH].
  - split; [discriminate | intros (i & r & H & _); destruct i; discriminate].
  - rewrite first_error_cons, <- IH. cbn [decode_rows].
    destruct (Tokenizer.TokenIdsToText row) as [text|s0] eqn:Er; cbn [ok].
    + destruct (decode_rows rows) as [texts|s1].
      * split; [discriminate | intros [H | [_ H]]; discriminate].
      * split; [intros [= ->]; right; split; reflexivity|].
        intros [H | [_ H]]; [discriminate | exact H].
    + split; [intros [= ->]; left; reflexivity|].
      intros [[= ->] | [H _]]; [reflexivity | discriminate].
Qed.

(** X13.  [TokenIdsToTexts] with a batch size that is not negative and
    for which the vector of results can be allocated: a number of rows
    other than the batch size is rejected with InvalidArgument; otherwise
    the call returns texts exactly when every row decodes, each text that
    of its row, and it returns an error exactly when some row does not
    decode, the error of the first such row. *)
Theorem TokenIdsToTexts_rows :
  forall (batch_size : Z) (token_ids : list TokenIds),
    0 <= batch_size ->
    allocates batch_size = true ->
    (Z.of_nat (length token_ids) <> batch_size ->
     exists msg,
       TokenIdsToTexts batch_size token_ids
       = Some (Error (InvalidArgumentError msg)))
    /\ (Z.of_nat (length token_ids) = batch_size ->
        (forall texts,
            TokenIdsToTexts batch_size token_ids = Some (Value texts)
            <-> Forall2 (fun row text => Tokenizer.TokenIdsToText row = Value text)
                        token_ids texts)
        /\ (forall s,
               TokenIdsToTexts batch_size token_ids = Some (Error s)
               <-> first_error token_ids s)).
Proof.
  intros n rows Hn Halloc. unfold TokenIdsToTexts, TokenIds in *.
  rewrite Halloc. replace (n <? 0) with false by lia. cbn [orb negb].
  split; intros Hlen.
  - replace (negb (Z.of_nat (length rows) =? n)) with true by lia.
    eexists. reflexivity.
  - replace (negb (Z.of_nat (length rows) =? n)) with false by lia.
    split.
    + intros texts. rewrite <- decode_rows_Value.
      split; [intros [= ->]; reflexivity | intros ->; reflexivity].
    + intros s. rewrite <- decode_rows_Error.
      split; [intros [= ->]; reflexivity | intros ->; reflexivity].
Qed.

End WithSubclass.

Lemma TokenIdsToTexts_rows_witness :
  (exists msg,
      TokenIdsToTexts (subclass := as_Tokenizer byte_tokenizer)
        (heap := small_heap) 3
        [[72; 105]; [33]] = Some (Error (InvalidArgumentError msg)))
  /\ TokenIdsToTexts (subclass := as_Tokenizer byte_tokenizer)
        (heap := small_heap) 2
       [[72; 105]; [33]] = Some (Value ["Hi"; "!"])
  /\ exists s,
       TokenIdsToTexts (subclass := as_Tokenizer byte_tokenizer)
        (heap := small_heap) 3
         [[72]; [239; 191; 189]; [33]] = Some (Error s)
       /\ code s = kDataLoss.
Proof.
  destruct (@TokenIdsToTexts_rows (as_Tokenizer byte_tokenizer) small_heap 3
              [[72; 105]; [33]] ltac:(lia) eq_refl) as [H1 _].
  destruct (@TokenIdsToTexts_rows (as_Tokenizer byte_tokenizer) small_heap 2
              [[72; 105]; [33]] ltac:(lia) eq_refl) as [_ H2].
  destruct (@TokenIdsToTexts_rows (as_Tokenizer byte_tokenizer) small_heap 3
              [[72]; [239; 191; 189]; [33]] ltac:(lia) eq_refl) as [_ H3].
  split; [apply H1; cbn; lia|]. split.
  - apply (proj1 (H2 eq_refl)). repeat constructor.
  - eexists. split.
    + apply (proj2 (H3 eq_refl)). exists 1%nat, [239; 191; 189].
      split; [reflexivity|]. split; [vm_compute; reflexivity|].
      intros [|j] e Hj He; [|lia]. injection He as <-. reflexivity.
    + reflexivity.
Defined.

(** The rows of a batch the HuggingFace tokenizer decodes: the result is
    an incomplete BPE sequence exactly when some row ends with U+FFFD. *)
Lemma decode_rows_incomplete_bpe (tokenizer_ : TokenizersCpp)
    (rows : list TokenIds) :
  IsIncompleteBpeSequence
    (decode_rows (subclass := as_Tokenizer tokenizer_) rows) = true
  <-> Exists (fun row =>
                exists prefix, Decode row = prefix +:+ kReplacementCharacter)
             rows.
Proof.
  induction rows as [|row rows IH].
  - cbn. rewrite Exists_nil. split; [discriminate | tauto].
  - rewrite Exists_cons, <- IH, <- ends_with_spec. cbn [decode_rows].
    unfold as_Tokenizer at 1. cbn [Tokenizer.TokenIdsToText].
    unfold TokenIdsToText, has_bpe_suffix.
    destruct (ends_with (Decode row) kReplacementCharacter).
    + split; [left; reflexivity | reflexivity].
    + destruct (decode_rows rows) as [texts|s].
      * split; [discriminate | intros [H | H]; discriminate].
      * split; [right; assumption | intros [H | H]; [discriminate | exact H]].
Qed.

(** X14.  For the HuggingFace tokenizer, the result of [TokenIdsToTexts] is
    an incomplete BPE sequence ([IsIncompleteBpeSequence]) exactly when the
    number of rows is the batch size and the decoded text of some row ends
    with U+FFFD. *)
Theorem TokenIdsToTexts_incomplete_bpe :
  forall (tokenizer_ : TokenizersCpp) (heap : Heap) (batch_size : Z)
         (token_ids : list TokenIds) (result : StatusOr (list string)),
    TokenIdsToTexts (subclass := as_Tokenizer tokenizer_) batch_size token_ids
    = Some result ->
    (IsIncompleteBpeSequence result = true
     <-> Z.of_nat (length token_ids) = batch_size
         /\ Exists (fun row =>
                      exists prefix,
                        Decode row = prefix +:+ kReplacementCharacter)
                   token_ids).
Proof.
  intros tk heap n rows r. unfold TokenIdsToTexts, TokenIds in *.
  destruct ((n <? 0) || negb (allocates n)); [discriminate|].
  destruct (negb (Z.of_nat (length rows) =? n)) eqn:E; intros [= <-].
  - split; [discriminate | intros [H _]; lia].
  - rewrite decode_rows_incomplete_bpe. split; [intros H; split; [lia|exact H]|].
    tauto.
Qed.

Lemma TokenIdsToTexts_incomplete_bpe_witness :
  IsIncompleteBpeSequence (Error (A := list string)
    (DataLossError
       ("The set of token IDs passed to the tokenizer is part of a BPE " +:+
        "sequence and needs more tokens to be decoded."))) = true
  <-> Z.of_nat (length [[72]; [239; 191; 189]; [33]]) = 3
      /\ Exists (fun row =>
                   exists prefix,
                     Decode (TokenizersCpp := byte_tokenizer) row
                     = prefix +:+ kReplacementCharacter)
                [[72]; [239; 191; 189]; [33]].
Proof.
  apply (TokenIdsToTexts_incomplete_bpe byte_tokenizer small_heap 3
           [[72]; [239; 191; 189]; [33]]).
  vm_compute. reflexivity.
Defined.

End TokenizerProperties.

Module ExecutorProperties.
Import Executor ExecutorFacts.
#[local] Open Scope exec_scope.

Section WithCollaborators.
Context {compiled_models : CompiledModels} {utils : ExecutorUtils}.

Ltac next_run :=
  match goal with
  | |- context [RunSignature ?s ?i ?f ?st] =>
      let res := fresh "res" in
      let dev := fresh "dev" in
      let E := fresh "E" in
      destruct (RunSignature_inv s i f st) as (res & dev & E);
      rewrite E; clear E; destruct res; cbv beta iota
  end.


(** X15.  A successful [PrefillInternal]: the token buffer holds the
    pending token (if any, and the chunk has two ids at least) and the ids
    but the last, then zeros; the position buffer holds the positions from
    the old [current_step] on, then zeros; the time step buffer holds the
    old [current_step]; the five stages ran once each on these buffers, in
    the order embedder, RoPE, mask, LLM, cache update; [current_step] has
    grown by the number of tokens written; the last id is pending; the
    decode buffers and the two counters of tokens are as before. *)
Theorem PrefillInternal_absorbs_chunk :
  forall (prefill_signature : string) (ids : list Z) (st st' : State),
    PrefillInternal prefill_signature ids st = Some (Value tt, st') ->
    let w := chunk_tokens (next_input_token_id_ st) ids in
    prefill_inputs st'
    = {| tokens := padded (length (tokens (prefill_inputs st))) w;
         input_pos := padded (length (input_pos (prefill_inputs st)))
                             (seqZ (current_step_ st) (Z.of_nat (length w)));
         time_step := padded (length (time_step (prefill_inputs st)))
                             [current_step_ st] |}
    /\ run_log st' = run_log st ++ prefill_chunk_calls (prefill_inputs st')
    /\ current_step_ st' = current_step_ st + Z.of_nat (length w)
    /\ last ids = Some (next_input_token_id_ st')
    /\ decode_inputs st' = decode_inputs st
    /\ prefill_num_tokens (latency_stats_ st')
       = prefill_num_tokens (latency_stats_ st)
    /\ decode_num_tokens (latency_stats_ st')
       = decode_num_tokens (latency_stats_ st).
Proof.
  intros sig ids st st' H w.
  destruct (PrefillInternal_inv _ _ _ _ _ H) as (st1 & Hprep & _ & Hb & Hlog).
  destruct (PrefillInternal_prepare_inputs_spec _ _ _ Hprep)
    as (_ & Hbuf & _ & _ & _ & Hstep & Hlast & _ & Hd & Hl & _ & Hrl).
  destruct Hb as (Hs & Hn & _ & Hp & Hd' & Hl').
  rewrite Hs, Hn, Hp, Hd', Hl', Hl, (Hlog eq_refl), Hrl, last_lookup.
  replace (Nat.pred (length ids)) with (length ids - 1)%nat by lia.
  repeat split; assumption.
Qed.

(** X16.  A chunk of a single id writes no token: whatever the runs return,
    the token buffer is all zeros, [current_step] is as before, and the id
    is pending; a token that was pending before is lost. *)
Theorem PrefillInternal_single_id :
  forall (prefill_signature : string) (id : Z) (st : State)
         (r : StatusOr unit) (st' : State),
    PrefillInternal prefill_signature [id] st = Some (r, st') ->
    tokens (prefill_inputs st')
    = replicate (length (tokens (prefill_inputs st))) 0
    /\ current_step_ st' = current_step_ st
    /\ next_input_token_id_ st' = id.
Proof.
  intros sig id st r st' H.
  destruct (PrefillInternal_inv _ _ _ _ _ H) as (st1 & Hprep & _ & Hb & _).
  destruct (PrefillInternal_prepare_inputs_spec _ _ _ Hprep)
    as (_ & Hbuf & _ & _ & _ & Hstep & Hlast & _).
  destruct Hb as (Hs & Hn & _ & Hp & _).
  assert (Hw : chunk_tokens (next_input_token_id_ st) [id] = [])
    by (unfold chunk_tokens; cbn; now rewrite Bool.andb_false_r).
  rewrite Hw in Hbuf, Hstep.
  rewrite Hs, Hn, Hp, Hbuf, Hstep. cbn in Hlast. injection Hlast as <-.
  unfold padded. cbn [tokens app length]. rewrite Nat.sub_0_r.
  repeat split. lia.
Qed.



(** A decode step that takes the token [id]: what it writes, what it
    runs, and what it leaves as it was. *)
Lemma Decode_with_inputs_runs (inputs : ExecutorInputs) (st : State)
    (id : Z) (r : StatusOr unit) (st' : State) :
  selected_token inputs st = Some id ->
  id <> -1 ->
  Decode_with_inputs inputs st = Some (r, st') ->
  decode_inputs st'
  = decode_inputs_with id (current_step_ st) (decode_inputs st)
  /\ (1 <= length (tokens (decode_inputs st)))%nat
  /\ (1 <= length (input_pos (decode_inputs st)))%nat
  /\ (1 <= length (time_step (decode_inputs st)))%nat
  /\ next_input_token_id_ st' = -1
  /\ prefill_inputs st' = prefill_inputs st
  /\ prefill_signature_map_ st' = prefill_signature_map_ st
  /\ latency_stats_ st' = latency_stats_ st
  /\ exists k : nat,
       (1 <= k <= 5)%nat
       /\ run_log st'
          = run_log st ++ take k (decode_step_calls (decode_inputs st'))
       /\ (r = Value tt ->
           k = 5%nat /\ current_step_ st' = current_step_ st + 1)
       /\ (forall e, r = Error e -> current_step_ st' = current_step_ st).
Proof.
  intros Hsel Hid. unfold Decode_with_inputs.
  assert (Hselected :
    match inputs with
    | Some token_ids =>
        let input_tensor_size := Size token_ids in
        if negb (input_tensor_size =? 0) then
          if negb (input_tensor_size =? 1 * 4) then
            Error (MkStatus RET_CHECK_argument_code EmptyString)
          else
            match elements token_ids !! 0%nat with
            | Some id0 => Value id0
            | None => Value (next_input_token_id_ st)
            end
        else Value (next_input_token_id_ st)
    | None => Value (next_input_token_id_ st)
    end = Value id).
  { unfold selected_token in Hsel. destruct inputs as [t|].
    - unfold Size. destruct (elements t) as [|x [|y l]];
        cbn [length lookup list_lookup] in *.
      + change (4 * Z.of_nat 0 =? 0) with true. cbn. congruence.
      + change (4 * Z.of_nat 1 =? 0) with false.
        change (4 * Z.of_nat 1 =? 1 * 4) with true. cbn. congruence.
      + discriminate.
    - congruence. }
  cbv zeta in Hselected |- *. rewrite Hselected. clear Hselected.
  replace (id =? -1) with false by lia.
  destruct (store (tokens (decode_inputs (set_next_input_token_id (-1) st)))
              0 id) as [toks|] eqn:Et; [|discriminate].
  cbn [mbind option_bind].
  destruct (store (input_pos (decode_inputs (set_next_input_token_id (-1) st)))
              0 _) as [pos|] eqn:Ep; [|discriminate].
  cbn [mbind option_bind].
  destruct (store (time_step (decode_inputs (set_next_input_token_id (-1) st)))
              0 _) as [ts|] eqn:Es; [|discriminate].
  cbn [mbind option_bind].
  apply store_Some in Et as [HlT ->].
  apply store_Some in Ep as [HlP ->].
  apply store_Some in Es as [HlS ->].
  cbn [decode_inputs set_next_input_token_id current_step_] in *.
  unfold bind.
  repeat next_run;
    try (destruct (_ <? INT_MAX) eqn:Eo; [|discriminate]);
    intros [= <- <-];
    cbn [decode_inputs set_decode_inputs set_next_input_token_id ran
         set_current_step next_input_token_id_ prefill_inputs
         prefill_signature_map_ latency_stats_ run_log current_step_];
    (split; [reflexivity|]); (split; [lia|]); (split; [lia|]);
    (split; [lia|]); (split; [reflexivity|]); (split; [reflexivity|]);
    (split; [reflexivity|]); (split; [reflexivity|]);
    rewrite <- ?app_assoc; cbn [app];
    [ exists 5%nat | exists 5%nat | exists 4%nat | exists 3%nat
    | exists 2%nat | exists 1%nat ];
    (split; [lia|]); (split; [reflexivity|]);
    (split; [try discriminate; intros _; split; reflexivity
            | try discriminate; intros; reflexivity]).
Qed.

(** X21.  A decode step whose run fails has consumed its token:
    [current_step] is as before, the token is in the decode token buffer,
    no token is pending, and a [Decode] that follows fails with
    InvalidArgument "No id available to be decoded." and changes
    nothing. *)
Theorem Decode_failed_run_consumes_token :
  forall (inputs : ExecutorInputs) (st st' : State) (id : Z) (e : Status),
    selected_token inputs st = Some id ->
    id <> -1 ->
    Decode_with_inputs inputs st = Some (Error e, st') ->
    current_step_ st' = current_step_ st
    /\ next_input_token_id_ st' = -1
    /\ tokens (decode_inputs st') !! 0%nat = Some id
    /\ (forall output_tokens,
          Decode output_tokens st'
          = Some (Error (InvalidArgumentError "No id available to be decoded."),
                  st')).
Proof.
  intros inputs st st' id e Hsel Hid H.
  destruct (Decode_with_inputs_runs _ _ _ _ _ Hsel Hid H)
    as (Hd & HlT & _ & _ & Hn & _ & _ & _ & k & _ & _ & _ & Hstep).
  split; [exact (Hstep e eq_refl)|]. split; [exact Hn|].
  split.
  { rewrite Hd. cbn [decode_inputs_with tokens].
    apply list_lookup_insert_eq. lia. }
  intros out. unfold Decode, Decode_with_inputs. cbv zeta. rewrite Hn.
  reflexivity.
Qed.

(** *** Prefill as a whole *)

(** A successful [Prefill]: the shape was accepted, the work groups were
    computed, and the loop over them consumed every id. *)
Lemma Prefill_inv (token_ids : TensorBuffer) (st st' : State) :
  Prefill (Some token_ids) st = Some (Value tt, st') ->
  exists work_groups,
    GetOptimizedPrefillWorkGroups (prefill_signature_map_ st)
      (Z.of_nat (length (elements token_ids))) = Value work_groups
    /\ Prefill_work_groups work_groups (elements token_ids) st
       = Some (Value [], st').
Proof.
  unfold Prefill. intros H.
  destruct (Dimensions token_ids !! 0%nat) as [batch|]; [|discriminate].
  destruct (negb (batch =? 1)); [discriminate|].
  destruct (Dimensions token_ids !! 1%nat) as [n|]; [|discriminate].
  destruct (negb (n >? 0)); [discriminate|].
  destruct (GetOptimizedPrefillWorkGroups _ _) as [wgs|e]; [|discriminate].
  exists wgs. split; [reflexivity|].
  unfold bind in H.
  destruct (Prefill_work_groups wgs (elements token_ids) st)
    as [[[rest|e] st1]|]; try discriminate.
  destruct (negb (Z.of_nat (length rest) =? 0)) eqn:E; [discriminate|].
  injection H as <-. destruct rest; [reflexivity | cbn in E; lia].
Qed.

(** The loop over the work groups takes from the ids, group after group,
    as many as the group is long, and every group is at least one id
    long. *)
Lemma Prefill_work_groups_lengths (work_groups : list (string * Z)) :
  forall (ids : list Z) (st : State) (rest : list Z) (st' : State),
    Prefill_work_groups work_groups ids st = Some (Value rest, st') ->
    Forall (fun c => 1 <= c)%nat (work_group_lengths work_groups)
    /\ length ids
       = (sum_list (work_group_lengths work_groups) + length rest)%nat.
Proof.
  induction work_groups as [|[sig len] wgs IH]; intros ids st rest st' H.
  - injection H as <- <-. split; [constructor | reflexivity].
  - destruct (Prefill_work_groups_cons _ _ _ _ _ _ _ H)
      as (st1 & st2 & Hc & _ & _ & Hloop).
    destruct (IH _ _ _ _ Hloop) as [Hall Hsum].
    rewrite length_drop in Hsum.
    change (work_group_lengths ((sig, len) :: wgs))
      with (Z.to_nat (to_size_t len) :: work_group_lengths wgs).
    split; [constructor; [lia | exact Hall]|].
    cbn [sum_list_with id]. lia.
Qed.

(** X19.  When [Prefill] succeeds, the work groups it was given cover the
    input exactly: every work group has a length of at least 1 (as
    [size_t]) and the lengths add up to the number of ids. *)
Theorem Prefill_success_work_groups_cover_input :
  forall (st st' : State) (token_ids : TensorBuffer)
         (work_groups : list (string * Z)),
    GetOptimizedPrefillWorkGroups (prefill_signature_map_ st)
      (Z.of_nat (length (elements token_ids))) = Value work_groups ->
    Prefill (Some token_ids) st = Some (Value tt, st') ->
    Forall (fun c => 1 <= c)%nat (work_group_lengths work_groups)
    /\ sum_list (work_group_lengths work_groups)
       = length (elements token_ids).
Proof.
  intros st st' t wgs Hwg H.
  destruct (Prefill_inv _ _ _ H) as (wgs' & Hwg' & Hloop).
  assert (wgs' = wgs) as -> by congruence.
  destruct (Prefill_work_groups_lengths _ _ _ _ _ Hloop) as [Hall Hsum].
  split; [exact Hall|]. cbn [length] in Hsum. lia.
Qed.

Lemma prefill_calls_app (caps : HostInputs) (step : Z)
    (segments1 segments2 : list (list Z)) :
  prefill_calls caps step (segments1 ++ segments2)
  = prefill_calls caps step segments1
    ++ prefill_calls caps (step + Z.of_nat (length (concat segments1)))
         segments2.
Proof.
  revert step. induction segments1 as [|seg segs IH]; intros step.
  - cbn. now rewrite Z.add_0_r.
  - cbn [app prefill_calls concat]. rewrite IH, <- app_assoc, length_app.
    do 3 f_equal. lia.
Qed.

(** A successful [Prefill] entered with the token [pending] (or -1 for
    none), when no token is lost between chunks. *)
Lemma Prefill_spec (st st' : State) (ids : list Z)
    (work_groups : list (string * Z)) :
  (1 <= length ids)%nat ->
  GetOptimizedPrefillWorkGroups (prefill_signature_map_ st)
    (Z.of_nat (length ids)) = Value work_groups ->
  carry_over_kept (next_input_token_id_ st) work_groups ids = true ->
  Prefill (Some (MkTensor [1; Z.of_nat (length ids)] ids)) st
  = Some (Value tt, st') ->
  exists segments : list (list Z),
    length segments = length work_groups
    /\ concat segments
       = (if negb (next_input_token_id_ st =? -1)
          then [next_input_token_id_ st] else [])
         ++ take (length ids - 1) ids
    /\ run_log st'
       = run_log st
         ++ prefill_calls (prefill_inputs st) (current_step_ st) segments
    /\ current_step_ st'
       = current_step_ st + Z.of_nat (length (concat segments))
    /\ last ids = Some (next_input_token_id_ st')
    /\ length (tokens (prefill_inputs st'))
       = length (tokens (prefill_inputs st))
    /\ length (input_pos (prefill_inputs st'))
       = length (input_pos (prefill_inputs st))
    /\ length (time_step (prefill_inputs st'))
       = length (time_step (prefill_inputs st)).
Proof.
  intros Hn Hwg Hkept H.
  destruct (Prefill_inv _ _ _ H) as (wgs' & Hwg' & Hloop).
  cbn [elements] in Hwg', Hloop.
  assert (wgs' = work_groups) as -> by congruence.
  destruct (Prefill_work_groups_spec _ _ _ _ _ Hloop Hkept)
    as (segs & consumed & Hlen & Hcons & Hrest & Hlog & Hstep & HT & HP & HS
        & Hlater).
  assert (Hwgs : work_groups <> []).
  { intros ->. injection Hloop as E _. rewrite E in Hn. cbn in Hn. lia. }
  destruct (Hlater Hwgs) as (Hc1 & Hconcat & Hlast).
  assert (consumed = length ids) as ->.
  { apply (f_equal length) in Hrest. rewrite length_drop in Hrest.
    cbn in Hrest. lia. }
  exists segs. split; [exact Hlen|]. split; [exact Hconcat|].
  split; [exact Hlog|]. split; [exact Hstep|].
  split.
  { rewrite last_lookup.
    replace (Nat.pred (length ids)) with (length ids - 1)%nat by lia.
    exact Hlast. }
  split; [exact HT|]. split; [exact HP | exact HS].
Qed.

(** X18.  Two successful [Prefill] calls in a row, the first entered
    without pending token, neither losing a token between chunks
    ([carry_over_kept]) and the first ending on an id that is not -1,
    absorb what one prefill of the two inputs joined would: the chunks run
    on segments that are, joined, all ids of both inputs but the last, at
    the positions from the old [current_step] on; [current_step] has grown
    by the number of ids less one; the last id of the second input is
    pending. *)
Theorem Prefill_twice_is_Prefill_of_concatenation :
  forall (st st1 st2 : State) (ids1 ids2 : list Z)
         (work_groups1 work_groups2 : list (string * Z)),
    (1 <= length ids1)%nat ->
    (1 <= length ids2)%nat ->
    next_input_token_id_ st = -1 ->
    GetOptimizedPrefillWorkGroups (prefill_signature_map_ st)
      (Z.of_nat (length ids1)) = Value work_groups1 ->
    carry_over_kept (-1) work_groups1 ids1 = true ->
    Prefill (Some (MkTensor [1; Z.of_nat (length ids1)] ids1)) st
    = Some (Value tt, st1) ->
    next_input_token_id_ st1 <> -1 ->
    GetOptimizedPrefillWorkGroups (prefill_signature_map_ st1)
      (Z.of_nat (length ids2)) = Value work_groups2 ->
    carry_over_kept (next_input_token_id_ st1) work_groups2 ids2 = true ->
    Prefill (Some (MkTensor [1; Z.of_nat (length ids2)] ids2)) st1
    = Some (Value tt, st2) ->
    exists segments : list (list Z),
      length segments = (length work_groups1 + length work_groups2)%nat
      /\ concat segments
         = take (length (ids1 ++ ids2) - 1) (ids1 ++ ids2)
      /\ run_log st2
         = run_log st
           ++ prefill_calls (prefill_inputs st) (current_step_ st) segments
      /\ current_step_ st2
         = current_step_ st + (Z.of_nat (length (ids1 ++ ids2)) - 1)
      /\ last (ids1 ++ ids2) = Some (next_input_token_id_ st2).
Proof.
  intros st st1 st2 ids1 ids2 wgs1 wgs2 Hn1 Hn2 Hnext Hwg1 Hk1 H1 Hne Hwg2
    Hk2 H2.
  rewrite <- Hnext in Hk1.
  destruct (Prefill_spec _ _ _ _ Hn1 Hwg1 Hk1 H1)
    as (segs1 & Hlen1 & Hc1 & Hlog1 & Hstep1 & Hlast1 & HT & HP & HS).
  destruct (Prefill_spec _ _ _ _ Hn2 Hwg2 Hk2 H2)
    as (segs2 & Hlen2 & Hc2 & Hlog2 & Hstep2 & Hlast2 & _).
  rewrite Hnext in Hc1. change (negb (-1 =? -1)) with false in Hc1.
  cbn [app] in Hc1.
  replace (negb (next_input_token_id_ st1 =? -1)) with true in Hc2 by lia.
  assert (Hcat : concat (segs1 ++ segs2)
                 = take (length (ids1 ++ ids2) - 1) (ids1 ++ ids2)).
  { rewrite concat_app, Hc1, Hc2, length_app.
    rewrite take_app_ge by lia.
    replace (length ids1 + length ids2 - 1 - length ids1)%nat
      with (length ids2 - 1)%nat by lia.
    rewrite last_lookup in Hlast1.
    replace (Nat.pred (length ids1)) with (length ids1 - 1)%nat in Hlast1
      by lia.
    assert (Hsplit : ids1 = take (length ids1 - 1) ids1
                            ++ [next_input_token_id_ st1]).
    { rewrite <- (take_drop (length ids1 - 1) ids1) at 1. f_equal.
      rewrite (drop_S _ _ _ Hlast1).
      replace (S (length ids1 - 1)) with (length ids1) by lia.
      now rewrite drop_all. }
    rewrite Hsplit at 3. rewrite <- app_assoc. reflexivity. }
  exists (segs1 ++ segs2).
  split; [rewrite length_app; congruence|].
  split; [exact Hcat|].
  split.
  { rewrite Hlog2, Hlog1, <- app_assoc, prefill_calls_app, Hstep1. do 2 f_equal.
    now apply prefill_calls_caps. }
  split.
  { rewrite Hstep2, Hstep1, <- Z.add_assoc, <- Nat2Z.inj_add, <- length_app,
      <- concat_app, Hcat, length_take_le by lia.
    rewrite length_app. lia. }
  rewrite last_app, Hlast2. reflexivity.
Qed.

(** *** When every run succeeds *)

Lemma RunSignature_always_runs (signature : string)
    (inputs : list (string * list Z)) (failure : string) (st : State) :
  always_runs compiled_models ->
  exists dev,
    RunSignature signature inputs failure st
    = Some (Value tt, ran (signature, inputs) dev st).
Proof.
  intros Hruns. unfold RunSignature.
  specialize (Hruns signature inputs (device st)).
  destruct (Run signature inputs (device st)) as [res dev].
  cbn in Hruns. subst res. exists dev. reflexivity.
Qed.

Ltac good_run Hruns :=
  match goal with
  | |- context [RunSignature ?s ?i ?f ?st] =>
      let dev := fresh "dev" in
      let E := fresh "E" in
      destruct (RunSignature_always_runs s i f st Hruns) as (dev & E);
      rewrite E; clear E; cbv beta iota
  end.

Lemma PrefillInternal_returns (prefill_signature : string) (ids : list Z)
    (st : State) :
  always_runs compiled_models ->
  ids <> [] ->
  let need := length (chunk_tokens (next_input_token_id_ st) ids) in
  (need <= length (tokens (prefill_inputs st)))%nat ->
  (need <= length (input_pos (prefill_inputs st)))%nat ->
  (1 <= length (time_step (prefill_inputs st)))%nat ->
  current_step_ st + Z.of_nat need <= INT_MAX ->
  exists st', PrefillInternal prefill_signature ids st = Some (Value tt, st').
Proof.
  intros Hruns Hne need HT HP HS Hmax.
  destruct (PrefillInternal_prepare_inputs_total ids st Hne HT HP HS Hmax)
    as [st1 Hprep].
  unfold PrefillInternal. rewrite Hprep. cbn [mbind option_bind].
  unfold PrefillInternal_run_stages, bind.
  repeat good_run Hruns. eexists. reflexivity.
Qed.

Lemma chunk_tokens_length (pending : Z) (ids : list Z) :
  (length (chunk_tokens pending ids) <= length ids)%nat.
Proof.
  unfold chunk_tokens. rewrite length_app, length_take_le by lia.
  destruct (negb (pending =? -1) && (0 <? length ids - 1)%nat) eqn:E;
    cbn [length]; lia.
Qed.

Lemma Prefill_work_groups_returns (work_groups : list (string * Z)) :
  always_runs compiled_models ->
  forall (ids : list Z) (st : State),
    Forall (fun c => 1 <= c <= length (tokens (prefill_inputs st))
                     /\ c <= length (input_pos (prefill_inputs st)))%nat
           (work_group_lengths work_groups) ->
    Forall (fun wg => 0 <= to_size_t (snd wg)) work_groups ->
    (sum_list (work_group_lengths work_groups) <= length ids)%nat ->
    (1 <= length (time_step (prefill_inputs st)))%nat ->
    current_step_ st + Z.of_nat (sum_list (work_group_lengths work_groups))
    <= INT_MAX ->
    exists st',
      Prefill_work_groups work_groups ids st
      = Some (Value (drop (sum_list (work_group_lengths work_groups)) ids),
              st').
Proof.
  intros Hruns.
  induction work_groups as [|[sig len] wgs IH];
    intros ids st Hall Hpos Hsum HS Hmax.
  - eexists. reflexivity.
  - change (work_group_lengths ((sig, len) :: wgs))
      with (Z.to_nat (to_size_t len) :: work_group_lengths wgs) in *.
    cbn [sum_list_with id] in *.
    apply Forall_cons in Hall as [[HcT HcP] Hall].
    apply Forall_cons in Hpos as [Hlen0 Hpos]. cbn [snd] in Hlen0.
    set (c := Z.to_nat (to_size_t len)) in *.
    cbn [Prefill_work_groups]. unfold subspan, npos.
    replace (0 <=? Z.of_nat (length ids)) with true by lia.
    replace (to_size_t len <=? Z.of_nat (length ids)) with true by lia.
    change (Z.to_nat 0) with 0%nat. rewrite drop_0, Z.sub_0_r.
    replace (Z.to_nat (Z.min (Z.of_nat (length ids)) (to_size_t len)))
      with c by lia.
    fold c.
    pose proof (chunk_tokens_length (next_input_token_id_ st) (take c ids))
      as Hneed.
    rewrite length_take_le in Hneed by lia.
    destruct (PrefillInternal_returns sig (take c ids) st Hruns) as [st1 Hp];
      try lia.
    { intros E. apply (f_equal length) in E.
      rewrite length_take_le in E by lia. cbn in E. lia. }
    unfold bind. rewrite Hp. unfold add_prefill_num_tokens.
    destruct (PrefillInternal_inv _ _ _ _ _ Hp) as (sa & Hprep & _ & Hb & _).
    destruct (PrefillInternal_prepare_inputs_spec _ _ _ Hprep)
      as (_ & _ & HlT & HlP & HlS & Hstep & _).
    destruct Hb as (Hs & _ & _ & Hpi & _).
    match goal with
    | |- context [Prefill_work_groups wgs ?l ?s] =>
        destruct (IH l s) as [st' Hloop]
    end.
    + cbn [prefill_inputs set_latency_stats]. rewrite Hpi, HlT, HlP.
      exact Hall.
    + exact Hpos.
    + rewrite length_drop. lia.
    + cbn [prefill_inputs set_latency_stats]. rewrite Hpi, HlS. exact HS.
    + cbn [current_step_ set_latency_stats]. rewrite Hs, Hstep. lia.
    + exists st'. rewrite Hloop, drop_drop. reflexivity.
Qed.

(** [Prefill] returns OK when every run succeeds, the work groups fit the
    buffers and cover the input, and the step counter stays in range. *)
Lemma Prefill_returns :
  forall (st : State) (ids : list Z) (work_groups : list (string * Z)),
    always_runs compiled_models ->
    (1 <= length ids)%nat ->
    GetOptimizedPrefillWorkGroups (prefill_signature_map_ st)
      (Z.of_nat (length ids)) = Value work_groups ->
    Forall (fun wg => 1 <= snd wg
                      /\ snd wg <= Z.of_nat (length (tokens (prefill_inputs st)))
                      /\ snd wg
                         <= Z.of_nat (length (input_pos (prefill_inputs st))))
           work_groups ->
    sum_list (work_group_lengths work_groups) = length ids ->
    (1 <= length (time_step (prefill_inputs st)))%nat ->
    current_step_ st + Z.of_nat (length ids) <= INT_MAX ->
    exists st',
      Prefill (Some (MkTensor [1; Z.of_nat (length ids)] ids)) st
      = Some (Value tt, st').
Proof.
  intros st ids wgs Hruns Hn Hwg Hall Hsum HS Hmax.
  destruct (Prefill_work_groups_returns wgs Hruns ids st) as [st' Hloop];
    try lia.
  - unfold work_group_lengths. rewrite Forall_fmap.
    eapply Forall_impl; [exact Hall|].
    intros [sig len] (H1 & H2 & H3). cbn [snd compose] in *.
    unfold to_size_t. replace (len <? 0) with false by lia. lia.
  - eapply Forall_impl; [exact Hall|].
    intros [sig len] (H1 & _). cbn [snd] in *.
    unfold to_size_t. replace (len <? 0) with false by lia. lia.
  - exists st'. unfold Prefill.
    cbn [Dimensions elements lookup list_lookup].
    change (negb (1 =? 1)) with false. cbv iota.
    replace (negb (Z.of_nat (length ids) >? 0)) with false by lia.
    cbv iota. rewrite Hwg. unfold bind. rewrite Hloop, Hsum, drop_all.
    reflexivity.
Qed.


(** [Decode] returns a token when every run succeeds, the logits are never
    empty, a token is pending, the decode buffers have an element each and
    the step counter is in range; these conditions then hold again. *)
Lemma Decode_returns :
  forall (st : State) (output_tokens : list Z),
    always_runs compiled_models ->
    (forall dev, logits dev <> []) ->
    next_input_token_id_ st <> -1 ->
    (1 <= length (tokens (decode_inputs st)))%nat ->
    (1 <= length (input_pos (decode_inputs st)))%nat ->
    (1 <= length (time_step (decode_inputs st)))%nat ->
    current_step_ st < INT_MAX ->
    exists output_tokens' st',
      Decode output_tokens st = Some (Value output_tokens', st')
      /\ next_input_token_id_ st' <> -1
      /\ current_step_ st' = current_step_ st + 1
      /\ length (tokens (decode_inputs st'))
         = length (tokens (decode_inputs st))
      /\ length (input_pos (decode_inputs st'))
         = length (input_pos (decode_inputs st))
      /\ length (time_step (decode_inputs st'))
         = length (time_step (decode_inputs st)).
Proof.
  intros st out Hruns Hlogits Hnext HT HP HS Hmax.
  unfold Decode, Decode_with_inputs, store. cbv zeta.
  replace (next_input_token_id_ st =? -1) with false by lia.
  cbn [decode_inputs set_next_input_token_id current_step_].
  replace (0 <? length (tokens (decode_inputs st)))%nat with true by lia.
  replace (0 <? length (input_pos (decode_inputs st)))%nat with true by lia.
  replace (0 <? length (time_step (decode_inputs st)))%nat with true by lia.
  cbn [mbind option_bind]. unfold bind.
  repeat good_run Hruns.
  cbn [current_step_ ran set_decode_inputs set_next_input_token_id].
  replace (current_step_ st <? INT_MAX) with true by lia.
  cbn [device set_current_step ran].
  match goal with
  | |- context [argmax (logits ?d)] =>
      destruct (argmax (logits d)) as [k|] eqn:Ek;
      [| exfalso; apply (Hlogits d); unfold argmax in Ek;
         destruct (logits d); [reflexivity | discriminate] ]
  end.
  cbn [mbind option_bind]. eexists; eexists. split; [reflexivity|].
  cbn. rewrite !length_insert. repeat split. lia.
Qed.

(** X25.  [WarmupInference] always returns, changes nothing but the device
    and the log of runs, and makes the first [k] of its eight runs in
    order, 1 <= k <= 8, all eight when it returns OK; no signature of the
    embedder is among them. *)
Theorem WarmupInference_runs :
  forall st : State,
    exists (r : StatusOr unit) (st' : State) (k : nat),
      WarmupInference st = Some (r, st')
      /\ same_bookkeeping st st'
      /\ (1 <= k <= 8)%nat
      /\ run_log st'
         = run_log st
           ++ take k (warmup_calls (prefill_inputs st) (decode_inputs st))
      /\ (r = Value tt -> k = 8%nat)
      /\ Forall (fun call : RunCall =>
                   fst call <> EmbedderSignatures.kPrefillEmbedder
                   /\ fst call <> EmbedderSignatures.kDecodeEmbedder)
                (drop (length (run_log st)) (run_log st')).
Proof.
  intros st. unfold WarmupInference, bind. cbv zeta.
  repeat next_run;
    (eexists; eexists;
     [> exists 8%nat | exists 8%nat | exists 7%nat | exists 6%nat
      | exists 5%nat | exists 4%nat | exists 3%nat | exists 2%nat
      | exists 1%nat ..]);
    (split; [reflexivity|]); (split; [repeat split|]); (split; [lia|]);
    cbn [run_log ran]; rewrite <- ?app_assoc; cbn [app];
    (split; [reflexivity|]); (split; [try discriminate; reflexivity|]);
    rewrite drop_app_length; repeat constructor; discriminate.
Qed.

(** *** What no call changes *)

Lemma kept_refl (st : State) : kept st st.
Proof. unfold kept. repeat split. lia. Qed.

Lemma kept_trans (st1 st2 st3 : State) :
  kept st1 st2 -> kept st2 st3 -> kept st1 st3.
Proof.
  unfold kept. intros (?&?&?&?&?&?&?&?) (?&?&?&?&?&?&?&?).
  repeat split; try congruence. lia.
Qed.

Lemma PrefillInternal_kept (prefill_signature : string) (ids : list Z)
    (st : State) (r : StatusOr unit) (st' : State) :
  PrefillInternal prefill_signature ids st = Some (r, st') -> kept st st'.
Proof.
  intros H.
  destruct (PrefillInternal_inv _ _ _ _ _ H) as (st1 & Hprep & _ & Hb & _).
  destruct (PrefillInternal_prepare_inputs_spec _ _ _ Hprep)
    as (_ & _ & HT & HP & HS & Hstep & _ & Hm & Hd & _).
  destruct Hb as (Hs & _ & Hm' & Hp' & Hd' & _).
  unfold kept. rewrite Hm', Hp', Hd', Hs, Hd.
  repeat split; try assumption. lia.
Qed.

Lemma Prefill_work_groups_kept (work_groups : list (string * Z)) :
  forall (ids : list Z) (st : State) (r : StatusOr (list Z)) (st' : State),
    Prefill_work_groups work_groups ids st = Some (r, st') -> kept st st'.
Proof.
  induction work_groups as [|[sig len] wgs IH]; intros ids st r st' H.
  - injection H as _ <-. apply kept_refl.
  - cbn [Prefill_work_groups] in H.
    destruct (subspan 0 (Some (to_size_t len)) ids) as [chunk|];
      [|discriminate].
    unfold bind in H.
    destruct (PrefillInternal sig chunk st) as [[[[]|e] st1]|] eqn:Ep;
      [| |discriminate].
    + destruct (subspan (to_size_t len) npos ids) as [ids'|]; [|discriminate].
      unfold add_prefill_num_tokens in H.
      apply (kept_trans _ st1); [exact (PrefillInternal_kept _ _ _ _ _ Ep)|].
      apply IH in H. exact H.
    + injection H as _ <-. exact (PrefillInternal_kept _ _ _ _ _ Ep).
Qed.

Lemma Prefill_kept (inputs : ExecutorInputs) (st : State)
    (r : StatusOr unit) (st' : State) :
  Prefill inputs st = Some (r, st') -> kept st st'.
Proof.
  unfold Prefill. intros H.
  destruct inputs as [t|]; [|discriminate].
  destruct (Dimensions t !! 0%nat) as [batch|]; [|discriminate].
  destruct (negb (batch =? 1)); [injection H as _ <-; apply kept_refl|].
  destruct (Dimensions t !! 1%nat) as [n|]; [|discriminate].
  destruct (negb (n >? 0)); [injection H as _ <-; apply kept_refl|].
  destruct (GetOptimizedPrefillWorkGroups _ _) as [wgs|e];
    [|injection H as _ <-; apply kept_refl].
  unfold bind in H.
  destruct (Prefill_work_groups wgs (elements t) st)
    as [[[rest|e] st1]|] eqn:Eloop; [| |discriminate].
  - destruct (negb (Z.of_nat (length rest) =? 0)); injection H as _ <-;
      exact (Prefill_work_groups_kept _ _ _ _ _ Eloop).
  - injection H as _ <-. exact (Prefill_work_groups_kept _ _ _ _ _ Eloop).
Qed.

(** A decode step either rejects its input and leaves the executor as it
    was, or takes a token. *)
Lemma Decode_with_inputs_cases (inputs : ExecutorInputs) (st : State)
    (r : StatusOr unit) (st' : State) :
  Decode_with_inputs inputs st = Some (r, st') ->
  (st' = st /\ exists e, r = Error e)
  \/ exists id, selected_token inputs st = Some id /\ id <> -1.
Proof.
  unfold Decode_with_inputs, selected_token, Size. cbv zeta.
  destruct inputs as [t|].
  - destruct (elements t) as [|x [|y l]]; cbn [length lookup list_lookup].
    + change (negb (4 * Z.of_nat 0 =? 0)) with false. cbv iota.
      destruct (next_input_token_id_ st =? -1) eqn:E.
      * intros [= <- <-]. left. eauto.
      * intros _. right. exists (next_input_token_id_ st). split; [reflexivity | lia].
    + change (negb (4 * Z.of_nat 1 =? 0)) with true.
      change (negb (4 * Z.of_nat 1 =? 1 * 4)) with false. cbv iota.
      destruct (x =? -1) eqn:E.
      * intros [= <- <-]. left. eauto.
      * intros _. right. exists x. split; [reflexivity | lia].
    + replace (negb (4 * Z.of_nat (S (S (length l))) =? 0)) with true by lia.
      replace (negb (4 * Z.of_nat (S (S (length l))) =? 1 * 4)) with true
        by lia.
      cbv iota. intros [= <- <-]. left. eauto.
  - destruct (next_input_token_id_ st =? -1) eqn:E.
    + intros [= <- <-]. left. eauto.
    + intros _. right. exists (next_input_token_id_ st). split; [reflexivity | lia].
Qed.

Lemma Decode_with_inputs_kept (inputs : ExecutorInputs) (st : State)
    (r : StatusOr unit) (st' : State) :
  Decode_with_inputs inputs st = Some (r, st') -> kept st st'.
Proof.
  intros H.
  destruct (Decode_with_inputs_cases _ _ _ _ H)
    as [[-> _] | (id & Hsel & Hid)]; [apply kept_refl|].
  destruct (Decode_with_inputs_runs _ _ _ _ _ Hsel Hid H)
    as (Hd & _ & _ & _ & _ & Hp & Hm & _ & k & _ & _ & Hok & Herr).
  unfold kept. rewrite Hd, Hp, Hm. cbn [decode_inputs_with tokens input_pos
                                        time_step].
  rewrite !length_insert. repeat split.
  destruct r as [[]|e]; [destruct (Hok eq_refl) as [_ ->] | rewrite (Herr e eq_refl)];
    lia.
Qed.

(** X26.  No call of [Prefill], of [Decode] or of a decode step, whatever
    it returns, changes the prefill signature map or the capacity of any
    of the six host input buffers, and none lowers [current_step]. *)
Theorem calls_keep_capacities :
  forall (st st' : State),
    (forall inputs r, Prefill inputs st = Some (r, st') -> kept st st')
    /\ (forall inputs r,
          Decode_with_inputs inputs st = Some (r, st') -> kept st st')
    /\ (forall output_tokens r,
          Decode output_tokens st = Some (r, st') -> kept st st').
Proof.
  intros st st'. split; [|split].
  - intros inputs r. apply Prefill_kept.
  - intros inputs r. apply Decode_with_inputs_kept.
  - intros out r H. unfold Decode in H.
    destruct (Decode_with_inputs None st) as [[[[]|e] st1]|] eqn:E;
      [| |discriminate].
    + destruct (argmax (logits (device st1)));
        cbn [mbind option_bind] in H; [|discriminate].
      injection H as _ <-. exact (Decode_with_inputs_kept _ _ _ _ E).
    + injection H as _ <-. exact (Decode_with_inputs_kept _ _ _ _ E).
Qed.

End WithCollaborators.

(** *** The theorems at concrete inputs *)

Lemma PrefillInternal_absorbs_chunk_witness :
  exists st',
    PrefillInternal (compiled_models := steady) kPrefillSignature [7; 8; 9]
      steady_executor = Some (Value tt, st')
    /\ tokens (prefill_inputs st') = padded 128 [7; 8]
    /\ input_pos (prefill_inputs st') = padded 128 [0; 1]
    /\ run_log st' = prefill_chunk_calls (prefill_inputs st')
    /\ current_step_ st' = 2
    /\ next_input_token_id_ st' = 9.
Proof.
  assert (E : exists st',
             PrefillInternal (compiled_models := steady) kPrefillSignature
               [7; 8; 9] steady_executor = Some (Value tt, st'))
    by (vm_compute; eexists; reflexivity).
  destruct E as [st' E]. exists st'. split; [exact E|].
  destruct (@PrefillInternal_absorbs_chunk steady _ _ _ _ E)
    as (Hbuf & Hlog & Hstep & Hlast & _).
  injection Hlast as Hlast.
  split; [rewrite Hbuf; reflexivity|]. split; [rewrite Hbuf; reflexivity|].
  split; [exact Hlog|].
  split; [exact Hstep | now rewrite <- Hlast].
Defined.

Lemma PrefillInternal_single_id_witness :
  exists st',
    PrefillInternal (compiled_models := steady) kPrefillSignature [5]
      (set_next_input_token_id 7 steady_executor) = Some (Value tt, st')
    /\ tokens (prefill_inputs st') = replicate 128 0
    /\ current_step_ st' = 0
    /\ next_input_token_id_ st' = 5.
Proof.
  assert (E : exists st',
             PrefillInternal (compiled_models := steady) kPrefillSignature [5]
               (set_next_input_token_id 7 steady_executor)
             = Some (Value tt, st'))
    by (vm_compute; eexists; reflexivity).
  destruct E as [st' E]. exists st'. split; [exact E|].
  exact (@PrefillInternal_single_id steady _ _ _ _ _ E).
Defined.

Lemma Decode_failed_run_consumes_token_witness :
  exists e st',
    Decode_with_inputs (compiled_models := faulty_decode_rope) None
      faulty_decode_rope_executor = Some (Error e, st')
    /\ current_step_ st' = 0
    /\ next_input_token_id_ st' = -1
    /\ tokens (decode_inputs st') !! 0%nat = Some 9
    /\ Decode [0] st'
       = Some (Error (InvalidArgumentError "No id available to be decoded."),
               st').
Proof.
  assert (E : exists e st',
             Decode_with_inputs (compiled_models := faulty_decode_rope) None
               faulty_decode_rope_executor = Some (Error e, st'))
    by (vm_compute; eexists; eexists; reflexivity).
  destruct E as (e & st' & E). exists e, st'. split; [exact E|].
  destruct (@Decode_failed_run_consumes_token faulty_decode_rope
              None faulty_decode_rope_executor st' 9 e eq_refl ltac:(lia) E)
    as (H1 & H2 & H3 & H4).
  split; [exact H1|]. split; [exact H2|]. split; [exact H3 | apply H4].
Defined.

Lemma Prefill_success_work_groups_cover_input_witness :
  exists st',
    Prefill (compiled_models := steady) (utils := greedy_utils)
      (Some (token_tensor prompt_256)) steady_executor = Some (Value tt, st')
    /\ sum_list
         (work_group_lengths
            [(kPrefillSignature, 128); (kPrefillSignature, 128)])
       = length prompt_256.
Proof.
  assert (E : exists st',
             Prefill (compiled_models := steady) (utils := greedy_utils)
               (Some (token_tensor prompt_256)) steady_executor
             = Some (Value tt, st'))
    by (vm_compute; eexists; reflexivity).
  destruct E as [st' E]. exists st'. split; [exact E|].
  apply (@Prefill_success_work_groups_cover_input steady greedy_utils
           steady_executor st' (token_tensor prompt_256)
           [(kPrefillSignature, 128); (kPrefillSignature, 128)]
           eq_refl E).
Defined.

Lemma Prefill_twice_is_Prefill_of_concatenation_witness :
  exists st1 st2 segments,
    Prefill (compiled_models := steady) (utils := greedy_utils)
      (Some (token_tensor (take 128 prompt_256))) steady_executor
    = Some (Value tt, st1)
    /\ Prefill (compiled_models := steady) (utils := greedy_utils)
         (Some (token_tensor (drop 128 prompt_256))) st1
       = Some (Value tt, st2)
    /\ length segments = 2%nat
    /\ concat segments = take 255 prompt_256
    /\ current_step_ st2 = 255
    /\ last prompt_256 = Some (next_input_token_id_ st2).
Proof.
  let first := eval vm_compute in
      (Prefill (compiled_models := steady) (utils := greedy_utils)
         (Some (token_tensor (take 128 prompt_256))) steady_executor) in
  match first with
  | Some (_, ?st1) =>
      let second := eval vm_compute in
          (Prefill (compiled_models := steady) (utils := greedy_utils)
             (Some (token_tensor (drop 128 prompt_256))) st1) in
      match second with
      | Some (_, ?st2) =>
          assert (E1 : Prefill (compiled_models := steady)
                         (utils := greedy_utils)
                         (Some (token_tensor (take 128 prompt_256)))
                         steady_executor
                       = Some (Value tt, st1)) by (vm_compute; reflexivity);
          assert (E2 : Prefill (compiled_models := steady)
                         (utils := greedy_utils)
                         (Some (token_tensor (drop 128 prompt_256))) st1
                       = Some (Value tt, st2)) by (vm_compute; reflexivity)
      end
  end.
  match type of E2 with
  | Prefill _ ?st1 = Some (_, ?st2) =>
      destruct (@Prefill_twice_is_Prefill_of_concatenation steady greedy_utils
                  steady_executor st1 st2
                  (take 128 prompt_256) (drop 128 prompt_256)
                  [(kPrefillSignature, 128)] [(kPrefillSignature, 128)]
                  ltac:(vm_compute; lia) ltac:(vm_compute; lia) eq_refl
                  eq_refl eq_refl E1 ltac:(vm_compute; discriminate) eq_refl
                  eq_refl E2)
        as (segments & Hlen & Hconcat & _ & Hstep & Hlast)
  end.
  rewrite take_drop in Hconcat, Hstep, Hlast.
  eexists; eexists; exists segments.
  split; [exact E1|]. split; [exact E2|].
  split; [exact Hlen|]. split; [exact Hconcat|].
  split; [exact Hstep | exact Hlast].
Defined.

Lemma calls_keep_capacities_witness :
  exists st',
    Prefill (compiled_models := steady) (utils := greedy_utils)
      (Some (token_tensor prompt_256)) steady_executor = Some (Value tt, st')
    /\ kept steady_executor st'.
Proof.
  assert (E : exists st',
             Prefill (compiled_models := steady) (utils := greedy_utils)
               (Some (token_tensor prompt_256)) steady_executor
             = Some (Value tt, st'))
    by (vm_compute; eexists; reflexivity).
  destruct E as [st' E]. exists st'. split; [exact E|].
  destruct (@calls_keep_capacities steady greedy_utils steady_executor st')
    as (H & _ & _).
  exact (H _ _ E).
Defined.

End ExecutorProperties.

(* ================================================================== *)
(** * Further properties: the error returns of the tensor library *)
(* ================================================================== *)

Module ExecutorWithLibraryProperties.
Import Executor ExecutorFacts ExecutorProperties ExecutorWithLibrary.
#[local] Open Scope exec_scope.

Section WithCollaborators.
Context {compiled_models : CompiledModels} {utils : ExecutorUtils}
        {library : TensorLibrary}.

Ltac next_run :=
  match goal with
  | |- context [RunSignature ?s ?i ?f ?st] =>
      let res := fresh "res" in
      let dev := fresh "dev" in
      let E := fresh "E" in
      destruct (RunSignature_inv s i f st) as (res & dev & E);
      rewrite E; clear E; destruct res; cbv beta iota
  end.

(** A call into the library succeeds and changes nothing, or its failure
    is returned with the executor as it was. *)
Lemma ASSIGN_OR_RETURN_cases (call : LibraryCall) (st : State) :
  (failure call (device st) = None
   /\ ASSIGN_OR_RETURN call st = Some (Value tt, st))
  \/ exists s,
       failure call (device st) = Some s
       /\ ASSIGN_OR_RETURN call st = Some (Error s, st).
Proof.
  unfold ASSIGN_OR_RETURN. destruct (failure call (device st)) as [s|]; eauto.
Qed.

Ltac library_call :=
  match goal with
  | |- context [ASSIGN_OR_RETURN ?c ?st] =>
      let F := fresh "F" in
      let E := fresh "E" in
      let s := fresh "s" in
      destruct (ASSIGN_OR_RETURN_cases c st) as [[F E] | (s & F & E)];
      rewrite E; clear E; cbv beta iota
  end.

(** *** PrefillInternal *)

(** A chunk returns the failure of one of its six calls into the library,
    with the executor as it was, or it goes on as [Executor.PrefillInternal]
    does. *)
Lemma PrefillInternal_cases (prefill_signature : string) (ids : list Z)
    (st : State) :
  (exists call s,
      failure call (device st) = Some s
      /\ PrefillInternal prefill_signature ids st = Some (Error s, st))
  \/ PrefillInternal prefill_signature ids st
     = Executor.PrefillInternal prefill_signature ids st.
Proof.
  unfold PrefillInternal, bind.
  repeat library_call;
    first [ right; reflexivity
          | left; eexists; eexists; split; [eassumption | reflexivity] ].
Qed.

Lemma PrefillInternal_success (prefill_signature : string) (ids : list Z)
    (st st' : State) :
  PrefillInternal prefill_signature ids st = Some (Value tt, st') ->
  Executor.PrefillInternal prefill_signature ids st = Some (Value tt, st').
Proof.
  destruct (PrefillInternal_cases prefill_signature ids st)
    as [(call & s & _ & ->) | ->]; [discriminate | tauto].
Qed.


(** *** Prefill *)

Lemma Prefill_work_groups_success (work_groups : list (string * Z)) :
  forall (ids : list Z) (st : State) (rest : list Z) (st' : State),
    Prefill_work_groups work_groups ids st = Some (Value rest, st') ->
    Executor.Prefill_work_groups work_groups ids st = Some (Value rest, st').
Proof.
  induction work_groups as [|[sig len] wgs IH]; intros ids st rest st' H;
    [exact H|].
  cbn [Prefill_work_groups Executor.Prefill_work_groups] in *.
  destruct (subspan 0 (Some (to_size_t len)) ids) as [chunk|]; [|discriminate].
  unfold bind in *.
  destruct (PrefillInternal sig chunk st) as [[[[]|e] st1]|] eqn:Ep;
    try discriminate.
  rewrite (PrefillInternal_success _ _ _ _ Ep).
  destruct (subspan (to_size_t len) npos ids) as [ids'|]; [|discriminate].
  unfold add_prefill_num_tokens in *. apply IH. exact H.
Qed.

Lemma Prefill_success (inputs : ExecutorInputs) (st st' : State) :
  Prefill inputs st = Some (Value tt, st') ->
  Executor.Prefill inputs st = Some (Value tt, st').
Proof.
  unfold Prefill, Executor.Prefill. destruct inputs as [t|]; [|discriminate].
  unfold bind. library_call; [|discriminate].
  destruct (Dimensions t !! 0%nat) as [batch|]; [|discriminate].
  destruct (negb (batch =? 1)); [discriminate|].
  destruct (Dimensions t !! 1%nat) as [n|]; [|discriminate].
  destruct (negb (n >? 0)); [discriminate|].
  library_call; [|discriminate].
  destruct (GetOptimizedPrefillWorkGroups _ _) as [wgs|e]; [|discriminate].
  destruct (Prefill_work_groups wgs (elements t) st)
    as [[[rest|e] st1]|] eqn:Eloop; try discriminate.
  rewrite (Prefill_work_groups_success _ _ _ _ _ Eloop). tauto.
Qed.

(** *** Decode *)

(** The runs of a decode step are made in their order and stop at the
    first that fails; the step counter moves when all five succeed. *)
Lemma Decode_run_stages_prefix (st : State) (r : StatusOr unit)
    (st' : State) :
  Decode_run_stages st = Some (r, st') ->
  decode_inputs st' = decode_inputs st
  /\ next_input_token_id_ st' = next_input_token_id_ st
  /\ prefill_inputs st' = prefill_inputs st
  /\ prefill_signature_map_ st' = prefill_signature_map_ st
  /\ latency_stats_ st' = latency_stats_ st
  /\ exists k : nat,
       (1 <= k <= 5)%nat
       /\ run_log st'
          = run_log st ++ take k (decode_step_calls (decode_inputs st))
       /\ (r = Value tt ->
           k = 5%nat /\ current_step_ st' = current_step_ st + 1)
       /\ (forall e, r = Error e -> current_step_ st' = current_step_ st).
Proof.
  unfold Decode_run_stages, bind.
  repeat next_run;
    try (destruct (_ <? INT_MAX) eqn:Eo; [|discriminate]);
    intros [= <- <-];
    cbn [decode_inputs ran set_current_step next_input_token_id_
         prefill_inputs prefill_signature_map_ latency_stats_ run_log
         current_step_];
    (split; [reflexivity|]); (split; [reflexivity|]);
    (split; [reflexivity|]); (split; [reflexivity|]);
    (split; [reflexivity|]);
    rewrite <- ?app_assoc; cbn [app];
    [ exists 5%nat | exists 5%nat | exists 4%nat | exists 3%nat
    | exists 2%nat | exists 1%nat ];
    (split; [lia|]); (split; [reflexivity|]);
    (split; [try discriminate; intros _; split; reflexivity
            | try discriminate; intros; reflexivity]).
Qed.

(** A decode step that takes the token [id]: no token is pending after
    it; the runs it makes are the first [k] of the five, none when a lock
    fails; once it makes a run the three buffers hold the token and the
    step. *)
Lemma Decode_with_inputs_outcomes (inputs : ExecutorInputs) (st : State)
    (id : Z) (r : StatusOr unit) (st' : State) :
  Decode_select inputs st = Value id ->
  id <> -1 ->
  Decode_with_inputs inputs st = Some (r, st') ->
  next_input_token_id_ st' = -1
  /\ prefill_inputs st' = prefill_inputs st
  /\ prefill_signature_map_ st' = prefill_signature_map_ st
  /\ latency_stats_ st' = latency_stats_ st
  /\ exists k : nat,
       (k <= 5)%nat
       /\ run_log st'
          = run_log st ++ take k (decode_step_calls (decode_inputs st'))
       /\ ((1 <= k)%nat ->
           decode_inputs st'
           = decode_inputs_with id (current_step_ st) (decode_inputs st))
       /\ (r = Value tt ->
           k = 5%nat /\ current_step_ st' = current_step_ st + 1)
       /\ (forall e, r = Error e -> current_step_ st' = current_step_ st).
Proof.
  intros Hsel Hid. unfold Decode_with_inputs. rewrite Hsel.
  replace (id =? -1) with false by lia. cbv zeta. unfold bind.
  assert (Hnone : forall (s0 : State) (e0 : Status),
             next_input_token_id_ s0 = -1 ->
             prefill_inputs s0 = prefill_inputs st ->
             prefill_signature_map_ s0 = prefill_signature_map_ st ->
             latency_stats_ s0 = latency_stats_ st ->
             run_log s0 = run_log st ->
             current_step_ s0 = current_step_ st ->
             Some (Error e0, s0) = Some (r, st') ->
             next_input_token_id_ st' = -1
             /\ prefill_inputs st' = prefill_inputs st
             /\ prefill_signature_map_ st' = prefill_signature_map_ st
             /\ latency_stats_ st' = latency_stats_ st
             /\ exists k : nat,
                  (k <= 5)%nat
                  /\ run_log st'
                     = run_log st
                       ++ take k (decode_step_calls (decode_inputs st'))
                  /\ ((1 <= k)%nat ->
                      decode_inputs st'
                      = decode_inputs_with id (current_step_ st)
                          (decode_inputs st))
                  /\ (r = Value tt ->
                      k = 5%nat /\ current_step_ st' = current_step_ st + 1)
                  /\ (forall e, r = Error e ->
                                current_step_ st' = current_step_ st)).
  { intros s0 e0 H1 H2 H3 H4 H5 H6 [= <- <-].
    repeat (split; [assumption|]). exists 0%nat. split; [lia|].
    split; [cbn; rewrite app_nil_r; exact H5|].
    split; [lia|]. split; [discriminate | intros; exact H6]. }
  library_call; [|now apply Hnone].
  unfold write_decode_tokens at 1. cbv zeta.
  cbn [decode_inputs set_next_input_token_id].
  destruct (store (tokens (decode_inputs st)) 0 id) as [toks|] eqn:Et;
    cbn [mbind option_bind]; [|discriminate].
  library_call; [|now apply Hnone].
  unfold write_decode_input_pos at 1. cbv zeta.
  cbn [decode_inputs set_decode_inputs set_next_input_token_id input_pos
       current_step_].
  destruct (store (input_pos (decode_inputs st)) 0 (current_step_ st))
    as [pos|] eqn:Ep; cbn [mbind option_bind]; [|discriminate].
  library_call; [|now apply Hnone].
  unfold write_decode_time_step at 1. cbv zeta.
  cbn [decode_inputs set_decode_inputs set_next_input_token_id time_step
       current_step_].
  destruct (store (time_step (decode_inputs st)) 0 (current_step_ st))
    as [ts|] eqn:Es; cbn [mbind option_bind]; [|discriminate].
  apply store_Some in Et as [_ ->]. apply store_Some in Ep as [_ ->].
  apply store_Some in Es as [_ ->].
  intros Hrun.
  destruct (Decode_run_stages_prefix _ _ _ Hrun)
    as (Hd & Hn & Hp & Hm & Hl & k & Hk & Hlog & Hok & Herr).
  cbn [decode_inputs set_decode_inputs set_next_input_token_id tokens
       input_pos time_step next_input_token_id_ prefill_inputs
       prefill_signature_map_ latency_stats_ run_log current_step_] in *.
  split; [exact Hn|]. split; [exact Hp|]. split; [exact Hm|].
  split; [exact Hl|]. exists k. split; [lia|].
  split; [rewrite Hd; exact Hlog|].
  split; [intros _; rewrite Hd; reflexivity|].
  split; [exact Hok | exact Herr].
Qed.

Lemma Decode_with_inputs_success (st st' : State) :
  Decode_with_inputs None st = Some (Value tt, st') ->
  Executor.Decode_with_inputs None st = Some (Value tt, st').
Proof.
  unfold Decode_with_inputs, Executor.Decode_with_inputs, Decode_select.
  cbv zeta. destruct (next_input_token_id_ st =? -1); [discriminate|].
  unfold bind.
  library_call; [|discriminate].
  unfold write_decode_tokens at 1. cbv zeta.
  cbn [decode_inputs set_next_input_token_id].
  destruct (store (tokens (decode_inputs st)) 0 _) as [toks|];
    cbn [mbind option_bind]; [|discriminate].
  library_call; [|discriminate].
  unfold write_decode_input_pos at 1. cbv zeta.
  cbn [decode_inputs set_decode_inputs set_next_input_token_id input_pos
       current_step_].
  destruct (store (input_pos (decode_inputs st)) 0 _) as [pos|];
    cbn [mbind option_bind]; [|discriminate].
  library_call; [|discriminate].
  unfold write_decode_time_step at 1. cbv zeta.
  cbn [decode_inputs set_decode_inputs set_next_input_token_id time_step
       current_step_].
  destruct (store (time_step (decode_inputs st)) 0 _) as [ts|];
    cbn [mbind option_bind]; [|discriminate].
  unfold Decode_run_stages. cbv zeta.
  cbn [decode_inputs set_decode_inputs set_next_input_token_id tokens
       input_pos time_step]. tauto.
Qed.

Lemma Decode_success (output_tokens output_tokens' : list Z)
    (st st' : State) :
  Decode output_tokens st = Some (Value output_tokens', st') ->
  Executor.Decode output_tokens st = Some (Value output_tokens', st').
Proof.
  unfold Decode, Executor.Decode.
  destruct (Decode_with_inputs None st) as [[[[]|e] st1]|] eqn:E;
    try discriminate.
  rewrite (Decode_with_inputs_success _ _ E).
  destruct (failure CopyLogits (device st1)); [discriminate | tauto].
Qed.

(** X28.  A call that returns OK when the calls into the tensor library
    can fail returns OK with the same result and the same executor when
    they cannot: what is proved of a successful [Executor.PrefillInternal],
    [Executor.Prefill] or [Executor.Decode] holds of every successful call
    of the function with the error returns of the library. *)
Theorem successful_calls_agree :
  forall (st st' : State),
    (forall prefill_signature ids,
        PrefillInternal prefill_signature ids st = Some (Value tt, st') ->
        Executor.PrefillInternal prefill_signature ids st
        = Some (Value tt, st'))
    /\ (forall inputs,
           Prefill inputs st = Some (Value tt, st') ->
           Executor.Prefill inputs st = Some (Value tt, st'))
    /\ (Decode_with_inputs None st = Some (Value tt, st') ->
        Executor.Decode_with_inputs None st = Some (Value tt, st'))
    /\ (forall output_tokens output_tokens',
           Decode output_tokens st = Some (Value output_tokens', st') ->
           Executor.Decode output_tokens st
           = Some (Value output_tokens', st')).
Proof.
  intros st st'. split; [|split; [|split]].
  - intros sig ids. apply PrefillInternal_success.
  - intros inputs. apply Prefill_success.
  - apply Decode_with_inputs_success.
  - intros out out'. apply Decode_success.
Qed.

(** *** When no call into the library fails *)

Lemma ASSIGN_OR_RETURN_succeeds (call : LibraryCall) (st : State) :
  library_succeeds library ->
  ASSIGN_OR_RETURN call st = Some (Value tt, st).
Proof. intros Hok. unfold ASSIGN_OR_RETURN. now rewrite Hok. Qed.

Lemma PrefillInternal_reliable (prefill_signature : string) (ids : list Z)
    (st : State) :
  library_succeeds library ->
  PrefillInternal prefill_signature ids st
  = Executor.PrefillInternal prefill_signature ids st.
Proof.
  intros Hok. unfold PrefillInternal, bind.
  now rewrite !(ASSIGN_OR_RETURN_succeeds _ _ Hok).
Qed.

Lemma Prefill_work_groups_reliable (work_groups : list (string * Z)) :
  library_succeeds library ->
  forall (ids : list Z) (st : State),
    Prefill_work_groups work_groups ids st
    = Executor.Prefill_work_groups work_groups ids st.
Proof.
  intros Hok. induction work_groups as [|[sig len] wgs IH]; intros ids st;
    [reflexivity|].
  cbn [Prefill_work_groups Executor.Prefill_work_groups].
  destruct (subspan 0 (Some (to_size_t len)) ids) as [chunk|]; [|reflexivity].
  unfold bind. rewrite (PrefillInternal_reliable _ _ _ Hok).
  destruct (Executor.PrefillInternal sig chunk st) as [[[[]|e] st1]|];
    try reflexivity.
  destruct (subspan (to_size_t len) npos ids) as [ids'|]; [|reflexivity].
  unfold add_prefill_num_tokens. apply IH.
Qed.

Lemma Prefill_reliable (inputs : ExecutorInputs) (st : State) :
  library_succeeds library ->
  Prefill inputs st = Executor.Prefill inputs st.
Proof.
  intros Hok. unfold Prefill, Executor.Prefill.
  destruct inputs as [t|]; [|reflexivity].
  unfold bind. rewrite (ASSIGN_OR_RETURN_succeeds _ _ Hok).
  destruct (Dimensions t !! 0%nat) as [batch|]; [|reflexivity].
  destruct (negb (batch =? 1)); [reflexivity|].
  destruct (Dimensions t !! 1%nat) as [n|]; [|reflexivity].
  destruct (negb (n >? 0)); [reflexivity|].
  rewrite (ASSIGN_OR_RETURN_succeeds _ _ Hok).
  destruct (GetOptimizedPrefillWorkGroups _ _) as [wgs|e]; [|reflexivity].
  now rewrite (Prefill_work_groups_reliable _ Hok).
Qed.

Lemma Decode_with_inputs_reliable (inputs : ExecutorInputs) (st : State) :
  library_succeeds library ->
  Decode_with_inputs inputs st = Executor.Decode_with_inputs inputs st.
Proof.
  intros Hok.
  unfold Decode_with_inputs, Executor.Decode_with_inputs, Decode_select.
  cbv zeta.
  assert (Hsel :
    match inputs with
    | Some token_ids =>
        match failure (InputSize token_ids) (device st) with
        | Some _ => Value (next_input_token_id_ st)
        | None =>
            if negb (Size token_ids =? 0) then
              if negb (Size token_ids =? 1 * 4) then
                Error (MkStatus RET_CHECK_argument_code EmptyString)
              else
                match failure (InputAsSpan token_ids) (device st) with
                | Some s => Error s
                | None =>
                    match elements token_ids !! 0%nat with
                    | Some id0 => Value id0
                    | None => Value (next_input_token_id_ st)
                    end
                end
            else Value (next_input_token_id_ st)
        end
    | None => Value (next_input_token_id_ st)
    end
    = match inputs with
      | Some token_ids =>
          if negb (Size token_ids =? 0) then
            if negb (Size token_ids =? 1 * 4) then
              Error (MkStatus RET_CHECK_argument_code EmptyString)
            else
              match elements token_ids !! 0%nat with
              | Some id0 => Value id0
              | None => Value (next_input_token_id_ st)
              end
          else Value (next_input_token_id_ st)
      | None => Value (next_input_token_id_ st)
      end).
  { destruct inputs as [t|]; [|reflexivity]. now rewrite !Hok. }
  rewrite Hsel. clear Hsel.
  match goal with
  | |- match ?sel with _ => _ end = _ => destruct sel as [id|e]
  end; [|reflexivity].
  destruct (id =? -1); [reflexivity|].
  unfold bind. rewrite (ASSIGN_OR_RETURN_succeeds _ _ Hok).
  unfold write_decode_tokens at 1. cbv zeta.
  cbn [decode_inputs set_next_input_token_id].
  destruct (store (tokens (decode_inputs st)) 0 id) as [toks|];
    cbn [mbind option_bind]; [|reflexivity].
  rewrite (ASSIGN_OR_RETURN_succeeds _ _ Hok).
  unfold write_decode_input_pos at 1. cbv zeta.
  cbn [decode_inputs set_decode_inputs set_next_input_token_id input_pos
       current_step_].
  destruct (store (input_pos (decode_inputs st)) 0 _) as [pos|];
    cbn [mbind option_bind]; [|reflexivity].
  rewrite (ASSIGN_OR_RETURN_succeeds _ _ Hok).
  unfold write_decode_time_step at 1. cbv zeta.
  cbn [decode_inputs set_decode_inputs set_next_input_token_id time_step
       current_step_].
  destruct (store (time_step (decode_inputs st)) 0 _) as [ts|];
    cbn [mbind option_bind]; [|reflexivity].
  reflexivity.
Qed.

Lemma Decode_reliable (output_tokens : list Z) (st : State) :
  library_succeeds library ->
  Decode output_tokens st = Executor.Decode output_tokens st.
Proof.
  intros Hok. unfold Decode, Executor.Decode.
  rewrite (Decode_with_inputs_reliable _ _ Hok).
  destruct (Executor.Decode_with_inputs None st) as [[[[]|e] st1]|];
    try reflexivity.
  now rewrite Hok.
Qed.

(** X29.  When no call into the tensor library fails, the functions with
    the error returns of the library are the functions of [Executor], on
    every input and with every outcome. *)
Theorem reliable_library_same_executor :
  library_succeeds library ->
  forall st : State,
    (forall prefill_signature ids,
        PrefillInternal prefill_signature ids st
        = Executor.PrefillInternal prefill_signature ids st)
    /\ (forall inputs, Prefill inputs st = Executor.Prefill inputs st)
    /\ (forall inputs,
           Decode_with_inputs inputs st
           = Executor.Decode_with_inputs inputs st)
    /\ (forall output_tokens,
           Decode output_tokens st = Executor.Decode output_tokens st).
Proof.
  intros Hok st. split; [|split; [|split]].
  - intros sig ids. now apply PrefillInternal_reliable.
  - intros inputs. now apply Prefill_reliable.
  - intros inputs. now apply Decode_with_inputs_reliable.
  - intros out. now apply Decode_reliable.
Qed.

(** X20.  [Prefill] returns OK when no call into the tensor library fails,
    every run on the accelerator succeeds, the work groups have lengths
    between 1 and the capacities of the token and position buffers and add
    up to the number of ids, the time step buffer has an element, and
    [current_step] plus the number of ids does not exceed [INT_MAX]. *)
Theorem Prefill_returns_OK :
  forall (st : State) (ids : list Z) (work_groups : list (string * Z)),
    library_succeeds library ->
    always_runs compiled_models ->
    (1 <= length ids)%nat ->
    GetOptimizedPrefillWorkGroups (prefill_signature_map_ st)
      (Z.of_nat (length ids)) = Value work_groups ->
    Forall (fun wg => 1 <= snd wg
                      /\ snd wg <= Z.of_nat (length (tokens (prefill_inputs st)))
                      /\ snd wg
                         <= Z.of_nat (length (input_pos (prefill_inputs st))))
           work_groups ->
    sum_list (work_group_lengths work_groups) = length ids ->
    (1 <= length (time_step (prefill_inputs st)))%nat ->
    current_step_ st + Z.of_nat (length ids) <= INT_MAX ->
    exists st',
      Prefill (Some (MkTensor [1; Z.of_nat (length ids)] ids)) st
      = Some (Value tt, st').
Proof.
  intros st ids wgs Hok Hruns Hn Hwg Hall Hsum HS Hmax.
  rewrite (Prefill_reliable _ _ Hok).
  exact (Prefill_returns st ids wgs Hruns Hn Hwg Hall Hsum HS Hmax).
Qed.

(** X24.  [Decode] returns a token when no call into the tensor library
    fails, every run on the accelerator succeeds, the logits are never
    empty, a token is pending, the three decode buffers have an element
    each and [current_step] is below [INT_MAX]; then a token is pending
    again, [current_step] has grown by 1 and the capacities of the decode
    buffers are as before, so that the next [Decode] meets the same
    conditions while the step stays in range. *)
Theorem Decode_returns_token :
  forall (st : State) (output_tokens : list Z),
    library_succeeds library ->
    always_runs compiled_models ->
    (forall dev, logits dev <> []) ->
    next_input_token_id_ st <> -1 ->
    (1 <= length (tokens (decode_inputs st)))%nat ->
    (1 <= length (input_pos (decode_inputs st)))%nat ->
    (1 <= length (time_step (decode_inputs st)))%nat ->
    current_step_ st < INT_MAX ->
    exists output_tokens' st',
      Decode output_tokens st = Some (Value output_tokens', st')
      /\ next_input_token_id_ st' <> -1
      /\ current_step_ st' = current_step_ st + 1
      /\ length (tokens (decode_inputs st'))
         = length (tokens (decode_inputs st))
      /\ length (input_pos (decode_inputs st'))
         = length (input_pos (decode_inputs st))
      /\ length (time_step (decode_inputs st'))
         = length (time_step (decode_inputs st)).
Proof.
  intros st out Hok Hruns Hlogits Hnext HT HP HS Hmax.
  rewrite (Decode_reliable _ _ Hok).
  exact (Decode_returns st out Hruns Hlogits Hnext HT HP HS Hmax).
Qed.

(** X22.  After a successful [Decode], the next [Decode] takes the token
    just emitted (the first maximum of the logits).  The runs it makes are
    the first [k] of the five of a decode step, 0 <= k <= 5, all five
    when it returns OK; once it makes a run, the first elements of its
    token, position and time step buffers are that token and the position
    [current_step + 1] of the state before the first call. *)
Theorem Decode_feeds_emitted_token :
  forall (st st1 st2 : State) (output_tokens output_tokens' : list Z)
         (r : StatusOr (list Z)),
    Decode output_tokens st = Some (Value output_tokens', st1) ->
    Decode output_tokens' st1 = Some (r, st2) ->
    exists (token : nat) (k : nat),
      next_input_token_id_ st1 = Z.of_nat token
      /\ first_maximum (logits (device st1)) token
      /\ (k <= 5)%nat
      /\ run_log st2
         = run_log st1 ++ take k (decode_step_calls (decode_inputs st2))
      /\ ((1 <= k)%nat ->
          decode_inputs st2
          = decode_inputs_with (Z.of_nat token) (current_step_ st + 1)
              (decode_inputs st1))
      /\ (forall written, r = Value written -> k = 5%nat).
Proof.
  intros st st1 st2 out out' r H1 H2. unfold Decode in H1, H2.
  destruct (Decode_with_inputs None st) as [[[[] | e] sa]|] eqn:Ea;
    [|discriminate|discriminate].
  destruct (failure CopyLogits (device sa)); [discriminate|].
  destruct (argmax (logits (device sa))) as [token|] eqn:Ek;
    cbn [mbind option_bind] in H1; [|discriminate].
  injection H1 as _ <-.
  assert (Hid : next_input_token_id_ st <> -1).
  { intros Hnone. unfold Decode_with_inputs, Decode_select in Ea.
    rewrite Hnone in Ea. cbn in Ea. discriminate. }
  destruct (Decode_with_inputs_outcomes None st _ _ _ eq_refl Hid Ea)
    as (_ & _ & _ & _ & k0 & _ & _ & _ & Hstep & _).
  destruct (Hstep eq_refl) as [_ Hstep1].
  match type of H2 with
  | context [Decode_with_inputs None ?s] =>
      set (s1 := s) in *;
      destruct (Decode_with_inputs None s1) as [[rb sb]|] eqn:Eb;
      [|discriminate]
  end.
  assert (Hfeed : Decode_select None s1 = Value (Z.of_nat token))
    by reflexivity.
  destruct (Decode_with_inputs_outcomes None s1 _ _ _ Hfeed ltac:(lia) Eb)
    as (_ & _ & _ & _ & k & Hk & Hlog & Hd & Hok & _).
  assert (Hst2 : decode_inputs st2 = decode_inputs sb
                 /\ run_log st2 = run_log sb
                 /\ (forall written, r = Value written -> rb = Value tt)).
  { destruct rb as [[]|eb].
    - destruct (failure CopyLogits (device sb)).
      + injection H2 as <- <-. repeat split; discriminate.
      + destruct (argmax (logits (device sb)));
          cbn [mbind option_bind] in H2; [|discriminate].
        injection H2 as _ <-. repeat split.
    - injection H2 as <- <-. repeat split; discriminate. }
  destruct Hst2 as (Hd2 & Hl2 & Hr).
  exists token, k.
  split; [reflexivity|].
  split; [apply argmax_first_maximum; exact Ek|].
  split; [exact Hk|].
  split; [rewrite Hd2, Hl2; exact Hlog|].
  split.
  { intros Hk1. rewrite Hd2, (Hd Hk1). subst s1. cbn. now rewrite Hstep1. }
  intros written Hw. exact (proj1 (Hok (Hr _ Hw))).
Qed.

(** X23.  A decode step after a successful prefill chunk, without id from
    the caller, takes the last id of the chunk.  The log of runs is the five
    runs of the chunk followed by the first [k] runs of the step,
    0 <= k <= 5; once the step makes a run its buffers hold that id and
    the position just after the tokens the chunk wrote; on success all five
    runs are made and [current_step] has grown by the tokens written plus
    one. *)
Theorem Decode_after_PrefillInternal_feeds_last_id :
  forall (prefill_signature : string) (ids : list Z) (st st1 st2 : State)
         (last_id : Z) (r : StatusOr unit),
    PrefillInternal prefill_signature ids st = Some (Value tt, st1) ->
    last ids = Some last_id ->
    last_id <> -1 ->
    Decode_with_inputs None st1 = Some (r, st2) ->
    exists k : nat,
      (k <= 5)%nat
      /\ run_log st2
         = run_log st ++ prefill_chunk_calls (prefill_inputs st1)
           ++ take k (decode_step_calls (decode_inputs st2))
      /\ ((1 <= k)%nat ->
          decode_inputs st2
          = decode_inputs_with last_id
              (current_step_ st
               + Z.of_nat
                   (length (chunk_tokens (next_input_token_id_ st) ids)))
              (decode_inputs st))
      /\ (r = Value tt ->
          k = 5%nat
          /\ current_step_ st2
             = current_step_ st
               + Z.of_nat (length (chunk_tokens (next_input_token_id_ st) ids))
               + 1).
Proof.
  intros sig ids st st1 st2 last_id r Hp Hlast Hne Hd.
  apply PrefillInternal_success in Hp.
  destruct (PrefillInternal_inv _ _ _ _ _ Hp) as (sa & Hprep & _ & Hb & Hlog).
  destruct (PrefillInternal_prepare_inputs_spec _ _ _ Hprep)
    as (_ & _ & _ & _ & _ & Hstep & Hl & _ & Hdi & _ & _ & Hrl).
  destruct Hb as (Hs & Hn & _ & Hpi & Hdi' & _).
  rewrite last_lookup in Hlast.
  replace (Nat.pred (length ids)) with (length ids - 1)%nat in Hlast by lia.
  assert (Hnext : next_input_token_id_ st1 = last_id) by congruence.
  assert (Hsel : Decode_select None st1 = Value last_id)
    by (cbn; now rewrite Hnext).
  destruct (Decode_with_inputs_outcomes None st1 _ _ _ Hsel Hne Hd)
    as (_ & _ & _ & _ & k & Hk & Hlog2 & Hd2 & Hok & _).
  exists k. split; [exact Hk|].
  split; [rewrite Hlog2, (Hlog eq_refl), Hrl, Hpi, <- app_assoc; reflexivity|].
  split; [intros Hk1; rewrite (Hd2 Hk1), Hs, Hstep, Hdi', Hdi; reflexivity|].
  intros Hr. destruct (Hok Hr) as [-> ->]. split; [reflexivity|].
  now rewrite Hs, Hstep.
Qed.

End WithCollaborators.

(** *** The theorems at concrete inputs *)


Lemma successful_calls_agree_witness :
  exists st',
    Prefill (compiled_models := steady) (utils := greedy_utils)
      (library := reliable_library) (Some (token_tensor prompt_256))
      steady_executor = Some (Value tt, st')
    /\ Executor.Prefill (compiled_models := steady) (utils := greedy_utils)
         (Some (token_tensor prompt_256)) steady_executor
       = Some (Value tt, st').
Proof.
  assert (E : exists st',
             Prefill (compiled_models := steady) (utils := greedy_utils)
               (library := reliable_library) (Some (token_tensor prompt_256))
               steady_executor = Some (Value tt, st'))
    by (vm_compute; eexists; reflexivity).
  destruct E as [st' E]. exists st'. split; [exact E|].
  destruct (@successful_calls_agree steady greedy_utils reliable_library
              steady_executor st') as (_ & H & _).
  exact (H _ E).
Defined.

Lemma reliable_library_same_executor_witness :
  Decode_with_inputs (compiled_models := steady)
    (library := reliable_library) (Some (MkTensor [1; 1] [4]))
    steady_executor
  = Executor.Decode_with_inputs (compiled_models := steady)
      (Some (MkTensor [1; 1] [4])) steady_executor.
Proof.
  destruct (@reliable_library_same_executor steady greedy_utils
              reliable_library ltac:(intros call dev; reflexivity)
              steady_executor) as (_ & _ & H & _).
  apply H.
Defined.

Lemma Prefill_returns_OK_witness :
  exists st',
    Prefill (compiled_models := steady) (utils := greedy_utils)
      (library := reliable_library)
      (Some (MkTensor [1; Z.of_nat (length prompt_256)] prompt_256))
      steady_executor = Some (Value tt, st').
Proof.
  apply (@Prefill_returns_OK steady greedy_utils reliable_library
           steady_executor prompt_256
           [(kPrefillSignature, 128); (kPrefillSignature, 128)]).
  - intros call dev. reflexivity.
  - intros signature inputs dev. reflexivity.
  - vm_compute. lia.
  - reflexivity.
  - repeat constructor; cbn; lia.
  - reflexivity.
  - cbn. lia.
  - vm_compute. discriminate.
Defined.

Lemma Decode_returns_token_witness :
  exists output_tokens' st',
    Decode (compiled_models := steady) (library := reliable_library) [0]
      (set_next_input_token_id 9 steady_executor)
    = Some (Value output_tokens', st')
    /\ next_input_token_id_ st' <> -1
    /\ current_step_ st' = 0 + 1.
Proof.
  destruct (@Decode_returns_token steady reliable_library
              (set_next_input_token_id 9 steady_executor) [0])
    as (out & st' & E & Hn & Hs & _).
  - intros call dev. reflexivity.
  - intros signature inputs dev. reflexivity.
  - intros dev. discriminate.
  - cbn. lia.
  - cbn. lia.
  - cbn. lia.
  - cbn. lia.
  - vm_compute. reflexivity.
  - exists out, st'. split; [exact E|]. split; [exact Hn | exact Hs].
Defined.

Lemma Decode_feeds_emitted_token_witness :
  exists st1 st2 r,
    Decode (compiled_models := steady) (library := reliable_library) [0]
      (set_next_input_token_id 9 steady_executor) = Some (Value [1], st1)
    /\ Decode (library := reliable_library) [1] st1 = Some (r, st2)
    /\ next_input_token_id_ st1 = 1
    /\ decode_inputs st2 = decode_inputs_with 1 1 (decode_inputs st1).
Proof.
  let first := eval vm_compute in
      (Decode (compiled_models := steady) (library := reliable_library) [0]
         (set_next_input_token_id 9 steady_executor)) in
  match first with
  | Some (Value _, ?st1) =>
      let second := eval vm_compute in
          (Decode (compiled_models := steady) (library := reliable_library)
             [1] st1) in
      match second with
      | Some (?r, ?st2) => exists st1, st2, r
      end
  end.
  match goal with
  | |- ?first /\ ?second /\ _ =>
      assert (E1 : first) by (vm_compute; reflexivity);
      assert (E2 : second) by (vm_compute; reflexivity)
  end.
  split; [exact E1|]. split; [exact E2|].
  destruct (@Decode_feeds_emitted_token steady reliable_library
              _ _ _ _ _ _ E1 E2)
    as (token & k & Hnext & _ & _ & _ & Hd & Hfive).
  cbn [next_input_token_id_] in Hnext.
  assert (token = 1%nat) as -> by lia.
  split; [reflexivity|]. apply Hd. rewrite (Hfive _ eq_refl). lia.
Defined.

Lemma Decode_after_PrefillInternal_feeds_last_id_witness :
  exists st1 st2 k,
    PrefillInternal (compiled_models := steady) (library := reliable_library)
      kPrefillSignature [7; 8; 9] steady_executor = Some (Value tt, st1)
    /\ Decode_with_inputs (library := reliable_library) None st1
       = Some (Value tt, st2)
    /\ decode_inputs st2
       = decode_inputs_with 9 2 (decode_inputs steady_executor)
    /\ run_log st2
       = prefill_chunk_calls (prefill_inputs st1)
         ++ take k (decode_step_calls (decode_inputs st2))
    /\ current_step_ st2 = 3.
Proof.
  let first := eval vm_compute in
      (PrefillInternal (compiled_models := steady)
         (library := reliable_library) kPrefillSignature [7; 8; 9]
         steady_executor) in
  match first with
  | Some (_, ?st1) =>
      let second := eval vm_compute in
          (Decode_with_inputs (compiled_models := steady)
             (library := reliable_library) None st1) in
      match second with
      | Some (_, ?st2) =>
          assert (E1 : PrefillInternal (compiled_models := steady)
                         (library := reliable_library) kPrefillSignature
                         [7; 8; 9] steady_executor
                       = Some (Value tt, st1)) by (vm_compute; reflexivity);
          assert (E2 : Decode_with_inputs (compiled_models := steady)
                         (library := reliable_library) None st1
                       = Some (Value tt, st2)) by (vm_compute; reflexivity)
      end
  end.
  destruct (@Decode_after_PrefillInternal_feeds_last_id steady
              reliable_library _ _ _ _ _ 9 _ E1 eq_refl ltac:(lia) E2)
    as (k & _ & Hlog & Hd & Hstep).
  destruct (Hstep eq_refl) as [-> Hstep'].
  eexists; eexists; exists 5%nat. split; [exact E1|]. split; [exact E2|].
  split; [apply Hd; lia|]. split; [exact Hlog | exact Hstep'].
Defined.

End ExecutorWithLibraryProperties.
